(** * hyperclick-latex: cursor-context classifiers of [lib/context-helpers.js]

    A shallow embedding of the seven classifiers exported by
    [lib/context-helpers.js] together with the fragment of the JavaScript
    string and regular-expression semantics they rely on, and the proofs of
    the properties stated for them. *)

From Stdlib Require Import ZArith NArith List Bool Lia String Ascii.
Import ListNotations.
Local Open Scope Z_scope.

Set Implicit Arguments.

(** ** JavaScript strings

    A JavaScript string is a finite sequence of UTF-16 code units. *)

Definition char := N.
Definition jsstring := list char.

(** Literals of the source are written as Rocq strings (all of them are
    ASCII). *)
Definition str (s : string) : jsstring :=
  List.map N_of_ascii (list_ascii_of_string s).

Definition len (s : jsstring) : Z := Z.of_nat (List.length s).

(** [s[i]] for an integer index; [None] stands for [undefined]. *)
Definition charAt (s : jsstring) (i : Z) : option char :=
  if i <? 0 then None else nth_error s (Z.to_nat i).

Definition lbrace : char := 123%N.
Definition rbrace : char := 125%N.
Definition comma : char := 44%N.

(** *** [String.prototype.indexOf] and [lastIndexOf]

    The source only ever searches for one-character strings, so the search
    string is a single code unit here. *)

Fixpoint index_from (c : char) (s : jsstring) (i : Z) : Z :=
  match s with
  | [] => -1
  | x :: t => if N.eqb x c then i else index_from c t (i + 1)
  end.

(** [s.indexOf(c, pos)]: the search starts at [min (max pos 0) len]. *)
Definition indexOf (c : char) (s : jsstring) (pos : Z) : Z :=
  let start := Z.min (Z.max pos 0) (len s) in
  index_from c (skipn (Z.to_nat start) s) start.

(** Largest index below [n] holding [c], scanning downwards. *)
Fixpoint last_index_down (c : char) (s : jsstring) (n : nat) : Z :=
  match n with
  | O => -1
  | S m =>
      match nth_error s m with
      | Some x => if N.eqb x c then Z.of_nat m else last_index_down c s m
      | None => last_index_down c s m
      end
  end.

(** [s.lastIndexOf(c, pos)]: [pos] is clamped between [0] and [len - 1];
    in particular a negative [pos] still inspects index [0]. *)
Definition lastIndexOf (c : char) (s : jsstring) (pos : Z) : Z :=
  let start := Z.min (Z.max pos 0) (len s - 1) in
  last_index_down c s (Z.to_nat (start + 1)).

(** *** [String.prototype.slice] *)

Definition rel_index (n i : Z) : Z :=
  if i <? 0 then Z.max (n + i) 0 else Z.min i n.

Definition slice (s : jsstring) (a b : Z) : jsstring :=
  let from := rel_index (len s) a in
  let to := rel_index (len s) b in
  firstn (Z.to_nat (to - from)) (skipn (Z.to_nat from) s).

(** [s.slice(a)]: the end defaults to the length. *)
Definition slice_from (s : jsstring) (a : Z) : jsstring :=
  slice s a (len s).

(** ** Positions, ranges and the host editor *)

Record Point := mkPoint { row : Z; column : Z }.

Definition point_leb (a b : Point) : bool :=
  (row a <? row b) || ((row a =? row b) && (column a <=? column b)).

Record Range := mkRange { range_start : Point; range_end : Point }.

(** Modelled from the spec: [Range] is imported from the host editor
    package and is not part of the sources.  A Span is "an ordered pair of
    Positions (start <= end)": the constructor orders its two points. *)
Definition Range_new (a b : Point) : Range :=
  if point_leb a b then mkRange a b else mkRange b a.

(** The Span invariant of the data model, relative to a row. *)
Definition span_inv (r : Z) (rg : Range) : Prop :=
  row (range_start rg) = r /\ row (range_end rg) = r /\
  column (range_start rg) <= column (range_end rg).

(** The host's text-buffer accessor: a capability returning the literal text
    of a range.  The classifiers only read it. *)
Record Editor := mkEditor { getTextInBufferRange : Range -> jsstring }.

Definition row_text (rows : list jsstring) (r : Z) : option jsstring :=
  if r <? 0 then None else nth_error rows (Z.to_nat r).

(** Modelled from the spec: a text buffer given by its rows, answering
    single-row ranges with the text between the two columns (nothing for a
    row that does not exist or a range spanning several rows). *)
Definition buffer_text (rows : list jsstring) (rg : Range) : jsstring :=
  if row (range_start rg) =? row (range_end rg) then
    match row_text rows (row (range_start rg)) with
    | Some l => slice l (Z.max 0 (column (range_start rg)))
                        (Z.max 0 (column (range_end rg)))
    | None => []
    end
  else [].

Definition buffer_editor (rows : list jsstring) : Editor :=
  mkEditor (buffer_text rows).

(** The editor shows [line] at row [r]: every in-bounds range of that row
    reads the corresponding piece of [line]. *)
Definition shows_line (editor : Editor) (r : Z) (line : jsstring) : Prop :=
  forall a b, 0 <= a <= b -> b <= len line ->
    getTextInBufferRange editor (mkRange (mkPoint r a) (mkPoint r b))
    = slice line a b.

(** ** The context record

    Caller-supplied description of the token nearest the cursor.  The
    offsets are integers.  The source adds and subtracts them as
    double-precision numbers, which is exact for magnitudes below 2^53;
    the integers here add exactly.  The two agree when the offsets lie
    inside the line, which is what [value_at] below states. *)
Record Context := mkContext {
  line : jsstring;          (* context.line *)
  index : Z;                (* context.index *)
  value : jsstring;         (* context.value *)
  range : Range;            (* context.range *)
  startIndex : Z;           (* context.startIndex *)
  endIndex : Z;             (* context.endIndex *)
  scopes : list jsstring    (* context.scopes *)
}.

(** ** [getBraceContents] *)

Record BraceContents := mkBraceContents {
  bc_value : jsstring;
  bc_range : Range
}.

(** [null] is [None]. *)
Definition getBraceContents (editor : Editor) (point : Point)
    (context : Context) : option BraceContents :=
  let index := column point in
  let line := line context in
  let contentsStartIndex := lastIndexOf lbrace line (index - 1) in
  let minStartIndex := lastIndexOf rbrace line (index - 1) in
  let contentsEndIndex := indexOf rbrace line index in
  let maxEndIndex := indexOf lbrace line index in
  if (contentsStartIndex =? -1) || (contentsEndIndex =? -1) then None
  else if (contentsStartIndex <? minStartIndex)
          || ((contentsEndIndex >? maxEndIndex) && negb (maxEndIndex =? -1))
  then None
  else
    let range := Range_new (mkPoint (row point) (contentsStartIndex + 1))
                           (mkPoint (row point) contentsEndIndex) in
    let value := getTextInBufferRange editor range in
    Some (mkBraceContents value range).

(** ** Regular expressions

    The fragment of the ECMAScript pattern language used by the source,
    with the backtracking semantics of the language definition: a matcher
    takes a state and a continuation and returns the first successful end
    state, trying alternatives in priority order. *)

Inductive regex :=
| Empty                              (* the empty pattern *)
| Chr (p : char -> bool)             (* a character, an escape, a class *)
| Seq (r1 r2 : regex)                (* r1 r2 *)
| Alt (r1 r2 : regex)                (* r1|r2 *)
| Star (greedy : bool) (r : regex)   (* r*  and  r*? *)
| Opt (r : regex)                    (* r? *)
| Group (n : nat) (r : regex)        (* the n-th capturing group (r) *)
| Bol                                (* ^ *)
| Eol.                               (* $ *)

(** A match state: the text still to be read, the index reached and the
    capture list (most recent binding first). *)
Record MState := mkMState {
  rest : jsstring;
  pos : nat;
  caps : list (nat * (nat * nat))
}.

Definition Cont := MState -> option MState.

Definition or_else (a b : option MState) : option MState :=
  match a with Some z => Some z | None => b end.

Fixpoint groups (r : regex) : list nat :=
  match r with
  | Seq r1 r2 | Alt r1 r2 => groups r1 ++ groups r2
  | Star _ r1 | Opt r1 => groups r1
  | Group n r1 => n :: groups r1
  | _ => []
  end.

(** Entering an iteration of a quantified atom forgets the captures of the
    groups inside it. *)
Definition clear_caps (gs : list nat) (x : MState) : MState :=
  match gs with
  | [] => x
  | _ => mkMState (rest x) (pos x)
           (filter (fun e => negb (existsb (Nat.eqb (fst e)) gs)) (caps x))
  end.

Definition set_cap (n from : nat) (y : MState) : MState :=
  mkMState (rest y) (pos y) ((n, (from, pos y)) :: caps y).

(** The repetition of a matcher [m] (the language definition's
    RepeatMatcher for a star).  An iteration that consumed nothing is
    rejected, so at most [length (rest x)] iterations can succeed: the
    fuel of one more than that, which [rmatch] passes, is never exhausted
    (any larger fuel gives the same result, see [repeat_fuel_enough]). *)
Fixpoint repeat_matcher (m : MState -> Cont -> option MState)
    (greedy : bool) (k : Cont) (fuel : nat) (x : MState) {struct fuel}
  : option MState :=
  match fuel with
  | O => None
  | S fuel' =>
      let again :=
        m x (fun y => if Nat.eqb (pos y) (pos x) then None
                      else repeat_matcher m greedy k fuel' y) in
      if greedy then or_else again (k x) else or_else (k x) again
  end.

Fixpoint rmatch (r : regex) (x : MState) (k : Cont) {struct r}
  : option MState :=
  match r with
  | Empty => k x
  | Chr p =>
      match rest x with
      | c :: t => if p c then k (mkMState t (S (pos x)) (caps x)) else None
      | [] => None
      end
  | Seq r1 r2 => rmatch r1 x (fun y => rmatch r2 y k)
  | Alt r1 r2 => or_else (rmatch r1 x k) (rmatch r2 x k)
  | Star greedy r1 =>
      repeat_matcher
        (fun x' k' => rmatch r1 (clear_caps (groups r1) x') k')
        greedy k (S (List.length (rest x))) x
  | Opt r1 =>
      or_else
        (rmatch r1 (clear_caps (groups r1) x)
           (fun y => if Nat.eqb (pos y) (pos x) then None else k y))
        (k x)
  | Group n r1 => rmatch r1 x (fun y => k (set_cap n (pos x) y))
  | Bol => if Nat.eqb (pos x) 0 then k x else None
  | Eol => match rest x with [] => k x | _ :: _ => None end
  end.

(** The result array of a successful match: element 0 and the captures
    1..n ([None] is [undefined]). *)
Record MatchArray := mkMatchArray {
  whole : jsstring;
  captures : list (option jsstring)
}.

Definition capture (m : MatchArray) (n : nat) : option jsstring :=
  match n with
  | O => Some (whole m)
  | S i => nth i (captures m) None
  end.

Fixpoint lookup_cap (n : nat) (cs : list (nat * (nat * nat)))
  : option (nat * nat) :=
  match cs with
  | [] => None
  | (m, se) :: t => if Nat.eqb m n then Some se else lookup_cap n t
  end.

Definition substring (s : jsstring) (from to : nat) : jsstring :=
  firstn (to - from) (skipn from s).

Definition ngroups (r : regex) : nat := fold_right Nat.max O (groups r).

Definition match_array (r : regex) (input : jsstring) (from : nat)
    (y : MState) : MatchArray :=
  mkMatchArray (substring input from (pos y))
    (List.map (fun n => option_map (fun se => substring input (fst se) (snd se))
                          (lookup_cap n (caps y)))
              (seq 1 (ngroups r))).

(** A non-global, non-sticky search: the pattern is tried at every start
    index from the left, the end of the input included. *)
Fixpoint search_from (r : regex) (input s : jsstring) (i : nat)
  : option MatchArray :=
  match rmatch r (mkMState s i []) Some with
  | Some y => Some (match_array r input i y)
  | None =>
      match s with
      | [] => None
      | _ :: t => search_from r input t (S i)
      end
  end.

(** [s.match(r)]; [None] is [null]. *)
Definition regex_match (s : jsstring) (r : regex) : option MatchArray :=
  search_from r s s O.

(** *** Character classes and pattern shorthands *)

Definition in_range (lo hi c : N) : bool := (N.leb lo c && N.leb c hi)%bool.

(** LineTerminator: LF, CR, LS, PS. *)
Definition is_line_terminator (c : char) : bool :=
  (N.eqb c 10 || N.eqb c 13 || N.eqb c 8232 || N.eqb c 8233)%bool.

(** [\s]: WhiteSpace and LineTerminator code units. *)
Definition is_space (c : char) : bool :=
  (N.eqb c 9 || N.eqb c 11 || N.eqb c 12 || N.eqb c 32 || N.eqb c 160
   || N.eqb c 5760 || in_range 8192 8202 c || N.eqb c 8239 || N.eqb c 8287
   || N.eqb c 12288 || N.eqb c 65279 || is_line_terminator c)%bool.

(** [.] without the [s] flag. *)
Definition is_dot (c : char) : bool := negb (is_line_terminator c).

Definition not_rbrace (c : char) : bool := negb (N.eqb c rbrace).

(** Canonicalisation under the [i] flag.  For the ASCII letters of the
    patterns this is upper-casing; a code unit above 127 never folds to an
    ASCII one. *)
Definition canonicalize (c : char) : char :=
  if in_range 97 122 c then (c - 32)%N else c.

Definition one (a : string) : char :=
  match list_ascii_of_string a with
  | x :: _ => N_of_ascii x
  | [] => 0%N
  end.

Definition backslash : char := 92%N.

Definition Lit (a : string) : regex := Chr (N.eqb (one a)).
Definition Backslash : regex := Chr (N.eqb backslash).
Definition LitI (a : string) : regex :=
  Chr (fun c => N.eqb (canonicalize c) (canonicalize (one a))).

Definition seqs (rs : list regex) : regex := fold_right Seq Empty rs.

Definition Lits (s : string) : regex :=
  seqs (List.map (fun a => Chr (N.eqb (N_of_ascii a)))
          (list_ascii_of_string s)).
Definition LitsI (s : string) : regex :=
  seqs (List.map (fun a => Chr (fun c => N.eqb (canonicalize c)
                                          (canonicalize (N_of_ascii a))))
          (list_ascii_of_string s)).

Definition Spaces : regex := Star true (Chr is_space).          (* \s* *)
Definition Spaces1 : regex := Seq (Chr is_space) Spaces.         (* \s+ *)
Definition NotRbraces : regex := Star true (Chr not_rbrace).     (* [^\}]* *)
Definition LazyAny : regex := Star false (Chr is_dot).           (* .*? *)

(** *** The patterns of the source *)

(** [/^\s*%\s*!T[eE]X\s+(root|bib)\s*=\s*/] *)
Definition magicFileRegex : regex :=
  seqs [Bol; Spaces; Lit "%"; Spaces; Lit "!"; Lit "T";
        Chr (fun c => N.eqb c (one "e") || N.eqb c (one "E"))%bool;
        Lit "X"; Spaces1;
        Group 1 (Alt (Lits "root") (Lits "bib"));
        Spaces; Lit "="; Spaces].

(** The optional bracketed group [(?:\[.*?\])?]. *)
Definition OptionalArgument : regex :=
  Opt (seqs [Lit "["; LazyAny; Lit "]"]).

(** The alternatives of the capturing group of [fileRegex]:
    [inputminted\s*\{[^\}]*\}|input|include(?:only|graphics)?|addbibresource] *)
Definition fileCommands : regex :=
  Alt (seqs [Lits "inputminted"; Spaces; Lit "{"; NotRbraces; Lit "}"])
 (Alt (Lits "input")
 (Alt (Seq (Lits "include") (Opt (Alt (Lits "only") (Lits "graphics"))))
      (Lits "addbibresource"))).

(** What follows the group: [\s*(?:\[.*?\])?\s*\{[^\}]*$] *)
Definition openArgument : regex :=
  seqs [Spaces; OptionalArgument; Spaces; Lit "{"; NotRbraces; Eol].

(** [/\\(inputminted\s*\{[^\}]*\}|input|include(?:only|graphics)?|addbibresource)\s*(?:\[.*?\])?\s*\{[^\}]*$/] *)
Definition fileRegex : regex :=
  seqs [Backslash; Group 1 fileCommands; openArgument].

(** [/^(\s* )(.*?)(\s* )$/] (written here with a blank before each closing
    parenthesis that follows a star; the pattern has none) *)
Definition fileNameRegex : regex :=
  seqs [Bol; Group 1 Spaces; Group 2 LazyAny; Group 3 Spaces; Eol].

(** [/\\(?:usepackage|documentclass)\s*(?:\[.*?\])?\{[^\}]*$/] *)
Definition pkgRegex : regex :=
  seqs [Backslash; Alt (Lits "usepackage") (Lits "documentclass");
        Spaces; OptionalArgument; Lit "{"; NotRbraces; Eol].

(** [/\\(begin|end)\s*\{[^\}]*$/] *)
Definition envRegex : regex :=
  seqs [Backslash; Group 1 (Alt (Lits "begin") (Lits "end"));
        Spaces; Lit "{"; NotRbraces; Eol].

(** [/\\((?:auto|name|page|eq|cpage|c|labelc)?ref(?:\* )?)\s*\{[^\}]*$/i]
    (again without the blank after the escaped star) *)
Definition refRegex : regex :=
  seqs [Backslash;
        Group 1
          (seqs [Opt (Alt (LitsI "auto") (Alt (LitsI "name") (Alt (LitsI "page")
                   (Alt (LitsI "eq") (Alt (LitsI "cpage") (Alt (LitsI "c")
                        (LitsI "labelc")))))));
                 LitsI "ref"; Opt (LitI "*")]);
        Spaces; LitI "{"; NotRbraces; Eol].

(** ** The classifiers *)

(** The outcome of evaluating a function body: a returned value, or the
    [TypeError] raised by reading a property of [null] or [undefined]. *)
Inductive completion (A : Type) : Type :=
| Return (a : A)
| Throw.
Arguments Return {A} a.
Arguments Throw {A}.

Fixpoint jsstring_eqb (a b : jsstring) : bool :=
  match a, b with
  | [], [] => true
  | x :: a', y :: b' => N.eqb x y && jsstring_eqb a' b'
  | _, _ => false
  end.

(** [v === "..."] for a value that is a string or [undefined]. *)
Definition strict_eq (v : option jsstring) (s : string) : bool :=
  match v with
  | Some a => jsstring_eqb a (str s)
  | None => false
  end.

(** [scopes.includes("...")] *)
Definition includes (l : list jsstring) (s : string) : bool :=
  existsb (fun a => jsstring_eqb a (str s)) l.

(** The structured result of the file-path classifiers; [command] and
    [path] are strings or [undefined]. *)
Record FileResult := mkFileResult {
  command : option jsstring;
  fr_range : Range;
  path : option jsstring
}.

(** [false] is [None]. *)
Definition isMagicFilePath (editor : Editor) (point : Point)
    (context : Context) : option FileResult :=
  let line := line context in
  let index := index context in
  match regex_match line magicFileRegex with
  | None => None
  | Some fileMatch =>
      let filePathStartIndex := len (whole fileMatch) in
      if index <? filePathStartIndex then None
      else
        let fileCommand := capture fileMatch 1 in
        let filePath := slice_from line filePathStartIndex in
        Some (mkFileResult fileCommand
                (Range_new (mkPoint (row point) filePathStartIndex)
                           (mkPoint (row point) (len line)))
                (Some filePath))
  end.

(** The tail shared by the [\input] and [\include] branches: the name
    pattern is matched against [text] and its first and third groups are
    measured; [nameMatch[1]] raises when the match is [null]. *)
Definition trimmed_name (point : Point) (index : Z)
    (fileCommand : option jsstring) (text : jsstring) (from to : Z)
  : completion (option FileResult) :=
  match regex_match text fileNameRegex with
  | None => Throw
  | Some nameMatch =>
      match capture nameMatch 1, capture nameMatch 3 with
      | Some g1, Some g3 =>
          let fileNameStartIndex := from + len g1 in
          let fileNameEndIndex := to - len g3 in
          if (index <? fileNameStartIndex) || (index >? fileNameEndIndex)
          then Return None
          else Return (Some (mkFileResult fileCommand
                           (Range_new (mkPoint (row point) fileNameStartIndex)
                                      (mkPoint (row point) fileNameEndIndex))
                           (capture nameMatch 2)))
      | _, _ => Throw
      end
  end.

Definition isFilePath (editor : Editor) (point : Point) (context : Context)
  : completion (option FileResult) :=
  let line := line context in
  let index := index context in
  match regex_match (slice line 0 index) fileRegex with
  | None => Return None
  | Some fileMatch =>
      let fileCommand := capture fileMatch 1 in
      if strict_eq fileCommand "input" then
        trimmed_name point index fileCommand (value context)
          (startIndex context) (endIndex context)
      else if strict_eq fileCommand "include"
              || strict_eq fileCommand "includeonly" then
        let valueIndex := index - startIndex context in
        let fileSectionStart :=
          startIndex context
          + lastIndexOf comma (value context) (valueIndex - 1) in
        let fileSectionEnd :=
          startIndex context + indexOf comma (value context) valueIndex in
        let fileSectionStart :=
          if fileSectionStart <? startIndex context then startIndex context
          else fileSectionStart + 1 in
        let fileSectionEnd :=
          if fileSectionEnd <? startIndex context then endIndex context
          else fileSectionEnd in
        if fileSectionEnd - fileSectionStart <? 1 then Return None
        else
          let fileSection := slice line fileSectionStart fileSectionEnd in
          trimmed_name point index fileCommand fileSection
            fileSectionStart fileSectionEnd
      else if strict_eq fileCommand "includegraphics" then
        Return (Some (mkFileResult fileCommand (range context)
                        (Some (value context))))
      else
        Return (Some (mkFileResult fileCommand (range context)
                        (Some (value context))))
  end.

Definition isPackageOrClass (editor : Editor) (point : Point)
    (context : Context) : bool :=
  let lineStart := slice (line context) 0 (index context) in
  match regex_match lineStart pkgRegex with
  | Some _ => true
  | None => includes (scopes context) "support.class.latex"
  end.

(** [false] is [None]; a returned command is a string or [undefined]. *)
Definition isEnvDelim (editor : Editor) (point : Point) (context : Context)
  : option (option jsstring) :=
  let line := line context in
  let index := index context in
  match regex_match (slice line 0 index) envRegex with
  | Some env => Some (capture env 1)
  | None => None
  end.

Definition isRef (editor : Editor) (point : Point) (context : Context)
  : option (option jsstring) :=
  let line := line context in
  match regex_match (slice line 0 (column point)) refRegex with
  | Some ref => Some (capture ref 1)
  | None =>
      if includes (scopes context) "meta.reference.latex"
      then Some (Some (str "UNKNOWN REF COMMAND"))
      else None
  end.

Definition isCitation (editor : Editor) (point : Point) (context : Context)
  : option (option jsstring) :=
  if includes (scopes context) "constant.other.reference.citation.latex"
  then Some (Some (str "UNKNOWN CITE COMMAND"))
  else None.

(** ** Vocabulary of the statements *)

(** *** Braces around a cursor *)

Definition no_open_left (l : jsstring) (col : Z) : Prop :=
  forall i, i < col -> charAt l i <> Some lbrace.

Definition no_close_right (l : jsstring) (col : Z) : Prop :=
  forall i, col <= i -> charAt l i <> Some rbrace.

(** [s] is the index of the nearest [{] left of the cursor. *)
Definition nearest_open_left (l : jsstring) (col s : Z) : Prop :=
  s < col /\ charAt l s = Some lbrace /\
  forall i, s < i < col -> charAt l i <> Some lbrace.

(** [e] is the index of the nearest [}] at or right of the cursor. *)
Definition nearest_close_right (l : jsstring) (col e : Z) : Prop :=
  col <= e /\ charAt l e = Some rbrace /\
  forall i, col <= i < e -> charAt l i <> Some rbrace.

(** The nearest [{] on the left lies before a [}] that is also on the left:
    the cursor is right of an already closed group. *)
Definition closed_group_left (l : jsstring) (col : Z) : Prop :=
  exists s j, nearest_open_left l col s /\ s < j < col /\
              charAt l j = Some rbrace.

(** The nearest [}] on the right lies after a [{] that is also on the
    right: the cursor is left of the next group. *)
Definition next_group_right (l : jsstring) (col : Z) : Prop :=
  exists e j, nearest_close_right l col e /\ col <= j < e /\
              charAt l j = Some lbrace.

(** The braces at [s] and [e] enclose the cursor with no brace between
    them: the innermost pair around the cursor. *)
Definition encloses (l : jsstring) (col s e : Z) : Prop :=
  s < col <= e /\ charAt l s = Some lbrace /\ charAt l e = Some rbrace /\
  forall i, s < i < e ->
    charAt l i <> Some lbrace /\ charAt l i <> Some rbrace.

(** The range and the record built on success from the indices of the two
    braces. *)
Definition inner_range (point : Point) (s e : Z) : Range :=
  mkRange (mkPoint (row point) (s + 1)) (mkPoint (row point) e).

Definition found_contents (editor : Editor) (point : Point) (s e : Z)
  : BraceContents :=
  mkBraceContents (getTextInBufferRange editor (inner_range point s e))
    (inner_range point s e).

Definition brace_free (l : jsstring) : Prop :=
  forall c, In c l -> c <> lbrace /\ c <> rbrace.

(** A context record of which only the line matters. *)
Definition line_context (l : jsstring) : Context :=
  mkContext l 0 [] (mkRange (mkPoint 0 0) (mkPoint 0 0)) 0 0 [].

(** *** Progress of the matcher

    [y] can be reached from [x] by reading on: the text left has not grown
    and the index has moved by what was read. *)
Definition advancesb (x y : MState) : bool :=
  (Nat.leb (List.length (rest y)) (List.length (rest x))
   && Nat.eqb (pos y + List.length (rest y))
              (pos x + List.length (rest x)))%bool.

Definition restrict (x : MState) (k : Cont) : Cont :=
  fun y => if advancesb x y then k y else None.

(** *** Runs of a character class

    What a star over a character class computes, written by recursion on
    the text: the greedy run tries the longest run first, the lazy run the
    shortest. *)

Fixpoint greedy_run (p : char -> bool) (k : Cont) (s : jsstring) (i : nat)
    (cs : list (nat * (nat * nat))) : option MState :=
  match s with
  | c :: t =>
      if p c then or_else (greedy_run p k t (S i) cs) (k (mkMState s i cs))
      else k (mkMState s i cs)
  | [] => k (mkMState [] i cs)
  end.

Fixpoint lazy_run (p : char -> bool) (k : Cont) (s : jsstring) (i : nat)
    (cs : list (nat * (nat * nat))) : option MState :=
  or_else (k (mkMState s i cs))
    match s with
    | c :: t => if p c then lazy_run p k t (S i) cs else None
    | [] => None
    end.

(** A run of [p] cannot be extended into [t]. *)
Definition stops (p : char -> bool) (t : jsstring) : Prop :=
  match t with
  | [] => True
  | c :: _ => p c = false
  end.

Definition all_of (p : char -> bool) (s : jsstring) : Prop :=
  Forall (fun c => p c = true) s.

Definition all_space (s : jsstring) : Prop := all_of is_space s.

(** *** Trimming *)

Fixpoint take_while (p : char -> bool) (s : jsstring) : jsstring :=
  match s with
  | c :: t => if p c then c :: take_while p t else []
  | [] => []
  end.

Fixpoint drop_while (p : char -> bool) (s : jsstring) : jsstring :=
  match s with
  | c :: t => if p c then drop_while p t else s
  | [] => []
  end.

(** The whitespace a text starts with, the text without it, the whitespace
    that remainder ends with, and the text without both. *)
Definition leading_space (s : jsstring) : jsstring := take_while is_space s.
Definition trim_start (s : jsstring) : jsstring := drop_while is_space s.
Definition trailing_space (s : jsstring) : jsstring :=
  rev (take_while is_space (rev (trim_start s))).
Definition trim (s : jsstring) : jsstring :=
  rev (drop_while is_space (rev (trim_start s))).

(** No line terminator occurs in the text. *)
Definition single_line (s : jsstring) : Prop := all_of is_dot s.

(** *** The command in front of the cursor *)

Fixpoint starts_with (pre u : jsstring) : bool :=
  match pre, u with
  | [], _ => true
  | a :: pre', c :: u' => N.eqb a c && starts_with pre' u'
  | _ :: _, [] => false
  end.

(** [fileMatch[1]] when the line up to the cursor matches [fileRegex]. *)
Definition file_command (context : Context) : option jsstring :=
  match regex_match (slice (line context) 0 (index context)) fileRegex with
  | Some fileMatch => capture fileMatch 1
  | None => None
  end.

(** The section bounds computed by the [\include] branch of [isFilePath]. *)
Definition sectionStart (context : Context) : Z :=
  let s := startIndex context
           + lastIndexOf comma (value context)
               (index context - startIndex context - 1) in
  if s <? startIndex context then startIndex context else s + 1.

Definition sectionEnd (context : Context) : Z :=
  let e := startIndex context
           + indexOf comma (value context)
               (index context - startIndex context) in
  if e <? startIndex context then endIndex context else e.

(** The texts the capturing group of [fileRegex] can hold when a
    whitespace or [{] follows. *)
Definition command_text (cmd : jsstring) : Prop :=
  cmd = str "input" \/ cmd = str "include" \/ cmd = str "includeonly" \/
  cmd = str "includegraphics" \/ cmd = str "addbibresource" \/
  exists ws lang, all_space ws /\ all_of not_rbrace lang /\
                  cmd = str "inputminted" ++ ws ++ [lbrace] ++ lang ++ [rbrace].

(** The line up to the cursor ends in a command with an open brace:
    nothing before it can start a command, whitespace may separate the
    command from the brace, and the brace is not closed. *)
Definition open_command (prefix cmd : jsstring) : Prop :=
  exists pre ws arg,
    prefix = pre ++ [backslash] ++ cmd ++ ws ++ [lbrace] ++ arg /\
    ~ In backslash pre /\ all_space ws /\ all_of not_rbrace arg.

(** The context's value is the text of the line between [startIndex] and
    [endIndex]. *)
Definition value_at (context : Context) : Prop :=
  exists before after,
    line context = before ++ value context ++ after /\
    startIndex context = len before /\
    endIndex context = startIndex context + len (value context).

(** [seg] is the comma-delimited segment of [v] around offset [k]: it holds
    no comma, a comma or the start of [v] precedes it, a comma or the end
    of [v] follows it, and [k] lies between its two ends. *)
Definition segment_at (v : jsstring) (k : Z) (pre seg post : jsstring) : Prop :=
  v = pre ++ seg ++ post /\
  (pre = [] \/ exists p, pre = p ++ [comma]) /\
  (post = [] \/ exists q, post = comma :: q) /\
  ~ In comma seg /\
  len pre <= k <= len pre + len seg.

(** The commands for which [isFilePath] builds a range of its own; for
    every other command it hands back the context record's range. *)
Definition builds_range (cmd : option jsstring) : bool :=
  strict_eq cmd "input" || strict_eq cmd "include"
  || strict_eq cmd "includeonly".

(** The Span invariant claimed of every range returned by the three
    classifiers that return one. *)
Definition span_claim_as_stated : Prop :=
  (forall editor point context r,
     isMagicFilePath editor point context = Some r ->
     span_inv (row point) (fr_range r)) /\
  (forall editor point context r,
     isFilePath editor point context = Return (Some r) ->
     span_inv (row point) (fr_range r)) /\
  (forall editor point context r,
     getBraceContents editor point context = Some r ->
     span_inv (row point) (bc_range r)).

(** A context in front of [\includegraphics{] whose range lies on another
    row than the cursor. *)
Definition other_row_context : Context :=
  mkContext (str "\includegraphics{a}") 18 (str "a")
    (mkRange (mkPoint 1 0) (mkPoint 1 4)) 17 18 [].

(** A line and a value holding the line separator U+2028, which the editor
    keeps inside one line. *)
Definition separator_value : jsstring := str "a" ++ [8232%N] ++ str "b".
Definition separator_context : Context :=
  mkContext (str "\input{" ++ separator_value ++ str "}") 8 separator_value
    (mkRange (mkPoint 0 7) (mkPoint 0 10)) 7 10 [].
Definition separator_include_context : Context :=
  mkContext (str "\include{" ++ separator_value ++ str "}") 10
    separator_value (mkRange (mkPoint 0 9) (mkPoint 0 12)) 9 12 [].

(** *** Directive comments *)

(** The spellings of [TeX] the pattern accepts, and the spellings that
    differ from [TeX] by letter case only. *)
Definition tex_of_pattern (t : jsstring) : Prop :=
  t = str "TeX" \/ t = str "TEX".
Definition tex_any_case (t : jsstring) : Prop :=
  List.map canonicalize t = str "TEX".

(** [l] is a directive comment of the given kind followed by [rest]:
    [% !TeX kind = rest] with optional whitespace in front, after [%],
    and around [=], whitespace between [TeX] and the kind, and [rest] not
    starting with whitespace. *)
Definition directive_line (tex_ok : jsstring -> Prop)
    (l kind rest : jsstring) : Prop :=
  exists ws0 ws1 tex ws2 ws3 ws4,
    l = ws0 ++ str "%" ++ ws1 ++ str "!" ++ tex ++ ws2 ++ kind ++ ws3
        ++ str "=" ++ ws4 ++ rest /\
    all_space ws0 /\ all_space ws1 /\ all_space ws2 /\ ws2 <> [] /\
    all_space ws3 /\ all_space ws4 /\ tex_ok tex /\
    (kind = str "root" \/ kind = str "bib") /\ stops is_space rest.

(** The behaviour claimed of [isMagicFilePath] on directive lines, for a
    given reading of which spellings of [TeX] count. *)
Definition magic_claim (tex_ok : jsstring -> Prop) : Prop :=
  forall editor point context kind rest,
    directive_line tex_ok (line context) kind rest ->
    isMagicFilePath editor point context
    = let start := len (line context) - len rest in
      if index context <? start then None
      else Some (mkFileResult (Some kind)
                   (mkRange (mkPoint (row point) start)
                            (mkPoint (row point) (len (line context))))
                   (Some rest)).

(** *** Example contexts *)

Definition no_range : Range := mkRange (mkPoint 0 0) (mkPoint 0 0).

(** [\input{ a }] with the cursor right before [a]. *)
Definition input_context : Context :=
  mkContext (str "\input{ a }") 8 (str " a ")
    (mkRange (mkPoint 0 7) (mkPoint 0 10)) 7 10 [].

(** [\include{a, b, c}] with the cursor right before [b]. *)
Definition include_context : Context :=
  mkContext (str "\include{a, b, c}") 12 (str "a, b, c")
    (mkRange (mkPoint 0 9) (mkPoint 0 16)) 9 16 [].

(** [\inputminted{lang}{a.py}] with the cursor inside [a.py]. *)
Definition inputminted_context : Context :=
  mkContext (str "\inputminted{lang}{a.py}") 21 (str "a.py")
    (mkRange (mkPoint 0 19) (mkPoint 0 23)) 19 23 [].

(** A bibliography directive with the cursor inside the keyword. *)
Definition bib_directive_context : Context :=
  mkContext (str "%!TEX  bib=refs.bib ") 3 [] no_range 0 0 [].

(** The directive spelt [Tex], with the cursor at the start of the path. *)
Definition lowercase_x_context : Context :=
  mkContext (str "% !Tex root = main.tex") 14 [] no_range 0 0 [].

(** ** Proof automation *)

(** One step of symbolic evaluation of the matcher: the structure of the
    pattern is unfolded down to its character-class runs. *)
Ltac rx :=
  cbn [rmatch Nat.eqb]; unfold set_cap; cbn [pos rest caps Nat.add Nat.eqb].

Ltac drop_clear :=
  repeat match goal with
    | |- context [clear_caps ?g ?x] => change (clear_caps g x) with x
    end.

(** Evaluation of the literals of a goal. *)
Ltac eval_lits :=
  repeat match goal with
    | |- context [str ?s] =>
        let v := eval vm_compute in (str s) in change (str s) with v
    | |- context [one ?s] =>
        let v := eval vm_compute in (one s) in change (one s) with v
    | |- context [N.eqb (Npos ?a) (Npos ?b)] =>
        let v := eval vm_compute in (N.eqb (Npos a) (Npos b)) in
        change (N.eqb (Npos a) (Npos b)) with v
    end.

Ltac ev :=
  unfold lbrace, rbrace, backslash; eval_lits;
  cbn [starts_with andb orb skipn List.length Nat.add app or_else];
  eval_lits; cbn [andb orb or_else].

(** ** Vocabulary of the further properties *)

(** *** The shapes the command patterns accept *)

(** What the optional bracketed group of the patterns takes: nothing, or a
    bracket pair around a text without line terminators. *)
Definition optional_argument_text (o : jsstring) : Prop :=
  o = [] \/ exists b, o = str "[" ++ b ++ str "]" /\ single_line b.

(** What may stand between a file command and its brace: whitespace, an
    optional bracketed group, whitespace. *)
Definition file_gap (mid : jsstring) : Prop :=
  exists ws1 opt ws2,
    mid = ws1 ++ opt ++ ws2 /\
    all_space ws1 /\ optional_argument_text opt /\ all_space ws2.

(** Between [\usepackage] or [\documentclass] and the brace: whitespace and
    an optional bracketed group, with nothing after the group. *)
Definition package_gap (mid : jsstring) : Prop :=
  exists ws opt,
    mid = ws ++ opt /\ all_space ws /\ optional_argument_text opt.

(** The text [u] ends in a backslash, the command [cmd], a gap accepted by
    [gap], and a brace that is not closed. *)
Definition ends_in_command (gap : jsstring -> Prop) (u cmd : jsstring)
  : Prop :=
  exists pre mid arg,
    u = pre ++ [backslash] ++ cmd ++ mid ++ [lbrace] ++ arg /\
    gap mid /\ all_of not_rbrace arg.

(** The same, with no backslash before the command: the command is the
    first one of the text. *)
Definition first_command (gap : jsstring -> Prop) (u cmd : jsstring)
  : Prop :=
  exists pre mid arg,
    u = pre ++ [backslash] ++ cmd ++ mid ++ [lbrace] ++ arg /\
    ~ In backslash pre /\ gap mid /\ all_of not_rbrace arg.

Definition env_command (cmd : jsstring) : Prop :=
  cmd = str "begin" \/ cmd = str "end".

Definition package_command (cmd : jsstring) : Prop :=
  cmd = str "usepackage" \/ cmd = str "documentclass".

(** Letter case folded away, as the [i] flag compares characters. *)
Definition fold_case (s : jsstring) : jsstring := List.map canonicalize s.

(** The optional prefixes of the reference pattern, in its order. *)
Definition ref_prefixes : list string :=
  ["auto"; "name"; "page"; "eq"; "cpage"; "c"; "labelc"]%string.

(** The same alternatives as a pattern: [auto|name|page|eq|cpage|c|labelc],
    compared under the [i] flag. *)
Definition refPrefixes : regex :=
  Alt (LitsI "auto") (Alt (LitsI "name") (Alt (LitsI "page")
    (Alt (LitsI "eq") (Alt (LitsI "cpage") (Alt (LitsI "c")
         (LitsI "labelc")))))).

(** A reference command as written in the line: an optional prefix, [ref]
    and an optional star, in any letter case. *)
Definition ref_command (cmd : jsstring) : Prop :=
  exists pfx base star,
    cmd = pfx ++ base ++ star /\
    (pfx = [] \/ In (fold_case pfx)
                   (List.map (fun s => fold_case (str s)) ref_prefixes)) /\
    fold_case base = fold_case (str "ref") /\
    (star = [] \/ star = str "*").

(** *** The text in front of the cursor *)

(** The text of the line in front of the cursor, as the classifiers that
    read [context.index] take it. *)
Definition before_cursor (context : Context) : jsstring :=
  slice (line context) 0 (index context).

(** The text of the line in front of the cursor column, as [isRef] takes
    it. *)
Definition before_column (point : Point) (context : Context) : jsstring :=
  slice (line context) 0 (column point).

(** The text holds an opening brace with no closing brace after it. *)
Definition unclosed_brace (u : jsstring) : Prop :=
  exists a t, u = a ++ lbrace :: t /\ all_of not_rbrace t.

(** *** Lists of file names *)

Definition not_comma (c : char) : bool := negb (N.eqb c comma).

(** *** The claim about [\input] *)

(** What is claimed in front of [\input]: nothing when the cursor is
    outside the value without its leading and trailing whitespace,
    otherwise the command [input] with the span and the text of that
    trimmed value. *)
Definition trimmed_input_result (point : Point) (context : Context)
  : option FileResult :=
  if (index context
      <? startIndex context + len (leading_space (value context)))
     || (index context
         >? endIndex context - len (trailing_space (value context)))
  then None
  else Some (mkFileResult (Some (str "input"))
               (mkRange
                  (mkPoint (row point)
                     (startIndex context
                      + len (leading_space (value context))))
                  (mkPoint (row point)
                     (endIndex context
                      - len (trailing_space (value context)))))
               (Some (trim (value context)))).

(** The behaviour claimed of [isFilePath] in front of [\input], for a
    given reading [in_front] of which contexts are in front of [\input].
    The value of the context is the brace argument (the text of the line
    between its two offsets), and no line terminator occurs inside its
    trimmed text. *)
Definition input_claim (in_front : Context -> Prop) : Prop :=
  forall editor point context,
    in_front context -> value_at context ->
    single_line (trim (value context)) ->
    isFilePath editor point context
    = Return (trimmed_input_result point context).

(** The two readings.  As the claim is worded: the text before the cursor
    ends in [\input], optional whitespace and a brace that is not closed.
    As the code decides: the file pattern, found from the left in the text
    before the cursor, captures [input]. *)
Definition ends_in_input (context : Context) : Prop :=
  ends_in_command all_space (before_cursor context) (str "input").

Definition captures_input (context : Context) : Prop :=
  file_command context = Some (str "input").

(** [\input{ a }] written inside the brace of [\includegraphics], with
    the cursor right before [a]. *)
Definition nested_input_context : Context :=
  mkContext (str "\includegraphics{\input{ a }}") 25 (str " a ")
    (mkRange (mkPoint 0 24) (mkPoint 0 27)) 24 27 [].

(** * Properties *)

(** ** Strings: [charAt], [indexOf], [lastIndexOf], [slice] *)

Lemma len_nonneg (s : jsstring) : 0 <= len s.
Proof. unfold len. lia. Qed.

Lemma len_app (a b : jsstring) : len (a ++ b) = len a + len b.
Proof. unfold len. rewrite length_app. lia. Qed.

Lemma len_cons (c : char) (s : jsstring) : len (c :: s) = 1 + len s.
Proof. unfold len. simpl List.length. lia. Qed.

Lemma charAt_neg (s : jsstring) (i : Z) : i < 0 -> charAt s i = None.
Proof.
  intros H. unfold charAt. destruct (Z.ltb_spec i 0); [reflexivity | lia].
Qed.

Lemma charAt_nat (s : jsstring) (n : nat) :
  charAt s (Z.of_nat n) = nth_error s n.
Proof.
  unfold charAt. destruct (Z.ltb_spec (Z.of_nat n) 0); [lia|].
  now rewrite Nat2Z.id.
Qed.

Lemma charAt_beyond (s : jsstring) (i : Z) : len s <= i -> charAt s i = None.
Proof.
  intros H. unfold charAt. destruct (Z.ltb_spec i 0); [reflexivity|].
  apply nth_error_None. unfold len in H. lia.
Qed.

Lemma charAt_some_bounds (s : jsstring) (i : Z) (c : char) :
  charAt s i = Some c -> 0 <= i < len s.
Proof.
  intros H. split.
  - destruct (Z_lt_le_dec i 0) as [Hn|]; [|assumption].
    rewrite (charAt_neg s Hn) in H. discriminate.
  - destruct (Z_lt_le_dec i (len s)) as [|Hn]; [assumption|].
    rewrite (charAt_beyond s Hn) in H. discriminate.
Qed.

Lemma charAt_in (s : jsstring) (i : Z) (c : char) :
  charAt s i = Some c -> In c s.
Proof.
  unfold charAt. destruct (i <? 0); [discriminate|].
  apply nth_error_In.
Qed.

Lemma index_from_cases (c : char) (s : jsstring) (i : Z) :
  (index_from c s i = -1 /\ forall n, nth_error s n <> Some c) \/
  (exists n, index_from c s i = i + Z.of_nat n /\ nth_error s n = Some c /\
             forall m, (m < n)%nat -> nth_error s m <> Some c).
Proof.
  revert i. induction s as [|x t IH]; intros i; simpl.
  - left. split; [reflexivity|]. intros [|n]; discriminate.
  - destruct (N.eqb_spec x c) as [->|Hne].
    + right. exists O. split; [lia|]. split; [reflexivity|]. intros m Hm. lia.
    + destruct (IH (i + 1)) as [[Hr Hno]|[n [Hr [Hn Hmin]]]].
      * left. split; [assumption|].
        intros [|n]; simpl; [congruence | apply Hno].
      * right. exists (S n). split; [lia|]. split; [assumption|].
        intros [|m] Hm; simpl; [congruence | apply Hmin; lia].
Qed.

(** [indexOf]: either nothing at or after the start, or the first
    occurrence at or after it. *)
Lemma indexOf_cases (c : char) (s : jsstring) (p : Z) :
  (indexOf c s p = -1 /\
   forall i, Z.max p 0 <= i -> charAt s i <> Some c) \/
  (Z.max p 0 <= indexOf c s p /\ charAt s (indexOf c s p) = Some c /\
   forall i, Z.max p 0 <= i < indexOf c s p -> charAt s i <> Some c).
Proof.
  unfold indexOf.
  set (start := Z.min (Z.max p 0) (len s)).
  assert (Hs0 : 0 <= start) by (pose proof (len_nonneg s); lia).
  assert (Hnth : forall n, nth_error (skipn (Z.to_nat start) s) n
                           = charAt s (start + Z.of_nat n)).
  { intros n. rewrite nth_error_skipn.
    replace (start + Z.of_nat n) with (Z.of_nat (Z.to_nat start + n)) by lia.
    now rewrite charAt_nat. }
  destruct (index_from_cases c (skipn (Z.to_nat start) s) start)
    as [[Hr Hno]|[n [Hr [Hn Hmin]]]].
  - left. split; [assumption|]. intros i Hi.
    destruct (Z_lt_le_dec i (len s)) as [Hlt|Hge].
    + replace i with (start + Z.of_nat (Z.to_nat (i - start))) by lia.
      rewrite <- Hnth. apply Hno.
    + rewrite (charAt_beyond s Hge). discriminate.
  - right. rewrite Hr. rewrite Hnth in Hn.
    pose proof (charAt_some_bounds _ _ Hn) as Hb.
    split; [lia|]. split; [assumption|].
    intros i Hi.
    replace i with (start + Z.of_nat (Z.to_nat (i - start))) by lia.
    rewrite <- Hnth. apply Hmin. lia.
Qed.

Lemma last_index_down_cases (c : char) (s : jsstring) (n : nat) :
  (last_index_down c s n = -1 /\
   forall m, (m < n)%nat -> nth_error s m <> Some c) \/
  (exists m, last_index_down c s n = Z.of_nat m /\ (m < n)%nat /\
             nth_error s m = Some c /\
             forall j, (m < j < n)%nat -> nth_error s j <> Some c).
Proof.
  induction n as [|n IH]; simpl.
  - left. split; [reflexivity|]. intros m Hm. lia.
  - assert (Hstep : nth_error s n <> Some c ->
      (last_index_down c s n = -1 /\
       forall m, (m < S n)%nat -> nth_error s m <> Some c) \/
      (exists m, last_index_down c s n = Z.of_nat m /\ (m < S n)%nat /\
                 nth_error s m = Some c /\
                 forall j, (m < j < S n)%nat -> nth_error s j <> Some c)).
    { intros Hne. destruct IH as [[Hr Hno]|[m [Hr [Hm [Hc Hmax]]]]].
      - left. split; [assumption|]. intros m Hm.
        destruct (Nat.eq_dec m n) as [->|]; [assumption | apply Hno; lia].
      - right. exists m. split; [assumption|]. split; [lia|].
        split; [assumption|]. intros j Hj.
        destruct (Nat.eq_dec j n) as [->|]; [assumption | apply Hmax; lia]. }
    destruct (nth_error s n) as [x|] eqn:Hx.
    + destruct (N.eqb_spec x c) as [->|Hne].
      * right. exists n. split; [reflexivity|]. split; [lia|].
        split; [assumption|]. intros j Hj. lia.
      * apply Hstep. congruence.
    + apply Hstep. discriminate.
Qed.

(** [lastIndexOf]: either nothing at or before the (clamped) start, or the
    last occurrence at or before it. *)
Lemma lastIndexOf_cases (c : char) (s : jsstring) (p : Z) :
  (lastIndexOf c s p = -1 /\
   forall i, i <= Z.max p 0 -> charAt s i <> Some c) \/
  (0 <= lastIndexOf c s p <= Z.max p 0 /\
   charAt s (lastIndexOf c s p) = Some c /\
   forall i, lastIndexOf c s p < i <= Z.max p 0 -> charAt s i <> Some c).
Proof.
  unfold lastIndexOf.
  set (start := Z.min (Z.max p 0) (len s - 1)).
  pose proof (len_nonneg s) as Hl.
  assert (Hout : forall i, start < i -> i <= Z.max p 0 -> charAt s i <> Some c).
  { intros i Hi Hi'. rewrite charAt_beyond by lia. discriminate. }
  destruct (last_index_down_cases c s (Z.to_nat (start + 1)))
    as [[Hr Hno]|[m [Hr [Hm [Hc Hmax]]]]].
  - left. split; [assumption|]. intros i Hi.
    destruct (Z_lt_le_dec i 0) as [Hneg|Hpos].
    + rewrite charAt_neg by assumption. discriminate.
    + destruct (Z_lt_le_dec start i) as [Hgt|Hle]; [now apply Hout|].
      replace i with (Z.of_nat (Z.to_nat i)) by lia.
      rewrite charAt_nat. apply Hno. lia.
  - right. rewrite Hr. split; [lia|]. split; [now rewrite charAt_nat|].
    intros i Hi.
    destruct (Z_lt_le_dec start i) as [Hgt|Hle]; [apply Hout; lia|].
    replace i with (Z.of_nat (Z.to_nat i)) by lia.
    rewrite charAt_nat. apply Hmax. lia.
Qed.


(** The range constructor keeps two ordered points of one row as they
    are. *)
Lemma Range_new_ordered (r a b : Z) :
  a <= b -> Range_new (mkPoint r a) (mkPoint r b)
            = mkRange (mkPoint r a) (mkPoint r b).
Proof.
  intros H. unfold Range_new, point_leb. simpl.
  rewrite Z.eqb_refl. destruct (Z.leb_spec a b); [|lia].
  now rewrite orb_true_r.
Qed.

(** ** [getBraceContents] *)

Section BraceContents.

Variable editor : Editor.
Variable point : Point.
Variable context : Context.

(** A cursor at the very start of the line (or left of it) is enclosed by
    nothing: the backward search is clamped to index 0, and a [{] found
    there is also the first [{] of the forward search. *)
Lemma getBraceContents_start :
  column point <= 0 -> getBraceContents editor point context = None.
Proof.
  intros Hcol. unfold getBraceContents. cbv zeta.
  set (l := line context). set (col := column point) in *.
  destruct (lastIndexOf_cases lbrace l (col - 1)) as [[HS _]|[HS [HSc _]]].
  - rewrite HS. reflexivity.
  - replace (Z.max (col - 1) 0) with 0 in HS by lia.
    assert (HS0 : lastIndexOf lbrace l (col - 1) = 0) by lia.
    rewrite HS0 in *. clear HS.
    destruct (indexOf_cases rbrace l col) as [[HE _]|[HE [HEc _]]].
    + rewrite HE. reflexivity.
    + replace (Z.max col 0) with 0 in HE by lia.
      assert (HEpos : 0 < indexOf rbrace l col).
      { destruct (Z.eq_dec (indexOf rbrace l col) 0) as [E0|]; [|lia].
        rewrite E0 in HEc. rewrite HSc in HEc. discriminate. }
      destruct (indexOf_cases lbrace l col) as [[_ HX]|[HX [_ HXmin]]].
      * exfalso. apply (HX 0); [lia | assumption].
      * replace (Z.max col 0) with 0 in * by lia.
        assert (HX0 : indexOf lbrace l col = 0).
        { destruct (Z.eq_dec (indexOf lbrace l col) 0) as [|Hne];
            [assumption|].
          exfalso. apply (HXmin 0); [lia | assumption]. }
        rewrite HX0.
        destruct (Z.eqb_spec 0 (-1)); [lia|].
        destruct (Z.eqb_spec (indexOf rbrace l col) (-1)); [lia|].
        destruct (Z.gtb_spec (indexOf rbrace l col) 0); [|lia].
        simpl. now rewrite orb_true_r.
Qed.

(** Every call is in one of two situations: one of the four rejection
    conditions holds and the result is [null], or an innermost pair
    encloses the cursor and the result is built from it. *)
Lemma getBraceContents_cases :
  (getBraceContents editor point context = None /\
   (no_open_left (line context) (column point) \/
    no_close_right (line context) (column point) \/
    closed_group_left (line context) (column point) \/
    next_group_right (line context) (column point))) \/
  (exists s e, encloses (line context) (column point) s e /\
               getBraceContents editor point context
               = Some (found_contents editor point s e)).
Proof.
  destruct (Z_le_gt_dec (column point) 0) as [Hcol|Hcol].
  { left. split; [now apply getBraceContents_start|].
    left. intros i Hi. rewrite charAt_neg by lia. discriminate. }
  unfold getBraceContents, found_contents, inner_range. cbv zeta.
  set (l := line context). set (col := column point) in *.
  destruct (lastIndexOf_cases lbrace l (col - 1))
    as [[HS HSno]|[HS [HSc HSmax]]].
  { left. rewrite HS. split; [reflexivity|].
    left. intros i Hi. apply HSno. lia. }
  destruct (indexOf_cases rbrace l col) as [[HE HEno]|[HE [HEc HEmin]]].
  { left. rewrite HE. rewrite orb_true_r. split; [reflexivity|].
    right. left. intros i Hi. apply HEno. lia. }
  replace (Z.max (col - 1) 0) with (col - 1) in * by lia.
  replace (Z.max col 0) with col in * by lia.
  set (S := lastIndexOf lbrace l (col - 1)) in *.
  set (E := indexOf rbrace l col) in *.
  assert (HnS : nearest_open_left l col S).
  { split; [lia|]. split; [assumption|]. intros i Hi. apply HSmax. lia. }
  assert (HnE : nearest_close_right l col E).
  { split; [lia|]. split; [assumption|]. intros i Hi. apply HEmin. lia. }
  destruct (Z.eqb_spec S (-1)); [lia|].
  destruct (Z.eqb_spec E (-1)); [lia|]. simpl.
  destruct (lastIndexOf_cases rbrace l (col - 1))
    as [[HM HMno]|[HM [HMc HMmax]]];
    replace (Z.max (col - 1) 0) with (col - 1) in * by lia;
    set (M := lastIndexOf rbrace l (col - 1)) in *.
  - (* no closing brace on the left *)
    destruct (Z.ltb_spec S M); [lia|]. simpl.
    destruct (indexOf_cases lbrace l col) as [[HX HXno]|[HX [HXc HXmin]]];
      replace (Z.max col 0) with col in * by lia;
      set (X := indexOf lbrace l col) in *.
    + rewrite HX. rewrite andb_false_r.
      right. exists S, E. split.
      * split; [lia|]. split; [assumption|]. split; [assumption|].
        intros i Hi. destruct (Z_lt_le_dec i col).
        -- split; [apply HSmax; lia | apply HMno; lia].
        -- split; [apply HXno; lia | apply HEmin; lia].
      * rewrite Range_new_ordered by lia. reflexivity.
    + destruct (Z.gtb_spec E X) as [Hgt|Hle].
      * destruct (Z.eqb_spec X (-1)); [lia|]. simpl.
        left. split; [reflexivity|]. right. right. right.
        exists E, X. split; [assumption|]. split; [lia | assumption].
      * simpl. right. exists S, E. split.
        -- split; [lia|]. split; [assumption|]. split; [assumption|].
           intros i Hi. destruct (Z_lt_le_dec i col).
           ++ split; [apply HSmax; lia | apply HMno; lia].
           ++ split; [apply HXmin; lia | apply HEmin; lia].
        -- rewrite Range_new_ordered by lia. reflexivity.
  - (* a closing brace on the left at M *)
    assert (HMS : M <> S).
    { intros Heq. rewrite Heq in HMc. rewrite HSc in HMc. discriminate. }
    destruct (Z.ltb_spec S M) as [Hlt|Hge].
    + simpl. left. split; [reflexivity|]. right. right. left.
      exists S, M. split; [assumption|]. split; [lia | assumption].
    + simpl.
      destruct (indexOf_cases lbrace l col) as [[HX HXno]|[HX [HXc HXmin]]];
        replace (Z.max col 0) with col in * by lia;
        set (X := indexOf lbrace l col) in *.
      * rewrite HX. rewrite andb_false_r.
        right. exists S, E. split.
        -- split; [lia|]. split; [assumption|]. split; [assumption|].
           intros i Hi. destruct (Z_lt_le_dec i col).
           ++ split; [apply HSmax; lia | apply HMmax; lia].
           ++ split; [apply HXno; lia | apply HEmin; lia].
        -- rewrite Range_new_ordered by lia. reflexivity.
      * destruct (Z.gtb_spec E X) as [Hgt|Hle].
        -- destruct (Z.eqb_spec X (-1)); [lia|]. simpl.
           left. split; [reflexivity|]. right. right. right.
           exists E, X. split; [assumption|]. split; [lia | assumption].
        -- simpl. right. exists S, E. split.
           ++ split; [lia|]. split; [assumption|]. split; [assumption|].
              intros i Hi. destruct (Z_lt_le_dec i col).
              ** split; [apply HSmax; lia | apply HMmax; lia].
              ** split; [apply HXmin; lia | apply HEmin; lia].
           ++ rewrite Range_new_ordered by lia. reflexivity.
Qed.

(** An enclosing innermost pair rules out each rejection condition. *)
Lemma encloses_not_rejected (s e : Z) :
  encloses (line context) (column point) s e ->
  ~ (no_open_left (line context) (column point) \/
     no_close_right (line context) (column point) \/
     closed_group_left (line context) (column point) \/
     next_group_right (line context) (column point)).
Proof.
  intros [Hse [Hs [He Hin]]] [H|[H|[H|H]]].
  - apply (H s); [lia | assumption].
  - apply (H e); [lia | assumption].
  - destruct H as [s' [j [[Hs' [Hs'c Hs'max]] [Hj Hjc]]]].
    assert (s <= s').
    { destruct (Z_le_gt_dec s s'); [assumption|].
      exfalso. apply (Hs'max s); [lia | assumption]. }
    assert (s' <= s).
    { destruct (Z_le_gt_dec s' s); [assumption|].
      exfalso. apply (proj1 (Hin s' ltac:(lia))). assumption. }
    apply (proj2 (Hin j ltac:(lia))). assumption.
  - destruct H as [e' [j [[He' [He'c He'min]] [Hj Hjc]]]].
    assert (e' <= e).
    { destruct (Z_le_gt_dec e' e); [assumption|].
      exfalso. apply (He'min e); [lia | assumption]. }
    assert (e <= e').
    { destruct (Z_le_gt_dec e e'); [assumption|].
      exfalso. apply (proj2 (Hin e' ltac:(lia))). assumption. }
    apply (proj1 (Hin j ltac:(lia))). assumption.
Qed.

(** The innermost pair around a cursor is unique. *)
Lemma encloses_unique (s e s' e' : Z) :
  encloses (line context) (column point) s e ->
  encloses (line context) (column point) s' e' -> s = s' /\ e = e'.
Proof.
  intros [Hse [Hs [He Hin]]] [Hse' [Hs' [He' Hin']]].
  assert (~ s < s')
    by (intros ?; apply (proj1 (Hin s' ltac:(lia))); assumption).
  assert (~ s' < s)
    by (intros ?; apply (proj1 (Hin' s ltac:(lia))); assumption).
  assert (~ e < e')
    by (intros ?; apply (proj2 (Hin' e ltac:(lia))); assumption).
  assert (~ e' < e)
    by (intros ?; apply (proj2 (Hin e' ltac:(lia))); assumption).
  lia.
Qed.

Lemma getBraceContents_enclosed (s e : Z) :
  encloses (line context) (column point) s e ->
  getBraceContents editor point context
  = Some (found_contents editor point s e).
Proof.
  intros Henc.
  destruct getBraceContents_cases as [[_ Hrej]|[s' [e' [Henc' Hres]]]].
  - exfalso. exact (encloses_not_rejected Henc Hrej).
  - destruct (encloses_unique Henc Henc') as [-> ->]. assumption.
Qed.

End BraceContents.

Lemma brace_free_charAt (s : jsstring) (i : Z) :
  brace_free s -> charAt s i <> Some lbrace /\ charAt s i <> Some rbrace.
Proof.
  intros Hfree. destruct (charAt s i) as [c|] eqn:Hc.
  - apply charAt_in in Hc. destruct (Hfree c Hc). split; congruence.
  - split; discriminate.
Qed.

(** C1. [getBraceContents] returns [null] exactly when one of the four
    rejection conditions holds: no [{] left of the cursor, no [}] at or
    right of it, the nearest left [{] lies before a [}] that is also on the
    left, or the nearest right [}] lies after a [{] that is also on the
    right.  In particular it returns [null] on every line without braces,
    and on the line [{}{}] with the cursor between the two groups. *)
Theorem getBraceContents_null_iff :
  (forall editor point context,
     getBraceContents editor point context = None <->
     (no_open_left (line context) (column point) \/
      no_close_right (line context) (column point) \/
      closed_group_left (line context) (column point) \/
      next_group_right (line context) (column point)))
  /\ (forall editor point context,
        brace_free (line context) ->
        getBraceContents editor point context = None)
  /\ (forall editor point context,
        line context = str "{}{}" -> column point = 2 ->
        getBraceContents editor point context = None).
Proof.
  assert (Hiff : forall editor point context,
     getBraceContents editor point context = None <->
     (no_open_left (line context) (column point) \/
      no_close_right (line context) (column point) \/
      closed_group_left (line context) (column point) \/
      next_group_right (line context) (column point))).
  { intros editor point context. split.
    - intros Hnull.
      destruct (getBraceContents_cases editor point context)
        as [[_ Hrej]|[s [e [_ Hres]]]]; [assumption | congruence].
    - intros Hrej.
      destruct (getBraceContents_cases editor point context)
        as [[Hnull _]|[s [e [Henc _]]]]; [assumption|].
      exfalso. eapply encloses_not_rejected; eassumption. }
  split; [exact Hiff|]. split.
  - intros editor point context Hfree. apply Hiff. left.
    intros i _. apply (brace_free_charAt i Hfree).
  - intros editor point context Hline Hcol. apply Hiff.
    right. right. left. rewrite Hline, Hcol.
    exists 0, 1. split; [|split; [lia | reflexivity]].
    split; [lia|]. split; [reflexivity|].
    intros i Hi. replace i with 1 by lia. discriminate.
Qed.

Lemma getBraceContents_null_iff_witness :
  brace_free (str "abc") /\
  getBraceContents (buffer_editor [str "abc"]) (mkPoint 0 1)
    (line_context (str "abc")) = None.
Proof.
  assert (H : brace_free (str "abc")).
  { intros c [<-|[<-|[<-|[]]]]; split; discriminate. }
  split; [exact H|].
  apply (proj1 (proj2 getBraceContents_null_iff)). exact H.
Defined.

(** C2. Whenever [getBraceContents] succeeds, and the editor shows the
    context's line at the cursor row, the result is the text strictly
    between the innermost pair of braces enclosing the cursor, with a span
    that starts one past the [{] and ends at the [}].  On [\cite{abc}] with
    the cursor inside [abc] the value is [abc] and the span covers exactly
    these three characters. *)
Theorem getBraceContents_contents :
  (forall editor point context r,
     shows_line editor (row point) (line context) ->
     getBraceContents editor point context = Some r ->
     exists s e,
       encloses (line context) (column point) s e /\
       bc_range r = mkRange (mkPoint (row point) (s + 1))
                            (mkPoint (row point) e) /\
       bc_value r = slice (line context) (s + 1) e)
  /\ (forall editor point context,
        shows_line editor (row point) (line context) ->
        line context = str "\cite{abc}" -> 6 <= column point <= 9 ->
        getBraceContents editor point context
        = Some (mkBraceContents (str "abc")
                  (mkRange (mkPoint (row point) 6) (mkPoint (row point) 9)))).
Proof.
  split.
  - intros editor point context r Hshow Hres.
    destruct (getBraceContents_cases editor point context)
      as [[Hnull _]|[s [e [Henc Hsome]]]]; [congruence|].
    rewrite Hsome in Hres. injection Hres as Hr. subst r.
    unfold found_contents, inner_range.
    exists s, e. split; [assumption|]. split; [reflexivity|].
    simpl. destruct Henc as [Hse [Hs [He _]]].
    apply charAt_some_bounds in Hs. apply charAt_some_bounds in He.
    apply Hshow; lia.
  - intros editor point context Hshow Hline Hcol.
    assert (Henc : encloses (line context) (column point) 5 9).
    { rewrite Hline. split; [lia|]. split; [reflexivity|].
      split; [reflexivity|]. intros i Hi.
      assert (Hc : i = 6 \/ i = 7 \/ i = 8) by lia.
      destruct Hc as [-> | [-> | ->]]; split; discriminate. }
    rewrite (getBraceContents_enclosed editor point context Henc).
    unfold found_contents, inner_range.
    rewrite Hshow by (try rewrite Hline; unfold len; simpl; lia).
    rewrite Hline. reflexivity.
Qed.

Lemma buffer_editor_shows_line (rows : list jsstring) (r : Z) (l : jsstring) :
  row_text rows r = Some l -> shows_line (buffer_editor rows) r l.
Proof.
  intros Hrow a b Hab Hb. simpl. unfold buffer_text. simpl.
  rewrite Z.eqb_refl, Hrow.
  now rewrite !Z.max_r by lia.
Qed.

Lemma getBraceContents_contents_witness :
  shows_line (buffer_editor [str "\cite{abc}"]) 0 (str "\cite{abc}") /\
  getBraceContents (buffer_editor [str "\cite{abc}"]) (mkPoint 0 7)
    (line_context (str "\cite{abc}"))
  = Some (mkBraceContents (str "abc")
            (mkRange (mkPoint 0 6) (mkPoint 0 9))).
Proof.
  assert (H : shows_line (buffer_editor [str "\cite{abc}"]) 0
                (str "\cite{abc}")).
  { apply buffer_editor_shows_line. reflexivity. }
  split; [exact H|].
  apply (proj2 getBraceContents_contents
           (buffer_editor [str "\cite{abc}"]) (mkPoint 0 7)
           (line_context (str "\cite{abc}")) H).
  - reflexivity.
  - simpl. lia.
Defined.

(** C3. A cursor exactly at a [{] is left of it: that call returns [null],
    so this [{] never opens a returned pair.  A cursor exactly at a [}] is
    inside: whenever the call succeeds this [}] closes the returned pair,
    and it does succeed when a [{] with no brace in between lies to the
    left.  On [{abc}] the cursor at column 4 yields [abc], the cursor at
    column 0 yields [null]. *)
Theorem getBraceContents_cursor_at_brace :
  (forall editor point context,
     charAt (line context) (column point) = Some lbrace ->
     getBraceContents editor point context = None)
  /\ (forall editor point context r,
        charAt (line context) (column point) = Some rbrace ->
        getBraceContents editor point context = Some r ->
        column (range_end (bc_range r)) = column point)
  /\ (forall editor point context s,
        charAt (line context) (column point) = Some rbrace ->
        s < column point -> charAt (line context) s = Some lbrace ->
        (forall i, s < i < column point ->
           charAt (line context) i <> Some lbrace /\
           charAt (line context) i <> Some rbrace) ->
        exists v, getBraceContents editor point context
                  = Some (mkBraceContents v
                            (mkRange (mkPoint (row point) (s + 1))
                                     (mkPoint (row point) (column point)))))
  /\ (forall editor point context,
        shows_line editor (row point) (line context) ->
        line context = str "{abc}" ->
        (column point = 4 ->
         getBraceContents editor point context
         = Some (mkBraceContents (str "abc")
                   (mkRange (mkPoint (row point) 1) (mkPoint (row point) 4))))
        /\ (column point = 0 ->
            getBraceContents editor point context = None)).
Proof.
  split; [|split; [|split]].
  - intros editor point context Hat.
    destruct (getBraceContents_cases editor point context)
      as [[Hnull _]|[s [e [Henc _]]]]; [assumption|].
    exfalso. destruct Henc as [Hse [_ [He Hin]]].
    assert (Hne : e <> column point).
    { intros ->. rewrite Hat in He. discriminate. }
    apply (proj1 (Hin (column point) ltac:(lia))). assumption.
  - intros editor point context r Hat Hres.
    destruct (getBraceContents_cases editor point context)
      as [[Hnull _]|[s [e [Henc Hsome]]]]; [congruence|].
    rewrite Hsome in Hres. injection Hres as Hr. subst r.
    unfold found_contents, inner_range. simpl.
    destruct Henc as [Hse [_ [_ Hin]]].
    destruct (Z.eq_dec e (column point)) as [|Hne]; [assumption|].
    exfalso. apply (proj2 (Hin (column point) ltac:(lia))). assumption.
  - intros editor point context s Hat Hs Hsc Hin.
    eexists. apply getBraceContents_enclosed.
    split; [lia|]. split; [assumption|]. split; assumption.
  - intros editor point context Hshow Hline. split.
    + intros Hcol.
      assert (Henc : encloses (line context) (column point) 0 4).
      { rewrite Hline, Hcol. split; [lia|]. split; [reflexivity|].
        split; [reflexivity|]. intros i Hi.
        assert (Hc : i = 1 \/ i = 2 \/ i = 3) by lia.
        destruct Hc as [-> | [-> | ->]]; split; discriminate. }
      rewrite (getBraceContents_enclosed editor point context Henc).
      unfold found_contents, inner_range.
      rewrite Hshow by (try rewrite Hline; unfold len; simpl; lia).
      rewrite Hline. reflexivity.
    + intros Hcol. apply getBraceContents_start. lia.
Qed.

Lemma getBraceContents_cursor_at_brace_witness :
  charAt (str "{abc}") 0 = Some lbrace /\
  getBraceContents (buffer_editor [str "{abc}"]) (mkPoint 0 0)
    (line_context (str "{abc}")) = None.
Proof.
  split; [reflexivity|].
  apply (proj1 getBraceContents_cursor_at_brace
           (buffer_editor [str "{abc}"]) (mkPoint 0 0)
           (line_context (str "{abc}"))).
  reflexivity.
Defined.

(** C9. With the cursor at column 0 [getBraceContents] returns [null] on
    every line.  When the line starts with [{], the backward search from
    offset -1 is clamped to index 0 and finds that brace, the forward
    search for [{] finds it too, and any [}] lies after it, so the pair is
    rejected. *)
Theorem getBraceContents_column_zero :
  (forall editor point context,
     column point = 0 -> getBraceContents editor point context = None)
  /\ (forall l,
        charAt l 0 = Some lbrace ->
        lastIndexOf lbrace l (0 - 1) = 0 /\ indexOf lbrace l 0 = 0 /\
        (indexOf rbrace l 0 = -1 \/ indexOf rbrace l 0 > indexOf lbrace l 0)).
Proof.
  split.
  - intros editor point context Hcol. apply getBraceContents_start. lia.
  - intros l H0. change (0 - 1) with (-1).
    assert (HS : lastIndexOf lbrace l (-1) = 0).
    { destruct (lastIndexOf_cases lbrace l (-1)) as [[_ Hno]|[Hr _]].
      - exfalso. apply (Hno 0); [simpl; lia | assumption].
      - change (Z.max (-1) 0) with 0 in Hr. lia. }
    assert (HX : indexOf lbrace l 0 = 0).
    { destruct (indexOf_cases lbrace l 0) as [[_ Hno]|[Hr [_ Hmin]]].
      - exfalso. apply (Hno 0); [simpl; lia | assumption].
      - change (Z.max 0 0) with 0 in Hr, Hmin.
        destruct (Z.eq_dec (indexOf lbrace l 0) 0) as [|Hne]; [assumption|].
        exfalso. apply (Hmin 0); [lia | assumption]. }
    split; [assumption|]. split; [assumption|]. rewrite HX.
    destruct (indexOf_cases rbrace l 0) as [[Hr _]|[Hr [Hc _]]].
    + now left.
    + right. change (Z.max 0 0) with 0 in Hr.
      destruct (Z.eq_dec (indexOf rbrace l 0) 0) as [E0|]; [|lia].
      rewrite E0, H0 in Hc. discriminate.
Qed.

Lemma getBraceContents_column_zero_witness :
  column (mkPoint 3 0) = 0 /\
  getBraceContents (buffer_editor [str "{abc}"]) (mkPoint 3 0)
    (line_context (str "{abc}")) = None.
Proof.
  split; [reflexivity|].
  apply (proj1 getBraceContents_column_zero). reflexivity.
Defined.

(** ** The matcher *)

Lemma rmatch_Seq (r1 r2 : regex) (x : MState) (k : Cont) :
  rmatch (Seq r1 r2) x k = rmatch r1 x (fun y => rmatch r2 y k).
Proof. reflexivity. Qed.

Lemma rmatch_Empty (x : MState) (k : Cont) : rmatch Empty x k = k x.
Proof. reflexivity. Qed.

Lemma rmatch_Alt (r1 r2 : regex) (x : MState) (k : Cont) :
  rmatch (Alt r1 r2) x k = or_else (rmatch r1 x k) (rmatch r2 x k).
Proof. reflexivity. Qed.

Lemma rmatch_Group (n : nat) (r : regex) (x : MState) (k : Cont) :
  rmatch (Group n r) x k = rmatch r x (fun y => k (set_cap n (pos x) y)).
Proof. reflexivity. Qed.

Lemma rmatch_Chr_cons (p : char -> bool) (c : char) (t : jsstring) (i : nat)
    (cs : list (nat * (nat * nat))) (k : Cont) :
  rmatch (Chr p) (mkMState (c :: t) i cs) k
  = if p c then k (mkMState t (S i) cs) else None.
Proof. reflexivity. Qed.

Lemma rmatch_Chr_nil (p : char -> bool) (i : nat)
    (cs : list (nat * (nat * nat))) (k : Cont) :
  rmatch (Chr p) (mkMState [] i cs) k = None.
Proof. reflexivity. Qed.

Lemma succ_neqb (i : nat) : Nat.eqb (S i) i = false.
Proof. apply Nat.eqb_neq. lia. Qed.

(** With enough fuel the repetition of a character class is its run. *)
Lemma repeat_class_greedy (p : char -> bool) (k : Cont)
    (cs : list (nat * (nat * nat))) (s : jsstring) :
  forall fuel i, (List.length s < fuel)%nat ->
    repeat_matcher
      (fun x' k' => rmatch (Chr p) (clear_caps (groups (Chr p)) x') k')
      true k fuel (mkMState s i cs)
    = greedy_run p k s i cs.
Proof.
  induction s as [|c t IH]; intros fuel i Hf;
    (destruct fuel as [|fuel]; [simpl in Hf; lia|]).
  - reflexivity.
  - cbn [repeat_matcher rmatch clear_caps groups rest pos caps
          greedy_run lazy_run or_else].
    destruct (p c); [|reflexivity].
    rewrite succ_neqb. rewrite IH by (simpl in Hf; lia). reflexivity.
Qed.

Lemma repeat_class_lazy (p : char -> bool) (k : Cont)
    (cs : list (nat * (nat * nat))) (s : jsstring) :
  forall fuel i, (List.length s < fuel)%nat ->
    repeat_matcher
      (fun x' k' => rmatch (Chr p) (clear_caps (groups (Chr p)) x') k')
      false k fuel (mkMState s i cs)
    = lazy_run p k s i cs.
Proof.
  induction s as [|c t IH]; intros fuel i Hf;
    (destruct fuel as [|fuel]; [simpl in Hf; lia|]).
  - reflexivity.
  - cbn [repeat_matcher rmatch clear_caps groups rest pos caps
          greedy_run lazy_run or_else].
    destruct (p c); [|reflexivity].
    rewrite succ_neqb. rewrite IH by (simpl in Hf; lia). reflexivity.
Qed.

Lemma rmatch_star_greedy (p : char -> bool) (s : jsstring) (i : nat)
    (cs : list (nat * (nat * nat))) (k : Cont) :
  rmatch (Star true (Chr p)) (mkMState s i cs) k = greedy_run p k s i cs.
Proof.
  change (rmatch (Star true (Chr p)) (mkMState s i cs) k)
    with (repeat_matcher
            (fun x' k' => rmatch (Chr p) (clear_caps (groups (Chr p)) x') k')
            true k (S (List.length s)) (mkMState s i cs)).
  apply repeat_class_greedy. lia.
Qed.

Lemma rmatch_star_lazy (p : char -> bool) (s : jsstring) (i : nat)
    (cs : list (nat * (nat * nat))) (k : Cont) :
  rmatch (Star false (Chr p)) (mkMState s i cs) k = lazy_run p k s i cs.
Proof.
  change (rmatch (Star false (Chr p)) (mkMState s i cs) k)
    with (repeat_matcher
            (fun x' k' => rmatch (Chr p) (clear_caps (groups (Chr p)) x') k')
            false k (S (List.length s)) (mkMState s i cs)).
  apply repeat_class_lazy. lia.
Qed.

(** A greedy run that can take all of [ws] and no more hands the rest to
    the continuation first. *)
Lemma greedy_run_some (p : char -> bool) (k : Cont) (ws t : jsstring)
    (cs : list (nat * (nat * nat))) (z : MState) :
  all_of p ws -> stops p t ->
  forall i, k (mkMState t (i + List.length ws) cs) = Some z ->
            greedy_run p k (ws ++ t) i cs = Some z.
Proof.
  intros Hws Hstop. induction Hws as [|c ws Hc _ IH]; intros i Hk.
  - simpl in *. rewrite Nat.add_0_r in Hk.
    destruct t as [|c t]; simpl; [assumption|].
    simpl in Hstop. now rewrite Hstop.
  - simpl. rewrite Hc. rewrite (IH (S i)); [reflexivity|].
    simpl in Hk. now rewrite Nat.add_succ_r in Hk.
Qed.

(** A greedy run fails as a whole when its continuation needs the end of
    the text and a character outside the class lies ahead. *)
Lemma greedy_run_blocked (p : char -> bool) (k : Cont) (s : jsstring)
    (cs : list (nat * (nat * nat))) :
  (exists c, In c s /\ p c = false) ->
  (forall y, rest y <> [] -> k y = None) ->
  forall i, greedy_run p k s i cs = None.
Proof.
  intros Hex Hk. induction s as [|c t IH]; intros i.
  - destruct Hex as [c [[] _]].
  - simpl. assert (Hhere : k (mkMState (c :: t) i cs) = None)
      by (apply Hk; discriminate).
    rewrite Hhere. destruct (p c) eqn:Hc; [|reflexivity].
    rewrite IH; [reflexivity|].
    destruct Hex as [d [[<-|Hin] Hd]]; [congruence|]. now exists d.
Qed.

(** A lazy run stops at the first split its continuation accepts. *)
Lemma lazy_run_first (p : char -> bool) (k : Cont) (body t : jsstring)
    (cs : list (nat * (nat * nat))) (z : MState) :
  all_of p body ->
  forall i,
    (forall a b, body = a ++ b -> b <> [] ->
       k (mkMState (b ++ t) (i + List.length a) cs) = None) ->
    k (mkMState t (i + List.length body) cs) = Some z ->
    lazy_run p k (body ++ t) i cs = Some z.
Proof.
  intros Hbody. induction Hbody as [|c body Hc _ IH]; intros i Hfail Hk.
  - simpl in *. rewrite Nat.add_0_r in Hk.
    destruct t; simpl; now rewrite Hk.
  - simpl. pose proof (Hfail [] (c :: body) eq_refl ltac:(discriminate)) as H0.
    simpl in H0. rewrite Nat.add_0_r in H0. rewrite H0. simpl.
    rewrite Hc. apply IH.
    + intros a b Hab Hb.
      specialize (Hfail (c :: a) b ltac:(simpl; congruence) Hb).
      simpl in Hfail. now rewrite Nat.add_succ_r in Hfail.
    + simpl in Hk. now rewrite Nat.add_succ_r in Hk.
Qed.

(** ** The fuel of a repetition is enough *)

Lemma repeat_matcher_ext (m m' : MState -> Cont -> option MState)
    (g : bool) (k k' : Cont) :
  (forall x k1 k2, (forall y, k1 y = k2 y) -> m x k1 = m' x k2) ->
  (forall y, k y = k' y) ->
  forall fuel x,
    repeat_matcher m g k fuel x = repeat_matcher m' g k' fuel x.
Proof.
  intros Hm Hk. induction fuel as [|fuel IH]; intros x; [reflexivity|].
  cbn [repeat_matcher]. rewrite (Hk x).
  rewrite (Hm x _ (fun y => if Nat.eqb (pos y) (pos x) then None
                            else repeat_matcher m' g k' fuel y)).
  - reflexivity.
  - intros y. destruct (Nat.eqb (pos y) (pos x)); [reflexivity | apply IH].
Qed.

(** The result of a matcher depends on its continuation pointwise. *)
Lemma rmatch_ext (r : regex) :
  forall x k k', (forall y, k y = k' y) -> rmatch r x k = rmatch r x k'.
Proof.
  induction r as [|p|r1 IH1 r2 IH2|r1 IH1 r2 IH2|g r1 IH1|r1 IH1|n r1 IH1| |];
    intros x k k' Hk; cbn [rmatch].
  - apply Hk.
  - destruct (rest x) as [|c t]; [reflexivity|].
    destruct (p c); [apply Hk | reflexivity].
  - apply IH1. intros y. now apply IH2.
  - now rewrite (IH1 x k k' Hk), (IH2 x k k' Hk).
  - apply repeat_matcher_ext; [|exact Hk].
    intros x' k1 k2 H12. now apply IH1.
  - rewrite (Hk x). f_equal. apply IH1. intros y.
    destruct (Nat.eqb (pos y) (pos x)); [reflexivity | apply Hk].
  - apply IH1. intros y. apply Hk.
  - destruct (Nat.eqb (pos x) 0); [apply Hk | reflexivity].
  - destruct (rest x); [apply Hk | reflexivity].
Qed.

Lemma advancesb_refl (x : MState) : advancesb x x = true.
Proof.
  unfold advancesb. now rewrite Nat.leb_refl, Nat.eqb_refl.
Qed.

Lemma advancesb_trans (x y z : MState) :
  advancesb x y = true -> advancesb y z = true -> advancesb x z = true.
Proof.
  unfold advancesb. rewrite !andb_true_iff, !Nat.leb_le, !Nat.eqb_eq.
  intros [H1 H2] [H3 H4]. split; lia.
Qed.

Lemma advancesb_clear (gs : list nat) (x y : MState) :
  advancesb (clear_caps gs x) y = advancesb x y.
Proof. destruct gs; reflexivity. Qed.

Lemma restrict_restrict (x y : MState) (k : Cont) :
  advancesb x y = true ->
  forall z, restrict y (restrict x k) z = restrict y k z.
Proof.
  intros Hxy z. unfold restrict.
  destruct (advancesb y z) eqn:Hyz; [|reflexivity].
  now rewrite (advancesb_trans x y z Hxy Hyz).
Qed.

(** A matcher only ever continues from states reached by reading on. *)
Lemma rmatch_advances (r : regex) :
  forall x k, rmatch r x k = rmatch r x (restrict x k).
Proof.
  induction r as [|p|r1 IH1 r2 IH2|r1 IH1 r2 IH2|g r1 IH1|r1 IH1|n r1 IH1| |];
    intros x k; cbn [rmatch].
  - unfold restrict. now rewrite advancesb_refl.
  - destruct (rest x) as [|c t] eqn:Hx; [reflexivity|].
    destruct (p c); [|reflexivity]. unfold restrict, advancesb.
    cbn [rest pos]. rewrite Hx. cbn [List.length].
    replace (Nat.leb (List.length t) (S (List.length t))) with true
      by (symmetry; apply Nat.leb_le; lia).
    replace (Nat.eqb (S (pos x) + List.length t)
               (pos x + S (List.length t))) with true
      by (symmetry; apply Nat.eqb_eq; lia).
    reflexivity.
  - rewrite (IH1 x (fun y => rmatch r2 y k)).
    rewrite (IH1 x (fun y => rmatch r2 y (restrict x k))).
    apply rmatch_ext. intros y. unfold restrict.
    destruct (advancesb x y) eqn:Hxy; [|reflexivity].
    fold (restrict x k).
    rewrite (IH2 y k), (IH2 y (restrict x k)).
    apply rmatch_ext. intros z. symmetry. now apply restrict_restrict.
  - now rewrite (IH1 x k), (IH2 x k).
  - assert (Hloop : forall fuel x',
              advancesb x x' = true ->
              repeat_matcher
                (fun x0 k0 => rmatch r1 (clear_caps (groups r1) x0) k0)
                g k fuel x'
              = repeat_matcher
                  (fun x0 k0 => rmatch r1 (clear_caps (groups r1) x0) k0)
                  g (restrict x k) fuel x').
    { induction fuel as [|fuel IHf]; intros x' Hx'; [reflexivity|].
      cbn [repeat_matcher].
      assert (Hk : restrict x k x' = k x')
        by (unfold restrict; now rewrite Hx').
      rewrite Hk.
      rewrite (IH1 (clear_caps (groups r1) x')
                 (fun y => if Nat.eqb (pos y) (pos x') then None
                           else repeat_matcher _ g k fuel y)).
      rewrite (IH1 (clear_caps (groups r1) x')
                 (fun y => if Nat.eqb (pos y) (pos x') then None
                           else repeat_matcher _ g (restrict x k) fuel y)).
      match goal with
      | |- (if g then or_else ?a _ else or_else _ ?a)
           = (if g then or_else ?b _ else or_else _ ?b) =>
          replace b with a; [reflexivity|]
      end.
      apply rmatch_ext. intros y. unfold restrict at 1 2.
      rewrite advancesb_clear.
      destruct (advancesb x' y) eqn:Hy; [|reflexivity].
      destruct (Nat.eqb (pos y) (pos x')); [reflexivity|].
      apply IHf. exact (advancesb_trans x x' y Hx' Hy). }
    apply Hloop, advancesb_refl.
  - assert (Hk : restrict x k x = k x)
      by (unfold restrict; now rewrite advancesb_refl).
    rewrite Hk. f_equal.
    rewrite (IH1 (clear_caps (groups r1) x)
               (fun y => if Nat.eqb (pos y) (pos x) then None else k y)).
    rewrite (IH1 (clear_caps (groups r1) x)
               (fun y => if Nat.eqb (pos y) (pos x) then None
                         else restrict x k y)).
    apply rmatch_ext. intros y. unfold restrict.
    rewrite advancesb_clear.
    destruct (advancesb x y); reflexivity.
  - rewrite (IH1 x (fun y => k (set_cap n (pos x) y))).
    rewrite (IH1 x (fun y => restrict x k (set_cap n (pos x) y))).
    apply rmatch_ext. intros y. unfold restrict. 
    change (advancesb x (set_cap n (pos x) y)) with (advancesb x y).
    destruct (advancesb x y); reflexivity.
  - unfold restrict. rewrite advancesb_refl. reflexivity.
  - unfold restrict. rewrite advancesb_refl. reflexivity.
Qed.

(** Any fuel above the length of the text left gives the same result: the
    fuel [rmatch] passes to a repetition is never the reason of a
    failure. *)
Theorem repeat_fuel_enough (r : regex) (g : bool) (k : Cont) :
  forall f1 f2 x,
    (List.length (rest x) < f1)%nat -> (List.length (rest x) < f2)%nat ->
    repeat_matcher (fun x0 k0 => rmatch r (clear_caps (groups r) x0) k0)
      g k f1 x
    = repeat_matcher (fun x0 k0 => rmatch r (clear_caps (groups r) x0) k0)
        g k f2 x.
Proof.
  induction f1 as [|f1 IH]; intros f2 x H1 H2; [lia|].
  destruct f2 as [|f2]; [lia|]. cbn [repeat_matcher].
  rewrite (rmatch_advances r (clear_caps (groups r) x)
             (fun y => if Nat.eqb (pos y) (pos x) then None
                       else repeat_matcher _ g k f1 y)).
  rewrite (rmatch_advances r (clear_caps (groups r) x)
             (fun y => if Nat.eqb (pos y) (pos x) then None
                       else repeat_matcher _ g k f2 y)).
  match goal with
  | |- (if g then or_else ?a _ else or_else _ ?a)
       = (if g then or_else ?b _ else or_else _ ?b) =>
      replace b with a; [reflexivity|]
  end.
  apply rmatch_ext. intros y. unfold restrict. rewrite advancesb_clear.
  destruct (advancesb x y) eqn:Hy; [|reflexivity].
  destruct (Nat.eqb_spec (pos y) (pos x)) as [|Hne]; [reflexivity|].
  unfold advancesb in Hy. rewrite andb_true_iff, Nat.leb_le, Nat.eqb_eq in Hy.
  apply IH; lia.
Qed.

Lemma rmatch_Star_fuel (g : bool) (r : regex) (x : MState) (k : Cont)
    (fuel : nat) :
  (List.length (rest x) < fuel)%nat ->
  rmatch (Star g r) x k
  = repeat_matcher (fun x0 k0 => rmatch r (clear_caps (groups r) x0) k0)
      g k fuel x.
Proof.
  intros H. cbn [rmatch]. apply repeat_fuel_enough; lia.
Qed.

Lemma search_from_hit (r : regex) (input s : jsstring) (i : nat) (y : MState) :
  rmatch r (mkMState s i []) Some = Some y ->
  search_from r input s i = Some (match_array r input i y).
Proof. intros H. destruct s; simpl; now rewrite H. Qed.

Lemma search_from_skip (r : regex) (input : jsstring) (c : char)
    (t : jsstring) (i : nat) :
  rmatch r (mkMState (c :: t) i []) Some = None ->
  search_from r input (c :: t) i = search_from r input t (S i).
Proof. intros H. simpl. now rewrite H. Qed.

Lemma substring_middle (a b c : jsstring) :
  substring (a ++ b ++ c) (List.length a) (List.length a + List.length b) = b.
Proof.
  unfold substring. rewrite skipn_app, skipn_all, Nat.sub_diag. simpl.
  replace (List.length a + List.length b - List.length a)%nat
    with (List.length b + 0)%nat by lia.
  rewrite firstn_app_2. simpl. apply app_nil_r.
Qed.

Lemma substring_prefix (a b : jsstring) :
  substring (a ++ b) 0 (List.length a) = a.
Proof.
  pose proof (substring_middle [] a b) as H. exact H.
Qed.

Lemma substring_suffix (a b : jsstring) :
  substring (a ++ b) (List.length a) (List.length a + List.length b) = b.
Proof.
  pose proof (substring_middle a b []) as H.
  now rewrite app_nil_r in H.
Qed.

Lemma substring_all (s : jsstring) : substring s 0 (List.length s) = s.
Proof.
  pose proof (substring_prefix s []) as H.
  now rewrite app_nil_r in H.
Qed.

(** ** Trimming *)

Lemma take_drop_while (p : char -> bool) (s : jsstring) :
  take_while p s ++ drop_while p s = s.
Proof.
  induction s as [|c t IH]; simpl; [reflexivity|].
  destruct (p c); simpl; [now rewrite IH | reflexivity].
Qed.

Lemma take_while_all (p : char -> bool) (s : jsstring) :
  all_of p (take_while p s).
Proof.
  induction s as [|c t IH]; simpl; [constructor|].
  destruct (p c) eqn:Hc; constructor; assumption.
Qed.

Lemma drop_while_stops (p : char -> bool) (s : jsstring) :
  stops p (drop_while p s).
Proof.
  induction s as [|c t IH]; simpl; [exact I|].
  destruct (p c) eqn:Hc; [assumption | exact Hc].
Qed.

Lemma all_of_rev (p : char -> bool) (s : jsstring) :
  all_of p s -> all_of p (rev s).
Proof. unfold all_of. intros H. now apply Forall_rev. Qed.

Lemma leading_space_all (s : jsstring) : all_space (leading_space s).
Proof. apply take_while_all. Qed.

Lemma trailing_space_all (s : jsstring) : all_space (trailing_space s).
Proof. apply all_of_rev, take_while_all. Qed.

Lemma trim_start_split (s : jsstring) :
  trim_start s = trim s ++ trailing_space s.
Proof.
  unfold trim, trailing_space.
  rewrite <- rev_app_distr, take_drop_while. now rewrite rev_involutive.
Qed.

(** A text is its leading whitespace, its trimmed body and its trailing
    whitespace. *)
Lemma trim_split (s : jsstring) :
  s = leading_space s ++ trim s ++ trailing_space s.
Proof.
  rewrite <- trim_start_split. unfold leading_space, trim_start.
  now rewrite take_drop_while.
Qed.

Lemma trim_stops (s : jsstring) : stops is_space (trim s ++ trailing_space s).
Proof. rewrite <- trim_start_split. apply drop_while_stops. Qed.

(** Every non-empty suffix of the trimmed body holds a character that is
    not whitespace: its last one. *)
Lemma trim_suffix_nonspace (s a b : jsstring) :
  trim s = a ++ b -> b <> [] -> exists c, In c b /\ is_space c = false.
Proof.
  intros Hab Hb. unfold trim in Hab.
  pose proof (drop_while_stops is_space (rev (trim_start s))) as Hstop.
  apply (f_equal (@rev char)) in Hab.
  rewrite rev_involutive, rev_app_distr in Hab. rewrite Hab in Hstop.
  destruct (rev b) as [|c b'] eqn:Hrb.
  - exfalso. apply Hb. apply (f_equal (@rev char)) in Hrb.
    now rewrite rev_involutive in Hrb.
  - exists c. split; [|exact Hstop].
    apply in_rev. rewrite Hrb. now left.
Qed.

Lemma len_length (s : jsstring) : len s = Z.of_nat (List.length s).
Proof. reflexivity. Qed.

(** ** The file-name pattern *)

Lemma rmatch_Spaces (s : jsstring) (i : nat) (cs : list (nat * (nat * nat)))
    (k : Cont) :
  rmatch Spaces (mkMState s i cs) k = greedy_run is_space k s i cs.
Proof. apply rmatch_star_greedy. Qed.

Lemma rmatch_LazyAny (s : jsstring) (i : nat) (cs : list (nat * (nat * nat)))
    (k : Cont) :
  rmatch LazyAny (mkMState s i cs) k = lazy_run is_dot k s i cs.
Proof. apply rmatch_star_lazy. Qed.

Lemma rmatch_NotRbraces (s : jsstring) (i : nat)
    (cs : list (nat * (nat * nat))) (k : Cont) :
  rmatch NotRbraces (mkMState s i cs) k = greedy_run not_rbrace k s i cs.
Proof. apply rmatch_star_greedy. Qed.

(** The name pattern splits a text into leading whitespace, body and
    trailing whitespace, provided no line terminator occurs in the body. *)
Lemma fileNameRegex_parts (lead body trail : jsstring) :
  all_space lead -> all_space trail -> single_line body ->
  stops is_space (body ++ trail) ->
  (forall a b, body = a ++ b -> b <> [] ->
     exists c, In c b /\ is_space c = false) ->
  regex_match (lead ++ body ++ trail) fileNameRegex
  = Some (mkMatchArray (lead ++ body ++ trail)
            [Some lead; Some body; Some trail]).
Proof.
  intros Hlead Htrail Hbody Hstop Hsuffix.
  set (n1 := List.length lead). set (n2 := (n1 + List.length body)%nat).
  set (n3 := (n2 + List.length trail)%nat).
  assert (Hrun : rmatch fileNameRegex
                   (mkMState (lead ++ body ++ trail) 0 []) Some
                 = Some (mkMState [] n3 [(3, (n2, n3)); (2, (n1, n2));
                                         (1, (0, n1))]%nat)).
  { unfold fileNameRegex, seqs. cbn [fold_right]. rx.
    rewrite rmatch_Spaces.
    apply greedy_run_some; [assumption | assumption |].
    rx. rewrite rmatch_LazyAny.
    apply lazy_run_first; [assumption | |].
    - intros a b Hab Hb. rx.
      rewrite rmatch_Spaces.
      apply greedy_run_blocked.
      + destruct (Hsuffix a b Hab Hb) as [c [Hin Hc]].
        exists c. split; [|assumption]. apply in_or_app. now left.
      + intros y Hy. rx.
        destruct (rest y); [congruence | reflexivity].
    - rx. rewrite rmatch_Spaces.
      rewrite <- (app_nil_r trail).
      apply greedy_run_some; [assumption | exact I |].
      rx. reflexivity. }
  unfold regex_match.
  rewrite (@search_from_hit _ (lead ++ body ++ trail) _ _ _ Hrun).
  unfold match_array. cbn [pos caps].
  replace (ngroups fileNameRegex) with 3%nat by reflexivity.
  cbn [seq List.map lookup_cap Nat.eqb option_map fst snd].
  f_equal. f_equal.
  - unfold n3, n2, n1. rewrite <- !length_app, <- !app_assoc.
    apply substring_all.
  - f_equal; [f_equal; apply substring_prefix|].
    f_equal; [f_equal; apply substring_middle|].
    f_equal. f_equal. unfold n3, n2, n1.
    rewrite <- length_app, app_assoc. apply substring_suffix.
Qed.

(** ** The file-command pattern *)

Lemma rmatch_Lits (s : string) (k : Cont) (cs : list (nat * (nat * nat))) :
  forall u i,
    rmatch (Lits s) (mkMState u i cs) k
    = if starts_with (str s) u
      then k (mkMState (skipn (List.length (str s)) u)
                (i + List.length (str s)) cs)
      else None.
Proof.
  unfold Lits, str. generalize (list_ascii_of_string s) as l.
  induction l as [|a l IH]; intros u i.
  - simpl. now rewrite Nat.add_0_r.
  - cbn [List.map seqs fold_right rmatch rest pos caps].
    destruct u as [|c u]; [reflexivity|].
    cbn [starts_with List.length skipn].
    destruct (N.eqb (N_of_ascii a) c); [|reflexivity].
    cbn [andb].
    fold (seqs (List.map (fun a0 : ascii => Chr (N.eqb (N_of_ascii a0))) l)).
    rewrite IH. now rewrite Nat.add_succ_r.
Qed.

Lemma rmatch_Lit (a : string) (c : char) (t : jsstring) (i : nat)
    (cs : list (nat * (nat * nat))) (k : Cont) :
  rmatch (Lit a) (mkMState (c :: t) i cs) k
  = if N.eqb (one a) c then k (mkMState t (S i) cs) else None.
Proof. reflexivity. Qed.

Lemma rmatch_Opt (r : regex) (x : MState) (k : Cont) :
  rmatch (Opt r) x k
  = or_else (rmatch r (clear_caps (groups r) x)
               (fun y => if Nat.eqb (pos y) (pos x) then None else k y))
            (k x).
Proof. reflexivity. Qed.

(** The argument part accepts optional whitespace and an open brace that
    is not closed before the end of the text. *)
Lemma openArgument_open (ws arg : jsstring) (i : nat)
    (cs : list (nat * (nat * nat))) (k : Cont) (z : MState) :
  all_space ws -> all_of not_rbrace arg ->
  k (mkMState [] (S (i + List.length ws) + List.length arg) cs) = Some z ->
  rmatch openArgument (mkMState (ws ++ [lbrace] ++ arg) i cs) k = Some z.
Proof.
  intros Hws Harg Hk. unfold openArgument, seqs. cbn [fold_right]. rx.
  rewrite rmatch_Spaces.
  apply greedy_run_some; [assumption | reflexivity |].
  unfold OptionalArgument. rewrite rmatch_Opt. unfold seqs.
  cbn [fold_right]. rx. drop_clear. cbn [app].
  rewrite rmatch_Lit. ev.
  rewrite (rmatch_Spaces (123%N :: arg)).
  change (123%N :: arg) with ([] ++ 123%N :: arg) at 1.
  apply greedy_run_some; [constructor | reflexivity |].
  cbn [List.length Nat.add]. rewrite Nat.add_0_r.
  rewrite rmatch_Lit. ev.
  rewrite rmatch_NotRbraces. rewrite <- (app_nil_r arg) at 1.
  apply greedy_run_some; [assumption | exact I |].
  cbn [rest]. exact Hk.
Qed.

Lemma or_else_some (a b : option MState) (z : MState) :
  a = Some z -> or_else a b = Some z.
Proof. now intros ->. Qed.

Lemma boundary_char (ws arg : jsstring) :
  all_space ws ->
  exists c0 u, ws ++ [lbrace] ++ arg = c0 :: u /\
               (is_space c0 = true \/ c0 = lbrace).
Proof.
  intros Hws. destruct Hws as [|c ws Hc _].
  - exists lbrace, arg. split; [reflexivity | now right].
  - exists c, (ws ++ [lbrace] ++ arg). split; [reflexivity | now left].
Qed.

Lemma boundary_neq (c0 n : char) :
  is_space c0 = true \/ c0 = lbrace ->
  is_space n = false -> N.eqb n lbrace = false -> N.eqb n c0 = false.
Proof.
  intros [Hs| ->] Hn Hl; [|assumption].
  destruct (N.eqb_spec n c0) as [->|]; [congruence | reflexivity].
Qed.

(** The capturing group takes exactly the command text when a whitespace
    or an open brace follows it. *)
Lemma fileCommands_command (cmd u : jsstring) (c0 : char) (i : nat)
    (cs : list (nat * (nat * nat))) (k : Cont) (z : MState) :
  command_text cmd ->
  is_space c0 = true \/ c0 = lbrace ->
  k (mkMState (c0 :: u) (i + List.length cmd) cs) = Some z ->
  rmatch fileCommands (mkMState (cmd ++ c0 :: u) i cs) k = Some z.
Proof.
  intros Hcmd Hc0 Hk.
  pose proof (@boundary_neq c0 109%N Hc0 eq_refl eq_refl) as Hm.
  pose proof (@boundary_neq c0 111%N Hc0 eq_refl eq_refl) as Ho.
  pose proof (@boundary_neq c0 103%N Hc0 eq_refl eq_refl) as Hg.
  unfold fileCommands, seqs. cbn [fold_right]. rx.
  destruct Hcmd as [->|[->|[->|[->|[->|[ws [lang [Hws [Hlang ->]]]]]]]]].
  - change (List.length (str "input")) with 5%nat in Hk.
    rewrite !rmatch_Lits. ev. rewrite Hm. ev. now rewrite Hk.
  - change (List.length (str "include")) with 7%nat in Hk.
    rewrite !rmatch_Lits. ev. drop_clear. cbn [pos].
    rewrite !rmatch_Lits. ev. rewrite Ho, Hg. ev. now rewrite Hk.
  - change (List.length (str "includeonly")) with 11%nat in Hk.
    rewrite !rmatch_Lits. ev. drop_clear. cbn [pos].
    rewrite !rmatch_Lits. ev. cbn [pos].
    replace (Nat.eqb (i + 7 + 4) (i + 7)) with false
      by (symmetry; apply Nat.eqb_neq; lia).
    replace (i + 7 + 4)%nat with (i + 11)%nat by lia. now rewrite Hk.
  - change (List.length (str "includegraphics")) with 15%nat in Hk.
    rewrite !rmatch_Lits. ev. drop_clear. cbn [pos].
    rewrite !rmatch_Lits. ev. cbn [pos].
    replace (Nat.eqb (i + 7 + 8) (i + 7)) with false
      by (symmetry; apply Nat.eqb_neq; lia).
    replace (i + 7 + 8)%nat with (i + 15)%nat by lia. now rewrite Hk.
  - change (List.length (str "addbibresource")) with 14%nat in Hk.
    rewrite !rmatch_Lits. ev. now rewrite Hk.
  - rewrite <- !app_assoc. rewrite rmatch_Lits. ev.
    apply or_else_some. rewrite rmatch_Spaces.
    apply greedy_run_some; [assumption | reflexivity |].
    rewrite rmatch_Lit. ev. rewrite rmatch_NotRbraces.
    apply greedy_run_some; [assumption | reflexivity |].
    rewrite rmatch_Lit. ev.
    rewrite !length_app in Hk. cbn [List.length] in Hk.
    change (List.length (str "inputminted")) with 11%nat in Hk.
    rewrite <- Hk. f_equal. f_equal. lia.
Qed.

Lemma fileRegex_needs_backslash (c : char) (t : jsstring) (i : nat) :
  c <> backslash -> rmatch fileRegex (mkMState (c :: t) i []) Some = None.
Proof.
  intros Hc. unfold fileRegex, seqs. cbn [fold_right]. rx.
  unfold Backslash. rx.
  destruct (N.eqb_spec backslash c); [congruence | reflexivity].
Qed.

Lemma search_fileRegex_skip (input pre s : jsstring) :
  ~ In backslash pre ->
  forall i, search_from fileRegex input (pre ++ s) i
            = search_from fileRegex input s (i + List.length pre).
Proof.
  induction pre as [|c pre IH]; intros Hpre i.
  - simpl. now rewrite Nat.add_0_r.
  - cbn [app]. rewrite search_from_skip.
    + rewrite IH by (intros H; apply Hpre; now right).
      cbn [List.length]. now rewrite Nat.add_succ_r.
    + apply fileRegex_needs_backslash. intros ->. apply Hpre. now left.
Qed.

(** On a line prefix ending in a command with an open brace the pattern
    matches from the backslash on and captures the command text. *)
Lemma fileRegex_command (pre cmd ws arg : jsstring) :
  ~ In backslash pre -> command_text cmd ->
  all_space ws -> all_of not_rbrace arg ->
  regex_match (pre ++ [backslash] ++ cmd ++ ws ++ [lbrace] ++ arg) fileRegex
  = Some (mkMatchArray ([backslash] ++ cmd ++ ws ++ [lbrace] ++ arg)
            [Some cmd]).
Proof.
  intros Hpre Hcmd Hws Harg.
  set (m := [backslash] ++ cmd ++ ws ++ [lbrace] ++ arg).
  set (n0 := List.length pre). set (n1 := (S n0 + List.length cmd)%nat).
  set (n2 := (S (n1 + List.length ws) + List.length arg)%nat).
  assert (Hrun : rmatch fileRegex (mkMState m n0 []) Some
                 = Some (mkMState [] n2 [(1, (S n0, n1))]%nat)).
  { unfold m, fileRegex, seqs. cbn [fold_right app]. rx. unfold Backslash. rx.
    rewrite N.eqb_refl.
    destruct (boundary_char arg Hws) as [c0 [u [Hu Hc0]]].
    cbn [app] in Hu. rewrite Hu.
    apply fileCommands_command; [assumption | assumption |].
    rx. rewrite <- Hu.
    apply openArgument_open; [assumption | assumption | reflexivity]. }
  unfold regex_match. rewrite search_fileRegex_skip by assumption.
  fold m. change (0 + List.length pre)%nat with n0.
  rewrite (@search_from_hit _ (pre ++ m) _ _ _ Hrun).
  unfold match_array. cbn [pos caps].
  replace (ngroups fileRegex) with 1%nat by reflexivity.
  cbn [seq List.map lookup_cap Nat.eqb option_map fst snd].
  f_equal. f_equal.
  - replace n2 with (n0 + List.length m)%nat.
    + apply substring_suffix.
    + unfold n2, n1, n0, m. rewrite !length_app. simpl. lia.
  - f_equal. f_equal. unfold m, n1, n0.
    replace (pre ++ [backslash] ++ cmd ++ ws ++ [lbrace] ++ arg)
      with ((pre ++ [backslash]) ++ cmd ++ (ws ++ [lbrace] ++ arg))
      by (now rewrite <- !app_assoc).
    replace (S (List.length pre)) with (List.length (pre ++ [backslash]))
      by (rewrite length_app; simpl; lia).
    apply substring_middle.
Qed.

Lemma open_command_file_command (context : Context) (cmd : jsstring) :
  open_command (slice (line context) 0 (index context)) cmd ->
  command_text cmd -> file_command context = Some cmd.
Proof.
  intros [pre [ws [arg [Hprefix [Hpre [Hws Harg]]]]]] Hcmd.
  unfold file_command. rewrite Hprefix.
  now rewrite fileRegex_command.
Qed.

(** ** Slices and searches in concatenations *)

Lemma charAt_app_l (a b : jsstring) (i : Z) :
  i < len a -> charAt (a ++ b) i = charAt a i.
Proof.
  intros H. unfold charAt. destruct (Z.ltb_spec i 0); [reflexivity|].
  apply nth_error_app1. unfold len in H. lia.
Qed.

Lemma charAt_app_r (a b : jsstring) (i : Z) :
  len a <= i -> charAt (a ++ b) i = charAt b (i - len a).
Proof.
  intros H. pose proof (len_nonneg a). unfold charAt.
  destruct (Z.ltb_spec i 0); [lia|].
  destruct (Z.ltb_spec (i - len a) 0); [lia|].
  rewrite nth_error_app2 by (unfold len in H; lia).
  f_equal. unfold len. lia.
Qed.

Lemma charAt_not_in (s : jsstring) (i : Z) (c : char) :
  ~ In c s -> charAt s i <> Some c.
Proof. intros Hn Hc. apply Hn. eapply charAt_in. eassumption. Qed.

Lemma slice_middle (a b c : jsstring) :
  slice (a ++ b ++ c) (len a) (len a + len b) = b.
Proof.
  pose proof (len_nonneg a). pose proof (len_nonneg b).
  pose proof (len_nonneg c).
  unfold slice, rel_index. rewrite !len_app.
  destruct (Z.ltb_spec (len a) 0); [lia|].
  destruct (Z.ltb_spec (len a + len b) 0); [lia|].
  rewrite (Z.min_l (len a + len b)) by lia. rewrite (Z.min_l (len a)) by lia.
  replace (Z.to_nat (len a)) with (List.length a) by (unfold len; lia).
  replace (Z.to_nat (len a + len b - len a)) with (List.length b)
    by (unfold len; lia).
  pose proof (substring_middle a b c) as Hs. unfold substring in Hs.
  replace (List.length a + List.length b - List.length a)%nat
    with (List.length b) in Hs by lia.
  exact Hs.
Qed.

Lemma slice_prefix (a b : jsstring) : slice (a ++ b) 0 (len a) = a.
Proof. apply (slice_middle [] a b). Qed.

(** ** The comma-delimited segment around an offset *)

Section Segment.

Variables (v pre seg post : jsstring) (k : Z).
Hypothesis Hseg : segment_at v k pre seg post.

Lemma segment_charAt_seg (i : Z) :
  len pre <= i < len pre + len seg -> charAt v i <> Some comma.
Proof.
  destruct Hseg as [-> [_ [_ [Hno _]]]]. intros Hi.
  rewrite charAt_app_r by lia. rewrite charAt_app_l by lia.
  now apply charAt_not_in.
Qed.

Lemma segment_charAt_before (p : jsstring) :
  pre = p ++ [comma] -> charAt v (len pre - 1) = Some comma.
Proof.
  destruct Hseg as [-> _]. intros ->.
  pose proof (len_nonneg p). rewrite len_app.
  change (len [comma]) with 1.
  rewrite charAt_app_l
    by (rewrite len_app; change (len [comma]) with 1; lia).
  rewrite charAt_app_r by lia.
  replace (len p + 1 - 1 - len p) with 0 by lia. reflexivity.
Qed.

Lemma segment_charAt_after (q : jsstring) :
  post = comma :: q -> charAt v (len pre + len seg) = Some comma.
Proof.
  destruct Hseg as [-> _]. intros ->.
  pose proof (len_nonneg pre). pose proof (len_nonneg seg).
  rewrite charAt_app_r by lia. rewrite charAt_app_r by lia.
  replace (len pre + len seg - len pre - len seg) with 0 by lia. reflexivity.
Qed.

Lemma segment_charAt_end (i : Z) :
  post = [] -> len pre + len seg <= i -> charAt v i <> Some comma.
Proof.
  destruct Hseg as [-> _]. intros -> Hi.
  rewrite charAt_beyond; [discriminate|].
  rewrite !len_app. change (len []) with 0. lia.
Qed.

(** A comma closes [pre]: the backward search finds it. *)
Lemma segment_lastIndexOf_comma (p : jsstring) :
  pre = p ++ [comma] -> lastIndexOf comma v (k - 1) = len pre - 1.
Proof.
  intros Hpre. pose proof (segment_charAt_before p Hpre) as Hc.
  assert (Hk : len pre <= k <= len pre + len seg) by apply Hseg.
  assert (Hp : 1 <= len pre).
  { rewrite Hpre, len_app. pose proof (len_nonneg p).
    change (len [comma]) with 1. lia. }
  destruct (lastIndexOf_cases comma v (k - 1)) as [[_ Hno]|[Hr [Hrc Hmax]]].
  - exfalso. apply (Hno (len pre - 1)); [lia | assumption].
  - set (r := lastIndexOf comma v (k - 1)) in *.
    assert (~ r < len pre - 1).
    { intros Hlt. apply (Hmax (len pre - 1)); [lia | assumption]. }
    assert (~ len pre <= r).
    { intros Hge. apply (@segment_charAt_seg r); [lia | assumption]. }
    lia.
Qed.

(** Nothing precedes the segment: the backward search finds nothing,
    unless the segment is empty and the value starts with a comma, which
    the search clamped to index 0 then finds. *)
Lemma segment_lastIndexOf_start :
  pre = [] ->
  (seg <> [] \/ post = [] -> lastIndexOf comma v (k - 1) = -1) /\
  (seg = [] -> forall q, post = comma :: q ->
     lastIndexOf comma v (k - 1) = 0).
Proof.
  intros Hpre.
  assert (Hk : len pre <= k <= len pre + len seg) by apply Hseg.
  rewrite Hpre in Hk. change (len []) with 0 in Hk.
  split.
  - intros Hcase.
    destruct (lastIndexOf_cases comma v (k - 1)) as [[Hr _]|[Hr [Hrc _]]];
      [assumption|].
    exfalso. set (r := lastIndexOf comma v (k - 1)) in *.
    destruct Hcase as [Hne|Hpost].
    + assert (0 < len seg).
      { destruct seg; [congruence|]. rewrite len_cons.
        pose proof (len_nonneg j). lia. }
      apply (@segment_charAt_seg r); [|assumption].
      rewrite Hpre. change (len []) with 0. lia.
    + apply (@segment_charAt_end r Hpost); [|assumption].
      rewrite Hpre. change (len []) with 0.
      destruct (Z_le_gt_dec (len seg) r); [assumption|].
      exfalso. apply (@segment_charAt_seg r); [|assumption].
      rewrite Hpre. change (len []) with 0. lia.
  - intros Hnil q Hpost.
    pose proof (segment_charAt_after Hpost) as Hc.
    rewrite Hpre, Hnil in Hc. change (len []) with 0 in Hc. simpl in Hc.
    rewrite Hnil in Hk. change (len []) with 0 in Hk.
    destruct (lastIndexOf_cases comma v (k - 1)) as [[_ Hno]|[Hr _]].
    + exfalso. apply (Hno 0); [lia | assumption].
    + lia.
Qed.

Lemma segment_indexOf_comma (q : jsstring) :
  post = comma :: q -> indexOf comma v k = len pre + len seg.
Proof.
  intros Hpost. pose proof (segment_charAt_after Hpost) as Hc.
  assert (Hk : len pre <= k <= len pre + len seg) by apply Hseg.
  pose proof (len_nonneg pre).
  destruct (indexOf_cases comma v k) as [[_ Hno]|[Hr [Hrc Hmin]]].
  - exfalso. apply (Hno (len pre + len seg)); [lia | assumption].
  - set (r := indexOf comma v k) in *.
    assert (~ len pre + len seg < r).
    { intros Hlt. apply (Hmin (len pre + len seg)); [lia | assumption]. }
    assert (~ r < len pre + len seg).
    { intros Hlt. apply (@segment_charAt_seg r); [lia | assumption]. }
    lia.
Qed.

Lemma segment_indexOf_end : post = [] -> indexOf comma v k = -1.
Proof.
  intros Hpost.
  assert (Hk : len pre <= k <= len pre + len seg) by apply Hseg.
  pose proof (len_nonneg pre).
  destruct (indexOf_cases comma v k) as [[Hr _]|[Hr [Hrc _]]]; [assumption|].
  exfalso. set (r := indexOf comma v k) in *.
  destruct (Z_le_gt_dec (len pre + len seg) r).
  - apply (@segment_charAt_end r Hpost); assumption.
  - apply (@segment_charAt_seg r); [lia | assumption].
Qed.

End Segment.

(** ** [isFilePath] *)

Lemma jsstring_eqb_spec (a b : jsstring) :
  jsstring_eqb a b = true <-> a = b.
Proof.
  revert b. induction a as [|x a IH]; intros [|y b]; simpl;
    try (split; [discriminate | congruence]); [tauto|].
  rewrite andb_true_iff, N.eqb_eq, IH. split.
  - intros [-> ->]. reflexivity.
  - intros H. injection H as -> ->. now split.
Qed.

Lemma strict_eq_iff (v : option jsstring) (s : string) :
  strict_eq v s = true <-> v = Some (str s).
Proof.
  destruct v as [a|]; simpl.
  - rewrite jsstring_eqb_spec. split; congruence.
  - split; discriminate.
Qed.

Lemma strict_eq_false (v : option jsstring) (s : string) :
  v <> Some (str s) -> strict_eq v s = false.
Proof.
  intros H. destruct (strict_eq v s) eqn:E; [|reflexivity].
  apply strict_eq_iff in E. contradiction.
Qed.

(** The name pattern always matches a text whose trimmed body holds no
    line terminator, and splits it into leading whitespace, body and
    trailing whitespace. *)
Lemma fileNameRegex_trim (s : jsstring) :
  single_line (trim s) ->
  regex_match s fileNameRegex
  = Some (mkMatchArray s [Some (leading_space s); Some (trim s);
                          Some (trailing_space s)]).
Proof.
  intros Hline.
  pose proof (@fileNameRegex_parts (leading_space s) (trim s)
                (trailing_space s) (leading_space_all s)
                (trailing_space_all s) Hline (trim_stops s)
                (@trim_suffix_nonspace s)) as H.
  now rewrite <- (trim_split s) in H.
Qed.

(** What the shared tail of the two trimming branches returns. *)
Lemma trimmed_name_spec (point : Point) (idx : Z) (cmd : option jsstring)
    (text : jsstring) (from to : Z) :
  single_line (trim text) ->
  trimmed_name point idx cmd text from to
  = Return
      (if (idx <? from + len (leading_space text))
          || (idx >? to - len (trailing_space text))
       then None
       else Some (mkFileResult cmd
                    (mkRange
                       (mkPoint (row point) (from + len (leading_space text)))
                       (mkPoint (row point) (to - len (trailing_space text))))
                    (Some (trim text)))).
Proof.
  intros Hline. unfold trimmed_name.
  rewrite (fileNameRegex_trim text Hline). cbn [capture captures nth].
  destruct (Z.ltb_spec idx (from + len (leading_space text)));
    [reflexivity|].
  destruct (Z.gtb_spec idx (to - len (trailing_space text)));
    [reflexivity|].
  cbn [orb]. now rewrite Range_new_ordered by lia.
Qed.

Section FilePath.

Variable editor : Editor.
Variable point : Point.
Variable context : Context.

Lemma isFilePath_input_branch :
  file_command context = Some (str "input") ->
  isFilePath editor point context
  = trimmed_name point (index context) (Some (str "input"))
      (value context) (startIndex context) (endIndex context).
Proof.
  unfold file_command, isFilePath. cbv zeta.
  destruct (regex_match _ fileRegex) as [m|]; [|discriminate].
  intros ->. reflexivity.
Qed.

Lemma isFilePath_include_branch :
  file_command context = Some (str "include") \/
  file_command context = Some (str "includeonly") ->
  isFilePath editor point context
  = if sectionEnd context - sectionStart context <? 1 then Return None
    else trimmed_name point (index context) (file_command context)
           (slice (line context) (sectionStart context) (sectionEnd context))
           (sectionStart context) (sectionEnd context).
Proof.
  unfold file_command, isFilePath, sectionStart, sectionEnd. cbv zeta.
  destruct (regex_match _ fileRegex) as [m|]; [|intros [H|H]; discriminate].
  intros [-> | ->]; reflexivity.
Qed.

Lemma isFilePath_other_branch (cmd : option jsstring) :
  (exists m, regex_match (slice (line context) 0 (index context)) fileRegex
             = Some m /\ capture m 1 = cmd) ->
  cmd <> Some (str "input") -> cmd <> Some (str "include") ->
  cmd <> Some (str "includeonly") ->
  isFilePath editor point context
  = Return (Some (mkFileResult cmd (range context) (Some (value context)))).
Proof.
  intros [m [Hm Hc]] H1 H2 H3. unfold isFilePath. cbv zeta.
  rewrite Hm, Hc.
  rewrite (strict_eq_false _ H1), (strict_eq_false _ H2),
    (strict_eq_false _ H3).
  cbn [orb]. destruct (strict_eq cmd "includegraphics"); reflexivity.
Qed.

Lemma isFilePath_no_match :
  regex_match (slice (line context) 0 (index context)) fileRegex = None ->
  isFilePath editor point context = Return None.
Proof. unfold isFilePath. cbv zeta. now intros ->. Qed.

End FilePath.

(** C4 (as amended). When the file pattern, found from the left in the
    line up to the cursor, captures the command [input] (as it does when
    the first backslash before the cursor starts [\input], optional
    whitespace and an unclosed brace), the value of the context is the
    brace argument (the text of the line between its two offsets) and no
    line terminator occurs inside its trimmed text, [isFilePath] measures
    the leading and trailing whitespace of the brace argument, returns
    [false] when the cursor is outside the trimmed span and otherwise the
    command [input], the trimmed span and the trimmed path.  On
    [\input{ path/to/file }] every cursor inside [path/to/file] yields the
    path [path/to/file]. *)
Theorem isFilePath_input :
  input_claim captures_input
  /\ (forall context,
        open_command (slice (line context) 0 (index context)) (str "input") ->
        captures_input context)
  /\ (forall editor point context,
        line context = str "\input{ path/to/file }" ->
        value context = str " path/to/file " ->
        startIndex context = 7 -> endIndex context = 21 ->
        8 <= index context <= 20 ->
        isFilePath editor point context
        = Return (Some (mkFileResult (Some (str "input"))
                          (mkRange (mkPoint (row point) 8)
                                   (mkPoint (row point) 20))
                          (Some (str "path/to/file"))))).
Proof.
  assert (Hgen : input_claim captures_input).
  { intros editor point context Hcmd _ Hline. unfold trimmed_input_result.
    rewrite (isFilePath_input_branch editor point context Hcmd).
    now apply trimmed_name_spec. }
  split; [exact Hgen|].
  split; [intros context Hopen; apply open_command_file_command;
          [exact Hopen | now left]|].
  intros editor point [l idx v rg si ei sc].
  cbn [line value startIndex endIndex index].
  intros -> -> -> -> Hidx.
  assert (Hcases : idx = 8 \/ idx = 9 \/ idx = 10 \/ idx = 11 \/ idx = 12 \/
                   idx = 13 \/ idx = 14 \/ idx = 15 \/ idx = 16 \/ idx = 17 \/
                   idx = 18 \/ idx = 19 \/ idx = 20) by lia.
  assert (Hline : single_line (trim (str " path/to/file "))).
  { vm_compute. repeat constructor. }
  assert (Hat : forall i,
            value_at (mkContext (str "\input{ path/to/file }") i
                        (str " path/to/file ") rg 7 21 sc)).
  { intros i. exists (str "\input{"), (str "}"). now repeat split. }
  repeat (destruct Hcases as [-> | Hcases]);
    try subst idx;
    (rewrite Hgen;
     [reflexivity | vm_compute; reflexivity | apply Hat | exact Hline]).
Qed.

Lemma isFilePath_input_witness :
  captures_input input_context /\
  value_at input_context /\
  single_line (trim (value input_context)) /\
  isFilePath (buffer_editor []) (mkPoint 0 8) input_context
  = Return (Some (mkFileResult (Some (str "input"))
                    (mkRange (mkPoint 0 8) (mkPoint 0 9))
                    (Some (str "a")))).
Proof.
  assert (Hcmd : captures_input input_context).
  { vm_compute. reflexivity. }
  assert (Hat : value_at input_context).
  { exists (str "\input{"), (str "}"). now repeat split. }
  assert (Hline : single_line (trim (value input_context))).
  { vm_compute. repeat constructor. }
  split; [exact Hcmd|]. split; [exact Hat|]. split; [exact Hline|].
  exact (proj1 isFilePath_input (buffer_editor []) (mkPoint 0 8)
           input_context Hcmd Hat Hline).
Defined.

(** Inside the unclosed brace of [\includegraphics] the text before the
    cursor ends in [\input] and an unclosed brace, yet the pattern is found
    at the first backslash: the command is [includegraphics] and the value
    comes back untrimmed.  The claim read on the end of the text before the
    cursor does not hold. *)
Lemma input_claim_counterexample : ~ input_claim ends_in_input.
Proof.
  intros H.
  assert (Hends : ends_in_input nested_input_context).
  { exists (str "\includegraphics{"), [], (str " ").
    split; [reflexivity|]. split; repeat constructor. }
  assert (Hat : value_at nested_input_context).
  { exists (str "\includegraphics{\input{"), (str "}}"). now repeat split. }
  assert (Hline : single_line (trim (value nested_input_context))).
  { vm_compute. repeat constructor. }
  specialize (H (buffer_editor []) (mkPoint 0 25) nested_input_context
                Hends Hat Hline).
  vm_compute in H. discriminate H.
Qed.

(** The bounds the [\include] branch computes for the segment around the
    cursor. *)
Lemma include_section_bounds (v pre seg post : jsstring) (si ei idx : Z) :
  segment_at v (idx - si) pre seg post -> ei = si + len v ->
  let s := si + lastIndexOf comma v (idx - si - 1) in
  let e := si + indexOf comma v (idx - si) in
  let sectionStart := if s <? si then si else s + 1 in
  let sectionEnd := if e <? si then ei else e in
  (seg <> [] -> sectionStart = si + len pre /\
                sectionEnd = si + len pre + len seg) /\
  (seg = [] -> sectionEnd - sectionStart < 1).
Proof.
  intros Hseg Hei. cbv zeta.
  pose proof (len_nonneg pre) as Hlp. pose proof (len_nonneg seg) as Hls.
  assert (Hv : len v = len pre + len seg + len post).
  { pose proof Hseg as [Hval _]. rewrite Hval, !len_app. lia. }
  assert (HE : (if si + indexOf comma v (idx - si) <? si then ei
                else si + indexOf comma v (idx - si))
               = si + len pre + len seg).
  { pose proof Hseg as [_ [_ [Hpost _]]]. destruct Hpost as [Hpost|[q Hpost]].
    - rewrite (segment_indexOf_end Hseg Hpost).
      destruct (Z.ltb_spec (si + -1) si); [|lia].
      rewrite Hei, Hv, Hpost. change (len []) with 0. lia.
    - rewrite (segment_indexOf_comma Hseg Hpost).
      destruct (Z.ltb_spec (si + (len pre + len seg)) si); lia. }
  rewrite HE.
  pose proof Hseg as [Hval [Hpre Hrest]].
  destruct Hpre as [Hpre|[p Hpre]].
  - assert (Hlp0 : len pre = 0) by (rewrite Hpre; reflexivity).
    destruct (segment_lastIndexOf_start Hseg Hpre) as [Hnone Hquirk].
    split.
    + intros Hne. rewrite (Hnone (or_introl Hne)).
      destruct (Z.ltb_spec (si + -1) si); lia.
    + intros Hnil. assert (Hls0 : len seg = 0) by (rewrite Hnil; reflexivity).
      destruct Hrest as [[Hpost|[q Hpost]] _].
      * rewrite (Hnone (or_intror Hpost)).
        destruct (Z.ltb_spec (si + -1) si); lia.
      * rewrite (Hquirk Hnil q Hpost).
        destruct (Z.ltb_spec (si + 0) si); lia.
  - assert (Hlp1 : 1 <= len pre).
    { rewrite Hpre, len_app. pose proof (len_nonneg p).
      change (len [comma]) with 1. lia. }
    rewrite (segment_lastIndexOf_comma Hseg p Hpre).
    destruct (Z.ltb_spec (si + (len pre - 1)) si); [lia|].
    split.
    + intros _. lia.
    + intros Hnil. assert (Hls0 : len seg = 0) by (rewrite Hnil; reflexivity).
      lia.
Qed.

Lemma isFilePath_include_general (editor : Editor) (point : Point)
    (context : Context) (pre seg post : jsstring) :
  file_command context = Some (str "include") \/
  file_command context = Some (str "includeonly") ->
  value_at context ->
  segment_at (value context) (index context - startIndex context)
    pre seg post ->
  single_line (trim seg) ->
  isFilePath editor point context
  = Return
      (if (len seg <? 1)
          || (index context
              <? startIndex context + len pre + len (leading_space seg))
          || (index context
              >? startIndex context + len pre + len seg
                 - len (trailing_space seg))
       then None
       else Some (mkFileResult (file_command context)
                    (mkRange
                       (mkPoint (row point)
                          (startIndex context + len pre
                           + len (leading_space seg)))
                       (mkPoint (row point)
                          (startIndex context + len pre + len seg
                           - len (trailing_space seg))))
                    (Some (trim seg)))).
Proof.
  intros Hcmd [before [after [Hl [Hsi Hei]]]] Hseg Hline.
  rewrite (isFilePath_include_branch editor point context Hcmd).
  unfold sectionStart, sectionEnd. cbv zeta.
  destruct (@include_section_bounds _ _ _ _ _ _ (index context) Hseg Hei)
    as [Hne Hnil].
  cbv zeta in Hne, Hnil.
  destruct seg as [|c seg'] eqn:Eseg.
  - specialize (Hnil eq_refl). change (len [] <? 1) with true. cbn [orb].
    match goal with
    | |- (if ?b then _ else _) = _ => destruct b eqn:Hb
    end; [reflexivity|].
    apply Z.ltb_ge in Hb. lia.
  - rewrite <- Eseg in *. clear Hnil.
    assert (Hsegne : seg <> []) by (rewrite Eseg; discriminate).
    destruct (Hne Hsegne) as [HS HE]. rewrite HS, HE.
    assert (Hlen : 1 <= len seg).
    { rewrite Eseg, len_cons. pose proof (len_nonneg seg'). lia. }
    destruct (Z.ltb_spec (startIndex context + len pre + len seg
                          - (startIndex context + len pre)) 1); [lia|].
    destruct (Z.ltb_spec (len seg) 1); [lia|]. cbn [orb].
    assert (Hslice : slice (line context) (startIndex context + len pre)
                       (startIndex context + len pre + len seg) = seg).
    { rewrite Hl. destruct Hseg as [-> _]. rewrite Hsi.
      replace (before ++ (pre ++ seg ++ post) ++ after)
        with ((before ++ pre) ++ seg ++ (post ++ after))
        by (now rewrite <- !app_assoc).
      rewrite <- len_app. apply slice_middle. }
    rewrite Hslice. now apply trimmed_name_spec.
Qed.

Lemma take_drop_while_app (p : char -> bool) (a t : jsstring) :
  all_of p a -> stops p t ->
  take_while p (a ++ t) = a /\ drop_while p (a ++ t) = t.
Proof.
  intros Ha Ht. induction Ha as [|c a Hc _ IH]; simpl.
  - destruct t as [|c t]; [now split|]. simpl in *. rewrite Ht. now split.
  - rewrite Hc. destruct IH as [-> ->]. now split.
Qed.

(** Whitespace around a body that starts and ends with other characters
    is exactly what trimming removes. *)
Lemma trim_parts (lead body trail : jsstring) :
  all_space lead -> all_space trail -> body <> [] ->
  stops is_space body -> stops is_space (rev body) ->
  leading_space (lead ++ body ++ trail) = lead /\
  trim (lead ++ body ++ trail) = body /\
  trailing_space (lead ++ body ++ trail) = trail.
Proof.
  intros Hlead Htrail Hne Hfirst Hlast.
  assert (Hstop : stops is_space (body ++ trail)).
  { destruct body; [congruence | exact Hfirst]. }
  destruct (take_drop_while_app (body ++ trail) Hlead Hstop) as [Ht Hdr].
  destruct (take_drop_while_app (rev body) (all_of_rev Htrail) Hlast)
    as [Ht' Hdr'].
  unfold leading_space, trim, trailing_space, trim_start.
  rewrite Ht, Hdr, rev_app_distr, Ht', Hdr'.
  now rewrite !rev_involutive.
Qed.

Lemma all_space_not (s : jsstring) (c : char) :
  all_space s -> is_space c = false -> ~ In c s.
Proof.
  intros Hs Hc Hin. unfold all_space, all_of in Hs.
  rewrite Forall_forall in Hs. specialize (Hs c Hin). congruence.
Qed.

Lemma all_space_other (p : char -> bool) (s : jsstring) :
  (forall c, is_space c = true -> p c = true) ->
  all_space s -> all_of p s.
Proof.
  intros Hp Hs. unfold all_space, all_of in *.
  eapply Forall_impl; [|exact Hs]. exact Hp.
Qed.

Lemma space_not_rbrace (c : char) : is_space c = true -> not_rbrace c = true.
Proof.
  intros Hc. unfold not_rbrace.
  destruct (N.eqb_spec c rbrace) as [->|]; [discriminate | reflexivity].
Qed.

Lemma all_of_app (p : char -> bool) (a b : jsstring) :
  all_of p a -> all_of p b -> all_of p (a ++ b).
Proof. unfold all_of. intros. apply Forall_app. now split. Qed.



(** ** The ranges returned *)

Lemma span_inv_Range_new (r a b : Z) :
  span_inv r (Range_new (mkPoint r a) (mkPoint r b)).
Proof.
  unfold Range_new, point_leb, span_inv. cbn [row column].
  rewrite Z.ltb_irrefl, Z.eqb_refl. cbn [orb andb].
  destruct (Z.leb_spec a b); cbn [range_start range_end row column];
    repeat split; lia.
Qed.

Lemma trimmed_name_result (point : Point) (idx : Z) (cmd : option jsstring)
    (text : jsstring) (from to : Z) (r : FileResult) :
  trimmed_name point idx cmd text from to = Return (Some r) ->
  command r = cmd /\ span_inv (row point) (fr_range r) /\
  column (range_start (fr_range r)) <= idx <= column (range_end (fr_range r)).
Proof.
  unfold trimmed_name.
  destruct (regex_match text fileNameRegex) as [m|]; [|discriminate].
  destruct (capture m 1) as [g1|]; [|discriminate].
  destruct (capture m 3) as [g3|]; [|discriminate].
  destruct (Z.ltb_spec idx (from + len g1)); [discriminate|].
  destruct (Z.gtb_spec idx (to - len g3)); [discriminate|].
  cbn [orb]. intros Heq. injection Heq as Hr. subst r.
  cbn [command fr_range].
  split; [reflexivity|]. split; [apply span_inv_Range_new|].
  rewrite Range_new_ordered by lia. cbn [range_start range_end column]. lia.
Qed.

Lemma isFilePath_range (editor : Editor) (point : Point) (context : Context)
    (r : FileResult) :
  isFilePath editor point context = Return (Some r) ->
  if builds_range (command r) then span_inv (row point) (fr_range r)
  else fr_range r = range context.
Proof.
  unfold isFilePath. cbv zeta.
  destruct (regex_match _ fileRegex) as [m|]; [|discriminate].
  unfold builds_range. generalize (capture m 1). intros c.
  destruct (strict_eq c "input") eqn:E1.
  - intros H. apply trimmed_name_result in H. destruct H as [Hc [H _]].
    now rewrite Hc, E1.
  - destruct (strict_eq c "include" || strict_eq c "includeonly") eqn:E2.
    + match goal with
      | |- (if ?b then _ else _) = _ -> _ => destruct b
      end; [discriminate|].
      intros H. apply trimmed_name_result in H. destruct H as [Hc [H _]].
      rewrite Hc, E1. cbn [orb]. now rewrite E2.
    + destruct (strict_eq c "includegraphics");
        intros H; injection H as Hq; subst r; cbn [command fr_range];
        rewrite E1; cbn [orb]; rewrite E2; reflexivity.
Qed.

(** C8 (as amended). Every range built by a classifier lies on the row of
    the cursor with its start column at most its end column: the ranges of
    [isMagicFilePath] and [getBraceContents], and those [isFilePath]
    returns for [input], [include] and [includeonly].  For every other
    command [isFilePath] returns the range of the context record itself,
    unchanged. *)
Theorem returned_ranges :
  (forall editor point context r,
     isMagicFilePath editor point context = Some r ->
     span_inv (row point) (fr_range r))
  /\ (forall editor point context r,
        isFilePath editor point context = Return (Some r) ->
        if builds_range (command r) then span_inv (row point) (fr_range r)
        else fr_range r = range context)
  /\ (forall editor point context r,
        getBraceContents editor point context = Some r ->
        span_inv (row point) (bc_range r)).
Proof.
  split; [|split].
  - intros editor point context r. unfold isMagicFilePath. cbv zeta.
    destruct (regex_match _ magicFileRegex) as [m|]; [|discriminate].
    destruct (index context <? len (whole m)); [discriminate|].
    intros H. injection H as Hr. subst r. apply span_inv_Range_new.
  - exact isFilePath_range.
  - intros editor point context r H.
    destruct (getBraceContents_cases editor point context)
      as [[Hnull _]|[s [e [Henc Hsome]]]]; [congruence|].
    rewrite Hsome in H. injection H as Hr. subst r.
    unfold found_contents, inner_range.
    cbn [bc_range]. destruct Henc as [Hse _].
    repeat split; cbn [range_start range_end row column]; lia.
Qed.

Lemma returned_ranges_witness :
  isFilePath (buffer_editor []) (mkPoint 0 8) input_context
  = Return (Some (mkFileResult (Some (str "input"))
                    (mkRange (mkPoint 0 8) (mkPoint 0 9))
                    (Some (str "a")))) /\
  span_inv 0 (mkRange (mkPoint 0 8) (mkPoint 0 9)).
Proof.
  assert (H : isFilePath (buffer_editor []) (mkPoint 0 8) input_context
              = Return (Some (mkFileResult (Some (str "input"))
                                (mkRange (mkPoint 0 8) (mkPoint 0 9))
                                (Some (str "a"))))).
  { vm_compute. reflexivity. }
  split; [exact H|].
  exact (proj1 (proj2 returned_ranges) _ _ _ _ H).
Defined.

(** For [\includegraphics] the returned range is the context's, here on
    another row than the cursor: the invariant as claimed of every returned
    range does not hold. *)
Lemma span_claim_counterexample : ~ span_claim_as_stated.
Proof.
  intros [_ [H _]].
  assert (Hres : isFilePath (buffer_editor []) (mkPoint 0 18)
                   other_row_context
                 = Return (Some (mkFileResult (Some (str "includegraphics"))
                                   (mkRange (mkPoint 1 0) (mkPoint 1 4))
                                   (Some (str "a"))))).
  { vm_compute. reflexivity. }
  destruct (H _ _ _ _ Hres) as [Hrow _]. discriminate.
Qed.

(** ** Exceptions *)

(** C7 (failing input). On a line holding the line separator U+2028 inside
    the argument of [\input] or [\include], the name pattern does not
    match (its dot excludes line terminators) and reading the first group
    of the [null] match raises. *)
Theorem isFilePath_throws :
  isFilePath (buffer_editor [line separator_context]) (mkPoint 0 8)
    separator_context = Throw
  /\ isFilePath (buffer_editor [line separator_include_context])
       (mkPoint 0 10) separator_include_context = Throw
  /\ regex_match separator_value fileNameRegex = None.
Proof. vm_compute. repeat split. Qed.

Lemma all_of_firstn (p : char -> bool) (s : jsstring) (n : nat) :
  all_of p s -> all_of p (firstn n s).
Proof.
  intros H. revert n. induction H as [|c s Hc _ IH]; intros [|n]; simpl;
    try constructor; auto. apply IH.
Qed.

Lemma all_of_skipn (p : char -> bool) (s : jsstring) (n : nat) :
  all_of p s -> all_of p (skipn n s).
Proof.
  intros H. revert n. induction H as [|c s Hc Hs IH]; intros [|n]; simpl;
    try constructor; auto.
Qed.

Lemma all_of_slice (p : char -> bool) (s : jsstring) (a b : Z) :
  all_of p s -> all_of p (slice s a b).
Proof. intros H. unfold slice. now apply all_of_firstn, all_of_skipn. Qed.

Lemma all_of_drop_while (p q : char -> bool) (s : jsstring) :
  all_of q s -> all_of q (drop_while p s).
Proof.
  intros H. induction H as [|c s Hc Hs IH]; simpl; [constructor|].
  destruct (p c); [assumption | now constructor].
Qed.

Lemma all_of_trim (q : char -> bool) (s : jsstring) :
  all_of q s -> all_of q (trim s).
Proof.
  intros H. unfold trim, trim_start.
  now apply all_of_rev, all_of_drop_while, all_of_rev, all_of_drop_while.
Qed.

(** The name pattern fails only on a text with a line terminator inside
    its trimmed body. *)
Lemma fileNameRegex_null (s : jsstring) :
  regex_match s fileNameRegex = None -> ~ single_line (trim s).
Proof.
  intros Hnull Hline. rewrite (fileNameRegex_trim s Hline) in Hnull.
  discriminate.
Qed.

(** X7. Without line terminators in the line and in the value,
    [isFilePath] returns: it raises only through the name pattern failing
    to match. *)
Lemma isFilePath_returns (editor : Editor) (point : Point)
    (context : Context) :
  single_line (line context) -> single_line (value context) ->
  exists r, isFilePath editor point context = Return r.
Proof.
  intros Hl Hv. unfold isFilePath. cbv zeta.
  destruct (regex_match _ fileRegex) as [m|]; [|now eexists].
  destruct (strict_eq (capture m 1) "input").
  - rewrite trimmed_name_spec by now apply all_of_trim. now eexists.
  - destruct (strict_eq (capture m 1) "include"
              || strict_eq (capture m 1) "includeonly").
    + match goal with
      | |- exists r, (if ?b then _ else _) = _ => destruct b
      end; [now eexists|].
      rewrite trimmed_name_spec by now apply all_of_trim, all_of_slice.
      now eexists.
    + destruct (strict_eq (capture m 1) "includegraphics"); now eexists.
Qed.

Lemma isFilePath_returns_witness :
  single_line (line include_context) /\
  single_line (value include_context) /\
  exists r, isFilePath (buffer_editor []) (mkPoint 0 12) include_context
            = Return r.
Proof.
  assert (Hl : single_line (line include_context)) by repeat constructor.
  assert (Hv : single_line (value include_context)) by repeat constructor.
  split; [exact Hl|]. split; [exact Hv|].
  exact (@isFilePath_returns (buffer_editor []) (mkPoint 0 12)
           include_context Hl Hv).
Defined.

(** ** [isMagicFilePath] *)

Lemma magicFileRegex_directive
    (ws0 ws1 tex ws2 kind ws3 ws4 tail : jsstring) :
  all_space ws0 -> all_space ws1 -> all_space ws2 -> ws2 <> [] ->
  all_space ws3 -> all_space ws4 -> tex_of_pattern tex ->
  kind = str "root" \/ kind = str "bib" -> stops is_space tail ->
  let p := ws0 ++ str "%" ++ ws1 ++ str "!" ++ tex ++ ws2 ++ kind ++ ws3
           ++ str "=" ++ ws4 in
  regex_match (p ++ tail) magicFileRegex = Some (mkMatchArray p [Some kind]).
Proof.
  intros H0 H1 H2 Hne H3 H4 Htex Hkind Hrest p.
  set (pk := ws0 ++ str "%" ++ ws1 ++ str "!" ++ tex ++ ws2).
  set (nk := List.length pk).
  set (n := List.length p).
  assert (Hrun : rmatch magicFileRegex (mkMState (p ++ tail) 0 []) Some
                 = Some (mkMState tail n
                           [(1, (nk, nk + List.length kind))]%nat)).
  { unfold p. rewrite <- !app_assoc.
    unfold magicFileRegex, seqs. cbn [fold_right]. rx.
    rewrite rmatch_Spaces.
    apply greedy_run_some; [assumption | reflexivity |].
    ev. rewrite rmatch_Lit. ev. rewrite rmatch_Spaces.
    apply greedy_run_some; [assumption | reflexivity |].
    rewrite rmatch_Lit. ev.
    destruct ws2 as [|c2 ws2]; [congruence|].
    inversion H2 as [|? ? Hc2 Hws2]; subst.
    assert (Htail : forall (i j : nat) (cs : list (nat * (nat * nat))),
              rmatch Spaces (mkMState (ws3 ++ 61%N :: ws4 ++ tail) i cs)
                (fun y3 => rmatch (Lit "=") y3
                   (fun y4 => rmatch Spaces y4 (fun y5 => Some y5)))
              = Some (mkMState tail
                        (S (i + List.length ws3) + List.length ws4) cs)).
    { intros i j cs. rewrite rmatch_Spaces.
      apply greedy_run_some; [assumption | reflexivity |].
      rewrite rmatch_Lit. ev. rewrite rmatch_Spaces.
      apply greedy_run_some; [assumption | assumption |]. reflexivity. }
    destruct Htex as [-> | ->]; ev; rewrite rmatch_Lit; ev;
      cbn [rest pos caps]; ev; rewrite rmatch_Lit; ev;
      unfold Spaces1; rx; rewrite Hc2; rewrite rmatch_Spaces;
      (apply greedy_run_some;
       [assumption | destruct Hkind as [-> | ->]; reflexivity |]);
      destruct Hkind as [-> | ->]; rewrite !rmatch_Lits; ev;
      cbn [rest pos caps]; rewrite (Htail _ O);
      cbn [or_else]; f_equal; f_equal;
      unfold n, nk, p, pk; rewrite ?length_app; cbn [List.length];
      repeat match goal with
        | |- context [List.length (str ?s)] =>
            let v := eval vm_compute in (List.length (str s)) in
            change (List.length (str s)) with v
        end;
      try lia; repeat f_equal; lia. }
  unfold regex_match. rewrite (@search_from_hit _ (p ++ tail) _ _ _ Hrun).
  unfold match_array. cbn [pos caps].
  replace (ngroups magicFileRegex) with 1%nat by reflexivity.
  cbn [seq List.map lookup_cap Nat.eqb option_map fst snd].
  f_equal. f_equal.
  - apply substring_prefix.
  - f_equal. f_equal. unfold p, nk.
    replace (ws0 ++ str "%" ++ ws1 ++ str "!" ++ tex ++ ws2 ++ kind ++ ws3
             ++ str "=" ++ ws4)
      with (pk ++ kind ++ (ws3 ++ str "=" ++ ws4))
      by (unfold pk; now rewrite <- !app_assoc).
    rewrite <- !app_assoc. apply substring_middle.
Qed.

Lemma slice_from_suffix (a b : jsstring) : slice_from (a ++ b) (len a) = b.
Proof.
  unfold slice_from. rewrite len_app.
  pose proof (slice_middle a b []) as H. now rewrite app_nil_r in H.
Qed.

(** C6 (as amended). On a directive comment [% !TeX root = ...] or
    [% !TeX bib = ...], with [TeX] spelt [TeX] or [TEX] and whitespace
    allowed around [=], [isMagicFilePath] returns [false] when the cursor
    offset is before the start of the path and otherwise the kind, the
    span from the end of the directive (after [=] and the whitespace that
    follows it) to the end of the line, and the rest of the line as the
    path.  On [% !TeX root = main.tex] with the cursor at or after the path
    start, the command is [root] and the path [main.tex]. *)
Theorem isMagicFilePath_directive :
  magic_claim tex_of_pattern
  /\ (forall editor point context,
        line context = str "% !TeX root = main.tex" ->
        (14 <= index context ->
         isMagicFilePath editor point context
         = Some (mkFileResult (Some (str "root"))
                   (mkRange (mkPoint (row point) 14) (mkPoint (row point) 22))
                   (Some (str "main.tex"))))
        /\ (index context < 14 ->
            isMagicFilePath editor point context = None)).
Proof.
  assert (Hgen : magic_claim tex_of_pattern).
  { intros editor point context kind tail
           [ws0 [ws1 [tex [ws2 [ws3 [ws4 [Hl [H0 [H1 [H2 [Hne [H3 [H4
             [Htex [Hkind Htail]]]]]]]]]]]]]]].
    set (p := ws0 ++ str "%" ++ ws1 ++ str "!" ++ tex ++ ws2 ++ kind ++ ws3
              ++ str "=" ++ ws4).
    assert (Hl' : line context = p ++ tail).
    { rewrite Hl. unfold p. now rewrite <- !app_assoc. }
    pose proof (@magicFileRegex_directive ws0 ws1 tex ws2 kind ws3 ws4 tail
                  H0 H1 H2 Hne H3 H4 Htex Hkind Htail) as Hm.
    cbv zeta in Hm. fold p in Hm.
    unfold isMagicFilePath. cbv zeta. rewrite Hl', Hm.
    cbn [whole capture captures nth]. rewrite len_app.
    replace (len p + len tail - len tail) with (len p) by lia.
    destruct (index context <? len p); [reflexivity|].
    rewrite slice_from_suffix.
    rewrite Range_new_ordered by (pose proof (len_nonneg tail); lia).
    reflexivity. }
  split; [exact Hgen|].
  intros editor point context Hline.
  assert (Hdir : directive_line tex_of_pattern (line context)
                   (str "root") (str "main.tex")).
  { exists [], (str " "), (str "TeX"), (str " "), (str " "), (str " ").
    rewrite Hline. split; [reflexivity|].
    do 6 (split; [first [solve [repeat constructor] | discriminate]|]).
    split; [now left|]. split; [now left | reflexivity]. }
  pose proof (Hgen editor point context _ _ Hdir) as H. cbv zeta in H.
  rewrite Hline in H.
  change (len (str "% !TeX root = main.tex") - len (str "main.tex"))
    with 14 in H.
  change (len (str "% !TeX root = main.tex")) with 22 in H.
  split; intros Hidx; rewrite H.
  - destruct (Z.ltb_spec (index context) 14); [lia | reflexivity].
  - destruct (Z.ltb_spec (index context) 14); [reflexivity | lia].
Qed.

Lemma isMagicFilePath_directive_witness :
  directive_line tex_of_pattern (line bib_directive_context) (str "bib")
    (str "refs.bib ")
  /\ isMagicFilePath (buffer_editor []) (mkPoint 2 3) bib_directive_context
     = None.
Proof.
  assert (Hdir : directive_line tex_of_pattern (line bib_directive_context)
                   (str "bib") (str "refs.bib ")).
  { exists [], [], (str "TEX"), (str "  "), [], [].
    split; [reflexivity|].
    do 6 (split; [first [solve [repeat constructor] | discriminate]|]).
    split; [now right|]. split; [now right | reflexivity]. }
  split; [exact Hdir|].
  exact (proj1 isMagicFilePath_directive (buffer_editor []) (mkPoint 2 3)
           bib_directive_context _ _ Hdir).
Defined.

(** Spelt [Tex], the directive is not recognised: the claim read with the
    letters of [TeX] in any case does not hold. *)
Lemma magic_claim_counterexample : ~ magic_claim tex_any_case.
Proof.
  intros H.
  specialize (H (buffer_editor []) (mkPoint 0 14) lowercase_x_context
                (str "root") (str "main.tex")).
  assert (Hdir : directive_line tex_any_case (line lowercase_x_context)
                   (str "root") (str "main.tex")).
  { exists [], (str " "), (str "Tex"), (str " "), (str " "), (str " ").
    split; [reflexivity|].
    do 6 (split; [first [solve [repeat constructor] | discriminate]|]).
    split; [reflexivity|]. split; [now left | reflexivity]. }
  specialize (H Hdir). vm_compute in H. discriminate.
Qed.

(** ** When the name pattern fails *)

(** A run fails when its continuation fails after every part of the text
    the run can take. *)
Lemma greedy_run_none (p : char -> bool) (k : Cont)
    (cs : list (nat * (nat * nat))) (u : jsstring) :
  forall i,
    (forall a b, u = a ++ b -> all_of p a ->
       k (mkMState b (i + List.length a) cs) = None) ->
    greedy_run p k u i cs = None.
Proof.
  induction u as [|c t IH]; intros i Hk.
  - simpl. specialize (Hk [] [] eq_refl ltac:(constructor)).
    simpl in Hk. now rewrite Nat.add_0_r in Hk.
  - simpl.
    assert (Hhere : k (mkMState (c :: t) i cs) = None).
    { specialize (Hk [] (c :: t) eq_refl ltac:(constructor)).
      simpl in Hk. now rewrite Nat.add_0_r in Hk. }
    rewrite Hhere. destruct (p c) eqn:Hc; [|reflexivity].
    rewrite IH; [reflexivity|].
    intros a b Hab Ha.
    specialize (Hk (c :: a) b ltac:(simpl; congruence)
                  ltac:(constructor; assumption)).
    simpl in Hk. now rewrite Nat.add_succ_r in Hk.
Qed.

Lemma lazy_run_none (p : char -> bool) (k : Cont)
    (cs : list (nat * (nat * nat))) (u : jsstring) :
  forall i,
    (forall a b, u = a ++ b -> all_of p a ->
       k (mkMState b (i + List.length a) cs) = None) ->
    lazy_run p k u i cs = None.
Proof.
  induction u as [|c t IH]; intros i Hk.
  - simpl. specialize (Hk [] [] eq_refl ltac:(constructor)).
    simpl in Hk. rewrite Nat.add_0_r in Hk. now rewrite Hk.
  - simpl.
    assert (Hhere : k (mkMState (c :: t) i cs) = None).
    { specialize (Hk [] (c :: t) eq_refl ltac:(constructor)).
      simpl in Hk. now rewrite Nat.add_0_r in Hk. }
    rewrite Hhere. simpl. destruct (p c) eqn:Hc; [|reflexivity].
    apply IH. intros a b Hab Ha.
    specialize (Hk (c :: a) b ltac:(simpl; congruence)
                  ltac:(constructor; assumption)).
    simpl in Hk. now rewrite Nat.add_succ_r in Hk.
Qed.

Lemma all_or_exists (p : char -> bool) (s : jsstring) :
  all_of p s \/ exists c, In c s /\ p c = false.
Proof.
  induction s as [|c t [IH|[d [Hin Hd]]]].
  - left. constructor.
  - destruct (p c) eqn:Hc.
    + left. now constructor.
    + right. exists c. split; [now left | assumption].
  - right. exists d. split; [now right | assumption].
Qed.

Lemma drop_while_all (p : char -> bool) (a t : jsstring) :
  all_of p a -> drop_while p (a ++ t) = drop_while p t.
Proof.
  intros Ha. induction Ha as [|c a Hc _ IH]; simpl; [reflexivity|].
  now rewrite Hc.
Qed.

Lemma drop_while_nil (p : char -> bool) (s : jsstring) :
  drop_while p s = [] -> all_of p s.
Proof.
  induction s as [|c t IH]; simpl; [constructor|].
  destruct (p c) eqn:Hc; [|discriminate].
  intros H. constructor; [exact Hc | exact (IH H)].
Qed.

Lemma drop_while_app (p : char -> bool) (m b : jsstring) :
  drop_while p m <> [] -> drop_while p (m ++ b) = drop_while p m ++ b.
Proof.
  induction m as [|c t IH]; simpl; [congruence|].
  destruct (p c); [exact IH | reflexivity].
Qed.

(** Whitespace around a text does not change what trimming leaves. *)
Lemma trim_pad (a m b : jsstring) :
  all_space a -> all_space b -> trim (a ++ m ++ b) = trim m.
Proof.
  intros Ha Hb. unfold trim, trim_start.
  rewrite (drop_while_all _ Ha).
  destruct (drop_while is_space m) as [|c d] eqn:Hd.
  - apply drop_while_nil in Hd.
    pose proof (all_of_app Hd Hb) as Hall.
    rewrite <- (app_nil_r (m ++ b)).
    rewrite (drop_while_all _ Hall). reflexivity.
  - rewrite drop_while_app by (rewrite Hd; discriminate).
    rewrite Hd, rev_app_distr.
    now rewrite (drop_while_all _ (all_of_rev Hb)).
Qed.

Lemma search_from_after_start (r : regex) (input s : jsstring) :
  forall i, search_from (Seq Bol r) input s (S i) = None.
Proof.
  induction s as [|c t IH]; intros i; simpl; [reflexivity | apply IH].
Qed.

(** The name pattern fails on every text with a line terminator inside
    its trimmed body. *)
Lemma fileNameRegex_fails (s : jsstring) :
  ~ single_line (trim s) -> regex_match s fileNameRegex = None.
Proof.
  intros Hline.
  assert (Hrun : rmatch fileNameRegex (mkMState s 0 []) Some = None).
  { unfold fileNameRegex, seqs. cbn [fold_right]. rx.
    rewrite rmatch_Spaces. apply greedy_run_none.
    intros a b Hab Ha. rx. rewrite rmatch_LazyAny.
    apply lazy_run_none. intros a' b' Hab' Ha'. rx.
    rewrite rmatch_Spaces.
    destruct (all_or_exists is_space b') as [Hall|Hex].
    - exfalso. apply Hline. rewrite Hab, Hab'.
      rewrite (trim_pad a' Ha Hall). now apply all_of_trim.
    - apply greedy_run_blocked; [exact Hex|].
      intros y Hy. rx. destruct (rest y); [congruence | reflexivity]. }
  unfold regex_match.
  destruct s as [|c t]; cbn [search_from]; rewrite Hrun; [reflexivity|].
  change fileNameRegex with
    (Seq Bol (seqs [Group 1 Spaces; Group 2 LazyAny; Group 3 Spaces; Eol])).
  apply search_from_after_start.
Qed.

Lemma single_line_dec (s : jsstring) : {single_line s} + {~ single_line s}.
Proof.
  unfold single_line, all_of. apply Forall_dec.
  intros c. destruct (is_dot c); [now left | right; discriminate].
Defined.

(** The name pattern matches exactly the texts without a line terminator
    inside their trimmed body. *)
Lemma fileNameRegex_null_iff (s : jsstring) :
  regex_match s fileNameRegex = None <-> ~ single_line (trim s).
Proof.
  split; [apply fileNameRegex_null | apply fileNameRegex_fails].
Qed.

Lemma trimmed_name_throws_iff (point : Point) (idx : Z)
    (cmd : option jsstring) (text : jsstring) (from to : Z) :
  trimmed_name point idx cmd text from to = Throw
  <-> ~ single_line (trim text).
Proof.
  split.
  - intros Hthrow Hline.
    rewrite (@trimmed_name_spec point idx cmd text from to Hline) in Hthrow.
    discriminate.
  - intros Hline. unfold trimmed_name.
    now rewrite (fileNameRegex_fails text Hline).
Qed.



(** ** The [\include] branch on every segment *)

(** With a line terminator inside the trimmed segment the name pattern
    does not match and the branch raises. *)
Lemma isFilePath_include_raises (editor : Editor) (point : Point)
    (context : Context) (pre seg post : jsstring) :
  file_command context = Some (str "include") \/
  file_command context = Some (str "includeonly") ->
  value_at context ->
  segment_at (value context) (index context - startIndex context)
    pre seg post ->
  ~ single_line (trim seg) ->
  isFilePath editor point context = Throw.
Proof.
  intros Hcmd [before [after [Hl [Hsi Hei]]]] Hseg Hline.
  rewrite (isFilePath_include_branch editor point context Hcmd).
  unfold sectionStart, sectionEnd. cbv zeta.
  destruct (@include_section_bounds _ _ _ _ _ _ (index context) Hseg Hei)
    as [Hne _].
  cbv zeta in Hne.
  assert (Hsegne : seg <> []).
  { intros ->. apply Hline. constructor. }
  destruct (Hne Hsegne) as [HS HE]. rewrite HS, HE.
  assert (Hlen : 1 <= len seg).
  { destruct seg as [|c seg']; [congruence|].
    rewrite len_cons. pose proof (len_nonneg seg'). lia. }
  destruct (Z.ltb_spec (startIndex context + len pre + len seg
                        - (startIndex context + len pre)) 1); [lia|].
  assert (Hslice : slice (line context) (startIndex context + len pre)
                     (startIndex context + len pre + len seg) = seg).
  { rewrite Hl. destruct Hseg as [-> _]. rewrite Hsi.
    replace (before ++ (pre ++ seg ++ post) ++ after)
      with ((before ++ pre) ++ seg ++ (post ++ after))
      by (now rewrite <- !app_assoc).
    rewrite <- len_app. apply slice_middle. }
  rewrite Hslice. now apply trimmed_name_throws_iff.
Qed.

(** C5 (failing input, and what holds besides). For [\include] and
    [\includeonly], when the context's value is the text of the line
    between its two offsets, [isFilePath] isolates the comma-delimited
    segment of the argument around the cursor and trims it.  When no line
    terminator occurs inside the trimmed segment it returns the trimmed
    segment with its span if the segment is not empty and the cursor lies
    within the trimmed span, and [false] otherwise; on [\include{a, b, c}],
    whatever whitespace surrounds the commas, a cursor inside [b] yields
    the path [b].  When a line terminator occurs inside the trimmed segment
    it raises instead: on [\include{a<LS>b}], <LS> being the line separator
    U+2028, with the cursor after [a], the segment is the whole argument,
    it is its own trimmed text, the cursor lies within it, and the call
    raises where the path [a<LS>b] is due. *)
Theorem isFilePath_include :
  (forall editor point context pre seg post,
     file_command context = Some (str "include") \/
     file_command context = Some (str "includeonly") ->
     value_at context ->
     segment_at (value context) (index context - startIndex context)
       pre seg post ->
     (single_line (trim seg) ->
      isFilePath editor point context
      = Return
          (if (len seg <? 1)
              || (index context
                  <? startIndex context + len pre + len (leading_space seg))
              || (index context
                  >? startIndex context + len pre + len seg
                     - len (trailing_space seg))
           then None
           else Some (mkFileResult (file_command context)
                        (mkRange
                           (mkPoint (row point)
                              (startIndex context + len pre
                               + len (leading_space seg)))
                           (mkPoint (row point)
                              (startIndex context + len pre + len seg
                               - len (trailing_space seg))))
                        (Some (trim seg)))))
     /\ (~ single_line (trim seg) ->
         isFilePath editor point context = Throw))
  /\ (forall context cmd,
        cmd = str "include" \/ cmd = str "includeonly" ->
        open_command (slice (line context) 0 (index context)) cmd ->
        file_command context = Some cmd)
  /\ (forall editor point context s1 s2 s3 s4,
        all_space s1 -> all_space s2 -> all_space s3 -> all_space s4 ->
        let v := str "a" ++ s1 ++ str "," ++ s2 ++ str "b" ++ s3 ++ str ","
                 ++ s4 ++ str "c" in
        line context = str "\include{" ++ v ++ str "}" ->
        value context = v ->
        startIndex context = 9 -> endIndex context = 9 + len v ->
        index context = 11 + len s1 + len s2 \/
        index context = 12 + len s1 + len s2 ->
        isFilePath editor point context
        = Return (Some (mkFileResult (Some (str "include"))
                          (mkRange
                             (mkPoint (row point) (11 + len s1 + len s2))
                             (mkPoint (row point) (12 + len s1 + len s2)))
                          (Some (str "b")))))
  /\ (file_command separator_include_context = Some (str "include") /\
      value_at separator_include_context /\
      segment_at (value separator_include_context)
        (index separator_include_context
         - startIndex separator_include_context)
        [] separator_value [] /\
      trim separator_value = separator_value /\
      startIndex separator_include_context
        <= index separator_include_context
        <= endIndex separator_include_context /\
      isFilePath (buffer_editor [line separator_include_context])
        (mkPoint 0 10) separator_include_context = Throw).
Proof.
  split.
  { intros editor point context pre seg post Hcmd Hat Hseg. split.
    - intros Hline.
      exact (@isFilePath_include_general editor point context pre seg post
               Hcmd Hat Hseg Hline).
    - intros Hline.
      exact (@isFilePath_include_raises editor point context pre seg post
               Hcmd Hat Hseg Hline). }
  split.
  { intros context cmd Hc Hopen. apply open_command_file_command;
      [exact Hopen|]. destruct Hc as [-> | ->];
      [right; now left | right; right; now left]. }
  split.
  2:{ split; [reflexivity|]. split.
      { exists (str "\include{"), (str "}"). now repeat split. }
      split.
      { split; [reflexivity|]. split; [now left|]. split; [now left|]. split.
        - intros [H|[H|[H|[]]]]; discriminate H.
        - vm_compute. split; discriminate. }
      split; [reflexivity|]. split; [vm_compute; split; discriminate|].
      reflexivity. }
  intros editor point [l idx v' rg si ei sc] s1 s2 s3 s4 H1 H2 H3 H4 v.
  cbn [line value startIndex endIndex index].
  intros -> -> -> -> Hidx.
  set (context := mkContext (str "\include{" ++ v ++ str "}") idx v rg 9
                    (9 + len v) sc).
  set (pre := str "a" ++ s1 ++ [comma]).
  set (seg := s2 ++ str "b" ++ s3).
  set (post := comma :: s4 ++ str "c").
  assert (Hv : v = pre ++ seg ++ post).
  { unfold v, pre, seg, post. now rewrite <- !app_assoc. }
  assert (Hcomma : is_space comma = false) by reflexivity.
  assert (Hsegat : segment_at (value context)
                     (index context - startIndex context) pre seg post).
  { split; [exact Hv|]. split; [right; now exists (str "a" ++ s1)|].
    split; [right; now exists (s4 ++ str "c")|]. split.
    - unfold seg. intros Hin.
      apply in_app_or in Hin. destruct Hin as [Hin|Hin];
        [exact (all_space_not comma H2 Hcomma Hin)|].
      apply in_app_or in Hin. destruct Hin as [Hin|Hin];
        [|exact (all_space_not comma H3 Hcomma Hin)].
      destruct Hin as [Hin|[]]. discriminate.
    - cbn [index startIndex context]. unfold pre, seg.
      rewrite !len_app. change (len (str "a")) with 1.
      change (len [comma]) with 1. change (len (str "b")) with 1.
      pose proof (len_nonneg s2). pose proof (len_nonneg s3). lia. }
  assert (Hparts : leading_space seg = s2 /\ trim seg = str "b" /\
                   trailing_space seg = s3).
  { apply trim_parts; try assumption; [discriminate | reflexivity..]. }
  destruct Hparts as [Hlead [Htrim Htrail]].
  assert (Hnr : forall s, all_space s -> all_of not_rbrace s).
  { intros s. apply all_space_other. exact space_not_rbrace. }
  assert (Hcmd : file_command context = Some (str "include")).
  { apply open_command_file_command; [|right; now left].
    cbn [line index context].
    destruct Hidx as [Hidx|Hidx].
    - exists [], [], (str "a" ++ s1 ++ str "," ++ s2).
      split; [|split; [intros [] | split; [constructor|]]].
      + replace (str "\include{" ++ v ++ str "}")
          with ((str "\include{" ++ str "a" ++ s1 ++ str "," ++ s2)
                ++ (str "b" ++ s3 ++ str "," ++ s4 ++ str "c" ++ str "}"))
          by (unfold v; now rewrite <- !app_assoc).
        replace idx
          with (len (str "\include{" ++ str "a" ++ s1 ++ str "," ++ s2)).
        * now rewrite slice_prefix.
        * rewrite !len_app. change (len (str "\include{")) with 9.
          change (len (str "a")) with 1. change (len (str ",")) with 1. lia.
      + repeat apply all_of_app; auto; repeat constructor.
    - exists [], [], (str "a" ++ s1 ++ str "," ++ s2 ++ str "b").
      split; [|split; [intros [] | split; [constructor|]]].
      + replace (str "\include{" ++ v ++ str "}")
          with ((str "\include{" ++ str "a" ++ s1 ++ str "," ++ s2
                 ++ str "b")
                ++ (s3 ++ str "," ++ s4 ++ str "c" ++ str "}"))
          by (unfold v; now rewrite <- !app_assoc).
        replace idx
          with (len (str "\include{" ++ str "a" ++ s1 ++ str "," ++ s2
                     ++ str "b")).
        * now rewrite slice_prefix.
        * rewrite !len_app. change (len (str "\include{")) with 9.
          change (len (str "a")) with 1. change (len (str ",")) with 1.
          change (len (str "b")) with 1. lia.
      + repeat apply all_of_app; auto; repeat constructor. }
  assert (Hat : value_at context).
  { exists (str "\include{"), (str "}"). now split. }
  assert (Hline : single_line (trim seg)).
  { rewrite Htrim. repeat constructor. }
  rewrite (@isFilePath_include_general editor point context _ _ _
             (or_introl Hcmd) Hat Hsegat Hline).
  rewrite Hlead, Htrim, Htrail, Hcmd. cbn [index startIndex context].
  assert (Hlp : len pre = 2 + len s1).
  { unfold pre. rewrite !len_app. change (len (str "a")) with 1.
    change (len [comma]) with 1. lia. }
  assert (Hls : len seg = len s2 + 1 + len s3).
  { unfold seg. rewrite !len_app. change (len (str "b")) with 1. lia. }
  rewrite Hlp, Hls.
  pose proof (len_nonneg s1). pose proof (len_nonneg s2).
  pose proof (len_nonneg s3).
  destruct (Z.ltb_spec (len s2 + 1 + len s3) 1); [lia|].
  destruct (Z.ltb_spec idx (9 + (2 + len s1) + len s2)); [lia|].
  destruct (Z.gtb_spec idx (9 + (2 + len s1) + (len s2 + 1 + len s3)
                            - len s3)); [lia|].
  cbn [orb].
  replace (9 + (2 + len s1) + len s2) with (11 + len s1 + len s2) by lia.
  replace (9 + (2 + len s1) + (len s2 + 1 + len s3) - len s3)
    with (12 + len s1 + len s2) by lia.
  reflexivity.
Qed.

Lemma isFilePath_include_witness :
  (file_command include_context = Some (str "include") \/
   file_command include_context = Some (str "includeonly")) /\
  value_at include_context /\
  segment_at (value include_context)
    (index include_context - startIndex include_context)
    (str "a,") (str " b") (str ", c") /\
  single_line (trim (str " b")) /\
  isFilePath (buffer_editor []) (mkPoint 0 12) include_context
  = Return (Some (mkFileResult (Some (str "include"))
                    (mkRange (mkPoint 0 12) (mkPoint 0 13))
                    (Some (str "b")))).
Proof.
  assert (Hcmd : file_command include_context = Some (str "include") \/
                 file_command include_context = Some (str "includeonly")).
  { left. vm_compute. reflexivity. }
  assert (Hat : value_at include_context).
  { exists (str "\include{"), (str "}"). now split. }
  assert (Hseg : segment_at (value include_context)
                   (index include_context - startIndex include_context)
                   (str "a,") (str " b") (str ", c")).
  { split; [reflexivity|]. split; [right; now exists (str "a")|].
    split; [right; now exists (str " c")|]. split.
    - intros [H|[H|[]]]; discriminate.
    - vm_compute. split; discriminate. }
  assert (Hline : single_line (trim (str " b"))).
  { vm_compute. repeat constructor. }
  split; [exact Hcmd|]. split; [exact Hat|]. split; [exact Hseg|].
  split; [exact Hline|].
  exact (proj1 (proj1 isFilePath_include (buffer_editor []) (mkPoint 0 12)
                  include_context (str "a,") (str " b") (str ", c")
                  Hcmd Hat Hseg) Hline).
Defined.

(** ** The other classifiers on sample lines *)

Example isEnvDelim_begin :
  isEnvDelim (buffer_editor []) (mkPoint 0 7)
    (mkContext (str "\begin{") 7 [] no_range 7 7 [])
  = Some (Some (str "begin")).
Proof. vm_compute. reflexivity. Qed.

Example isEnvDelim_none :
  isEnvDelim (buffer_editor []) (mkPoint 0 8)
    (mkContext (str "\section{a}") 9 [] no_range 9 10 [])
  = None.
Proof. vm_compute. reflexivity. Qed.

Example isRef_any_case :
  isRef (buffer_editor []) (mkPoint 0 9)
    (mkContext (str "see \Cref*{eq:1}") 0 [] no_range 0 0 [])
  = None
  /\ isRef (buffer_editor []) (mkPoint 0 13)
       (mkContext (str "see \Cref*{eq:1}") 0 [] no_range 0 0 [])
     = Some (Some (str "Cref*")).
Proof. vm_compute. split; reflexivity. Qed.

Example isPackageOrClass_options :
  isPackageOrClass (buffer_editor []) (mkPoint 0 0)
    (mkContext (str "\usepackage [utf8]{input") 24 [] no_range 0 0 [])
  = true.
Proof. vm_compute. reflexivity. Qed.

Example isCitation_scope :
  isCitation (buffer_editor []) (mkPoint 0 0)
    (mkContext (str "\cite{a}") 6 [] no_range 0 0
       [str "constant.other.reference.citation.latex"])
  = Some (Some (str "UNKNOWN CITE COMMAND")).
Proof. vm_compute. reflexivity. Qed.
(** ** From a match back to the text *)

Lemma or_else_inv (a b : option MState) (z : MState) :
  or_else a b = Some z -> a = Some z \/ b = Some z.
Proof. destruct a; cbn; intros H; [left | right]; assumption. Qed.

Lemma greedy_run_inv (p : char -> bool) (k : Cont)
    (cs : list (nat * (nat * nat))) (s : jsstring) :
  forall i z, greedy_run p k s i cs = Some z ->
    exists a b, s = a ++ b /\ all_of p a /\
                k (mkMState b (i + List.length a) cs) = Some z.
Proof.
  induction s as [|c t IH]; intros i z H; cbn [greedy_run] in H.
  - exists [], []. repeat split; [constructor|]. cbn. now rewrite Nat.add_0_r.
  - destruct (p c) eqn:Hc.
    + apply or_else_inv in H. destruct H as [H|H].
      * apply IH in H. destruct H as [a [b [E [Ha H]]]].
        exists (c :: a), b. split; [cbn; now rewrite E|].
        split; [now constructor|]. cbn [List.length].
        now rewrite Nat.add_succ_r.
      * exists [], (c :: t). repeat split; [constructor|]. cbn.
        now rewrite Nat.add_0_r.
    + exists [], (c :: t). repeat split; [constructor|]. cbn.
      now rewrite Nat.add_0_r.
Qed.

Lemma lazy_run_inv (p : char -> bool) (k : Cont)
    (cs : list (nat * (nat * nat))) (s : jsstring) :
  forall i z, lazy_run p k s i cs = Some z ->
    exists a b, s = a ++ b /\ all_of p a /\
                k (mkMState b (i + List.length a) cs) = Some z.
Proof.
  induction s as [|c t IH]; intros i z H; cbn [lazy_run] in H;
    apply or_else_inv in H; destruct H as [H|H].
  - exists [], []. repeat split; [constructor|]. cbn. now rewrite Nat.add_0_r.
  - discriminate.
  - exists [], (c :: t). repeat split; [constructor|]. cbn.
    now rewrite Nat.add_0_r.
  - destruct (p c) eqn:Hc; [|discriminate].
    apply IH in H. destruct H as [a [b [E [Ha H]]]].
    exists (c :: a), b. split; [cbn; now rewrite E|].
    split; [now constructor|]. cbn [List.length]. now rewrite Nat.add_succ_r.
Qed.

(** A lazy run succeeds as soon as its continuation succeeds after some
    part of the text the run can take. *)
Lemma lazy_run_reaches (p : char -> bool) (k : Cont)
    (cs : list (nat * (nat * nat))) (body t : jsstring) :
  all_of p body ->
  forall i, k (mkMState t (i + List.length body) cs) <> None ->
            lazy_run p k (body ++ t) i cs <> None.
Proof.
  induction 1 as [|c body Hc Hb IH]; intros i Hk.
  - cbn [app List.length] in *. rewrite Nat.add_0_r in Hk.
    destruct t; cbn [lazy_run];
      destruct (k _) eqn:E; cbn; congruence.
  - cbn [app lazy_run]. rewrite Hc.
    destruct (k (mkMState (c :: body ++ t) i cs)); cbn; [discriminate|].
    apply IH. cbn [List.length] in Hk. now rewrite Nat.add_succ_r in Hk.
Qed.

Lemma Chr_inv (p : char -> bool) (u : jsstring) (i : nat)
    (cs : list (nat * (nat * nat))) (k : Cont) (z : MState) :
  rmatch (Chr p) (mkMState u i cs) k = Some z ->
  exists c t, u = c :: t /\ p c = true /\ k (mkMState t (S i) cs) = Some z.
Proof.
  cbn [rmatch rest pos caps]. destruct u as [|c t]; [discriminate|].
  destruct (p c) eqn:Hc; [|discriminate]. intros H. now exists c, t.
Qed.

Lemma starts_with_app (pre u : jsstring) :
  starts_with pre u = true -> u = pre ++ skipn (List.length pre) u.
Proof.
  revert u. induction pre as [|a pre IH]; intros u H; [reflexivity|].
  destruct u as [|c u]; [discriminate|]. cbn [starts_with] in H.
  apply andb_prop in H. destruct H as [H1 H2]. apply N.eqb_eq in H1.
  subst c. cbn. f_equal. now apply IH.
Qed.

Lemma starts_with_refl (pre v : jsstring) : starts_with pre (pre ++ v) = true.
Proof.
  induction pre as [|a pre IH]; [reflexivity|]. cbn.
  now rewrite N.eqb_refl, IH.
Qed.

Lemma Lits_inv (s : string) (u : jsstring) (i : nat)
    (cs : list (nat * (nat * nat))) (k : Cont) (z : MState) :
  rmatch (Lits s) (mkMState u i cs) k = Some z ->
  exists v, u = str s ++ v /\
            k (mkMState v (i + List.length (str s)) cs) = Some z.
Proof.
  rewrite rmatch_Lits. destruct (starts_with (str s) u) eqn:E; [|discriminate].
  intros H. exists (skipn (List.length (str s)) u). split; [|assumption].
  now apply starts_with_app.
Qed.

(** A literal compared under the [i] flag takes a text that equals it up
    to letter case. *)
Lemma LitsI_inv (s : string) (k : Cont) (cs : list (nat * (nat * nat))) :
  forall u i z,
    rmatch (LitsI s) (mkMState u i cs) k = Some z ->
    exists w v, u = w ++ v /\ fold_case w = fold_case (str s) /\
                k (mkMState v (i + List.length w) cs) = Some z.
Proof.
  unfold LitsI, str, seqs. generalize (list_ascii_of_string s) as l.
  induction l as [|a l IH]; intros u i z H.
  - exists [], u. repeat split. cbn in *. now rewrite Nat.add_0_r.
  - cbn [List.map seqs fold_right rmatch rest pos caps] in H.
    destruct u as [|c u]; [discriminate|].
    destruct (N.eqb (canonicalize c) (canonicalize (N_of_ascii a))) eqn:E;
      [|discriminate].
    apply IH in H. destruct H as [w [v [Eu [Ew H]]]].
    exists (c :: w), v. split; [cbn; now rewrite Eu|]. split.
    + cbn. apply N.eqb_eq in E. rewrite E. f_equal. exact Ew.
    + cbn [List.length]. now rewrite Nat.add_succ_r.
Qed.

Lemma LitsI_match (s : string) (k : Cont) (cs : list (nat * (nat * nat))) :
  forall w v i,
    fold_case w = fold_case (str s) ->
    rmatch (LitsI s) (mkMState (w ++ v) i cs) k
    = k (mkMState v (i + List.length w) cs).
Proof.
  unfold LitsI, str, seqs. generalize (list_ascii_of_string s) as l.
  induction l as [|a l IH]; intros w v i H.
  - destruct w; [|discriminate]. cbn. now rewrite Nat.add_0_r.
  - destruct w as [|c w]; [discriminate|]. cbn in H.
    injection H as Hc Hw.
    cbn [List.map seqs fold_right rmatch rest pos caps app].
    rewrite Hc, N.eqb_refl.
    rewrite (IH w v (S i) Hw). cbn [List.length]. now rewrite Nat.add_succ_r.
Qed.

(** A literal compared under the [i] flag fails on a text whose first
    characters differ from it by more than letter case. *)
Lemma LitsI_mismatch (s : string) (k : Cont) (cs : list (nat * (nat * nat))) :
  forall u i,
    starts_with (fold_case (str s)) (fold_case u) = false ->
    rmatch (LitsI s) (mkMState u i cs) k = None.
Proof.
  unfold LitsI, str, seqs. generalize (list_ascii_of_string s) as l.
  induction l as [|a l IH]; intros u i H; [discriminate|].
  cbn [List.map seqs fold_right rmatch rest pos caps].
  destruct u as [|c u]; [reflexivity|].
  cbn [fold_case List.map starts_with] in H.
  rewrite N.eqb_sym in H.
  destruct (N.eqb (canonicalize c) (canonicalize (N_of_ascii a)));
    [|reflexivity].
  cbn [andb] in H. now apply IH.
Qed.

Lemma canonicalize_fixed (c a : char) :
  in_range 97 122 a = false -> in_range 65 90 a = false ->
  N.eqb (canonicalize c) (canonicalize a) = true -> c = a.
Proof.
  unfold canonicalize, in_range. intros Ha HA H.
  rewrite Ha in H. apply N.eqb_eq in H.
  destruct (N.leb 97 c && N.leb c 122)%bool eqn:Hc; [|assumption].
  apply andb_prop in Hc. destruct Hc as [H1 H2].
  apply N.leb_le in H1, H2.
  apply andb_false_iff in HA.
  destruct HA as [HA|HA]; apply N.leb_gt in HA; lia.
Qed.

(** ** Searches *)

Lemma search_from_inv (r : regex) (input : jsstring) :
  forall s i m, search_from r input s i = Some m ->
    exists a s' y, s = a ++ s' /\
      rmatch r (mkMState s' (i + List.length a) []) Some = Some y /\
      m = match_array r input (i + List.length a) y.
Proof.
  induction s as [|c t IH]; intros i m H; cbn [search_from] in H.
  - destruct (rmatch r (mkMState [] i []) Some) as [y|] eqn:E; [|discriminate].
    injection H as <-. exists [], [], y. cbn [List.length app].
    rewrite Nat.add_0_r. now repeat split.
  - destruct (rmatch r (mkMState (c :: t) i []) Some) as [y|] eqn:E.
    + injection H as <-. exists [], (c :: t), y. cbn [List.length app].
      rewrite Nat.add_0_r. now repeat split.
    + apply IH in H. destruct H as [a [s' [y [Es [Hy Hm]]]]].
      exists (c :: a), s', y. cbn [List.length app].
      rewrite Nat.add_succ_r. split; [now rewrite Es|]. now split.
Qed.

(** A match at any start index makes the search succeed. *)
Lemma search_from_reaches (r : regex) (input : jsstring) :
  forall a s' i,
    rmatch r (mkMState s' (i + List.length a) []) Some <> None ->
    search_from r input (a ++ s') i <> None.
Proof.
  induction a as [|c a IH]; intros s' i H.
  - cbn [app List.length] in *. rewrite Nat.add_0_r in H.
    destruct s'; cbn [search_from];
      destruct (rmatch r _ Some); congruence.
  - cbn [app search_from].
    destruct (rmatch r (mkMState (c :: a ++ s') i []) Some); [discriminate|].
    apply IH. cbn [List.length] in H. now rewrite Nat.add_succ_r in H.
Qed.

(** A pattern that starts with a backslash is not found in a text without
    one. *)
Lemma search_no_backslash (r : regex) (input s : jsstring) :
  ~ In backslash s ->
  forall i, search_from (Seq Backslash r) input s i = None.
Proof.
  induction s as [|c t IH]; intros Hs i; [reflexivity|].
  cbn [search_from]. 
  assert (E : rmatch (Seq Backslash r) (mkMState (c :: t) i []) Some = None).
  { unfold Backslash. cbn [rmatch rest].
    destruct (N.eqb backslash c) eqn:Hc; [|reflexivity].
    apply N.eqb_eq in Hc. exfalso. apply Hs. now left. }
  rewrite E. apply IH. intros H. apply Hs. now right.
Qed.

Lemma search_skip_backslash (r : regex) (input pre s : jsstring) :
  ~ In backslash pre ->
  forall i, search_from (Seq Backslash r) input (pre ++ s) i
            = search_from (Seq Backslash r) input s (i + List.length pre).
Proof.
  induction pre as [|c pre IH]; intros Hpre i.
  - cbn. now rewrite Nat.add_0_r.
  - cbn [app]. rewrite search_from_skip.
    + rewrite IH by (intros H; apply Hpre; now right).
      cbn [List.length]. now rewrite Nat.add_succ_r.
    + unfold Backslash. cbn [rmatch rest].
      destruct (N.eqb backslash c) eqn:Hc; [|reflexivity].
      apply N.eqb_eq in Hc. exfalso. apply Hpre. now left.
Qed.

(** ** The shapes the patterns accept *)

Lemma Lit_inv (a : string) (u : jsstring) (i : nat)
    (cs : list (nat * (nat * nat))) (k : Cont) (z : MState) :
  rmatch (Lit a) (mkMState u i cs) k = Some z ->
  exists t, u = one a :: t /\ k (mkMState t (S i) cs) = Some z.
Proof.
  intros H. apply Chr_inv in H. destruct H as [c [t [E [Hc H]]]].
  apply N.eqb_eq in Hc. subst c. now exists t.
Qed.

Lemma Spaces_inv (u : jsstring) (i : nat) (cs : list (nat * (nat * nat)))
    (k : Cont) (z : MState) :
  rmatch Spaces (mkMState u i cs) k = Some z ->
  exists ws v, u = ws ++ v /\ all_space ws /\
               k (mkMState v (i + List.length ws) cs) = Some z.
Proof. rewrite rmatch_Spaces. apply greedy_run_inv. Qed.

(** The end of every command pattern: an open brace and no closing brace
    up to the end of the text. *)
Lemma open_brace_inv (u : jsstring) (i : nat) (cs : list (nat * (nat * nat)))
    (k : Cont) (z : MState) :
  rmatch (seqs [Lit "{"; NotRbraces; Eol]) (mkMState u i cs) k = Some z ->
  exists arg, u = lbrace :: arg /\ all_of not_rbrace arg /\
              k (mkMState [] (S i + List.length arg) cs) = Some z.
Proof.
  unfold seqs. cbn [fold_right]. rewrite rmatch_Seq. intros H.
  apply Lit_inv in H. destruct H as [t [E H]].
  rewrite rmatch_Seq, rmatch_NotRbraces in H.
  apply greedy_run_inv in H. destruct H as [a [b [Et [Ha H]]]].
  cbn [rmatch rest] in H. destruct b as [|c b]; [|discriminate].
  rewrite app_nil_r in Et. subst t. exists a. now repeat split.
Qed.

Lemma OptionalArgument_inv (u : jsstring) (i : nat)
    (cs : list (nat * (nat * nat))) (k : Cont) (z : MState) :
  rmatch OptionalArgument (mkMState u i cs) k = Some z ->
  exists o v, u = o ++ v /\ optional_argument_text o /\
              k (mkMState v (i + List.length o) cs) = Some z.
Proof.
  unfold OptionalArgument. rewrite rmatch_Opt. intros H.
  apply or_else_inv in H. destruct H as [H|H].
  - unfold seqs in H. cbn [fold_right groups app clear_caps] in H.
    rewrite rmatch_Seq in H. apply Lit_inv in H. destruct H as [t [E H]].
    rewrite rmatch_Seq, rmatch_LazyAny in H.
    apply lazy_run_inv in H. destruct H as [b [v [Et [Hb H]]]].
    rewrite rmatch_Seq in H. apply Lit_inv in H. destruct H as [v' [Ev H]].
    cbn [rmatch pos] in H.
    destruct (Nat.eqb (S (S i + List.length b)) i); [discriminate|].
    exists (str "[" ++ b ++ str "]"), v'. split; [|split].
    + subst u t v. cbn. now rewrite <- app_assoc.
    + right. exists b. now split.
    + rewrite <- H. f_equal. f_equal. rewrite !length_app. cbn. lia.
  - exists [], u. split; [reflexivity|]. split; [now left|].
    cbn. now rewrite Nat.add_0_r.
Qed.

Lemma openArgument_inv (u : jsstring) (i : nat)
    (cs : list (nat * (nat * nat))) (k : Cont) (z : MState) :
  rmatch openArgument (mkMState u i cs) k = Some z ->
  exists mid arg, u = mid ++ [lbrace] ++ arg /\ file_gap mid /\
                  all_of not_rbrace arg /\
                  k (mkMState [] (i + List.length u) cs) = Some z.
Proof.
  unfold openArgument. change (seqs [Spaces; OptionalArgument; Spaces;
                                       Lit "{"; NotRbraces; Eol])
    with (Seq Spaces (Seq OptionalArgument
            (Seq Spaces (seqs [Lit "{"; NotRbraces; Eol])))).
  rewrite rmatch_Seq. intros H.
  apply Spaces_inv in H. destruct H as [ws1 [v1 [E1 [Hws1 H]]]].
  rewrite rmatch_Seq in H.
  apply OptionalArgument_inv in H. destruct H as [o [v2 [E2 [Ho H]]]].
  rewrite rmatch_Seq in H.
  apply Spaces_inv in H. destruct H as [ws2 [v3 [E3 [Hws2 H]]]].
  apply open_brace_inv in H. destruct H as [arg [E4 [Harg H]]].
  exists (ws1 ++ o ++ ws2), arg. split; [|split; [|split]].
  - subst u v1 v2 v3. now rewrite <- !app_assoc.
  - now exists ws1, o, ws2.
  - assumption.
  - rewrite <- H. f_equal. f_equal. subst u v1 v2 v3. rewrite !length_app.
    cbn [List.length]. lia.
Qed.

(** The capturing group of the file pattern holds one of the command
    texts. *)
Lemma fileCommands_inv (u : jsstring) (i : nat)
    (cs : list (nat * (nat * nat))) (k : Cont) (z : MState) :
  rmatch fileCommands (mkMState u i cs) k = Some z ->
  exists cmd v, u = cmd ++ v /\ command_text cmd /\
                k (mkMState v (i + List.length cmd) cs) = Some z.
Proof.
  unfold fileCommands. rewrite rmatch_Alt. intros H.
  apply or_else_inv in H. destruct H as [H|H].
  { unfold seqs in H. cbn [fold_right] in H. rewrite rmatch_Seq in H.
    apply Lits_inv in H. destruct H as [v1 [E1 H]].
    rewrite rmatch_Seq in H. apply Spaces_inv in H.
    destruct H as [ws [v2 [E2 [Hws H]]]].
    rewrite rmatch_Seq in H. apply Lit_inv in H. destruct H as [v3 [E3 H]].
    rewrite rmatch_Seq, rmatch_NotRbraces in H.
    apply greedy_run_inv in H. destruct H as [lang [v4 [E4 [Hlang H]]]].
    rewrite rmatch_Seq in H. apply Lit_inv in H. destruct H as [v5 [E5 H]].
    cbn [rmatch] in H.
    exists (str "inputminted" ++ ws ++ [lbrace] ++ lang ++ [rbrace]), v5.
    split; [|split].
    - subst u v1 v2 v3 v4. change (one "{") with lbrace.
      change (one "}") with rbrace. now rewrite <- !app_assoc.
    - do 5 right. now exists ws, lang.
    - rewrite <- H. f_equal. f_equal. rewrite !length_app.
      cbn [List.length]. lia. }
  rewrite rmatch_Alt in H. apply or_else_inv in H. destruct H as [H|H].
  { apply Lits_inv in H. destruct H as [v [E H]].
    exists (str "input"), v. split; [assumption|]. split; [now left|].
    assumption. }
  rewrite rmatch_Alt in H. apply or_else_inv in H. destruct H as [H|H].
  { rewrite rmatch_Seq in H. apply Lits_inv in H. destruct H as [v [E H]].
    rewrite rmatch_Opt in H. apply or_else_inv in H. destruct H as [H|H].
    - cbn [groups app clear_caps] in H. rewrite rmatch_Alt in H.
      apply or_else_inv in H. destruct H as [H|H];
        apply Lits_inv in H; destruct H as [v' [E' H]]; cbn [pos] in H;
        match type of H with
        | (if ?b then _ else _) = _ => destruct b; [discriminate|]
        end.
      + exists (str "includeonly"), v'. split; [|split].
        * subst u v. reflexivity.
        * right. right. now left.
        * rewrite <- H. f_equal. f_equal. cbn. lia.
      + exists (str "includegraphics"), v'. split; [|split].
        * subst u v. reflexivity.
        * do 3 right. now left.
        * rewrite <- H. f_equal. f_equal. cbn. lia.
    - exists (str "include"), v. split; [assumption|].
      split; [right; now left | assumption]. }
  apply Lits_inv in H. destruct H as [v [E H]].
  exists (str "addbibresource"), v. split; [assumption|].
  split; [do 4 right; now left | assumption].
Qed.

Lemma Backslash_inv (u : jsstring) (i : nat) (cs : list (nat * (nat * nat)))
    (k : Cont) (z : MState) :
  rmatch Backslash (mkMState u i cs) k = Some z ->
  exists t, u = backslash :: t /\ k (mkMState t (S i) cs) = Some z.
Proof.
  intros H. apply Chr_inv in H. destruct H as [c [t [E [Hc H]]]].
  apply N.eqb_eq in Hc. subst c. now exists t.
Qed.

(** A match of the file pattern at an index: the text from there on is a
    backslash, a command text, a gap and an unclosed brace, and the one
    capture is the command text. *)
Lemma fileRegex_inv (s : jsstring) (i : nat) (z : MState) :
  rmatch fileRegex (mkMState s i []) Some = Some z ->
  exists cmd mid arg,
    s = [backslash] ++ cmd ++ mid ++ [lbrace] ++ arg /\
    command_text cmd /\ file_gap mid /\ all_of not_rbrace arg /\
    z = mkMState [] (i + List.length s)
          [(1, (S i, S i + List.length cmd))]%nat.
Proof.
  unfold fileRegex, seqs. cbn [fold_right]. rewrite rmatch_Seq. intros H.
  apply Backslash_inv in H. destruct H as [t [E H]].
  rewrite rmatch_Seq, rmatch_Group in H.
  apply fileCommands_inv in H. destruct H as [cmd [v [Et [Hcmd H]]]].
  unfold set_cap in H. cbn [pos rest caps] in H.
  rewrite rmatch_Seq in H.
  apply openArgument_inv in H. destruct H as [mid [arg [Ev [Hmid [Harg H]]]]].
  cbn [rmatch] in H. injection H as <-.
  exists cmd, mid, arg. split; [|split; [|split; [|split]]]; try assumption.
  - subst s t v. reflexivity.
  - f_equal. subst s t. cbn [List.length app]. rewrite length_app. lia.
Qed.

Lemma capture_one (r : regex) (input : jsstring) (from p a b : nat) :
  (1 <= ngroups r)%nat ->
  capture (match_array r input from (mkMState [] p [(1, (a, b))]%nat)) 1
  = Some (substring input a b).
Proof.
  intros Hn. unfold match_array, capture. cbn [captures pos caps].
  destruct (ngroups r) as [|n]; [lia|].
  cbn [seq List.map nth lookup_cap Nat.eqb option_map fst snd]. reflexivity.
Qed.

Lemma substring_command (a cmd v : jsstring) :
  substring (a ++ [backslash] ++ cmd ++ v) (S (List.length a))
    (S (List.length a) + List.length cmd) = cmd.
Proof.
  replace (a ++ [backslash] ++ cmd ++ v) with ((a ++ [backslash]) ++ cmd ++ v)
    by (now rewrite <- app_assoc).
  replace (S (List.length a)) with (List.length (a ++ [backslash]))
    by (rewrite length_app; cbn; lia).
  apply substring_middle.
Qed.

(** Wherever the file pattern is found in a text, the text ends in a file
    command with its unclosed brace, and the capture is that command. *)
Lemma fileRegex_match_inv (u : jsstring) (m : MatchArray) :
  regex_match u fileRegex = Some m ->
  exists cmd, ends_in_command file_gap u cmd /\ command_text cmd /\
              capture m 1 = Some cmd.
Proof.
  unfold regex_match. intros H. apply search_from_inv in H.
  destruct H as [a [s' [y [Eu [Hy Hm]]]]]. cbn [Nat.add] in Hy, Hm.
  apply fileRegex_inv in Hy.
  destruct Hy as [cmd [mid [arg [Es [Hcmd [Hmid [Harg Ey]]]]]]].
  exists cmd. split; [|split; [assumption|]].
  - exists a, mid, arg. split; [|now split]. now rewrite Eu, Es.
  - rewrite Hm, Ey. rewrite capture_one by (cbv; lia).
    rewrite Eu, Es. f_equal. apply substring_command.
Qed.

(** ** Matches through the optional bracketed group *)

Lemma or_else_reaches_l (a b : option MState) :
  a <> None -> or_else a b <> None.
Proof. destruct a; cbn; congruence. Qed.

Lemma or_else_reaches_r (a b : option MState) :
  b <> None -> or_else a b <> None.
Proof. destruct a; cbn; congruence. Qed.

(** A greedy run succeeds as soon as its continuation succeeds after some
    part of the text the run can take. *)
Lemma greedy_run_reaches (p : char -> bool) (k : Cont)
    (cs : list (nat * (nat * nat))) (a t : jsstring) :
  all_of p a ->
  forall i, k (mkMState t (i + List.length a) cs) <> None ->
            greedy_run p k (a ++ t) i cs <> None.
Proof.
  induction 1 as [|c a Hc Ha IH]; intros i Hk.
  - cbn [app List.length] in *. rewrite Nat.add_0_r in Hk.
    destruct t as [|c t]; cbn [greedy_run]; [assumption|].
    destruct (p c); [now apply or_else_reaches_r | assumption].
  - cbn [app greedy_run]. rewrite Hc. apply or_else_reaches_l.
    apply IH. cbn [List.length] in Hk. now rewrite Nat.add_succ_r in Hk.
Qed.

Lemma OptionalArgument_reaches (o v : jsstring) (i : nat)
    (cs : list (nat * (nat * nat))) (k : Cont) :
  optional_argument_text o ->
  k (mkMState v (i + List.length o) cs) <> None ->
  rmatch OptionalArgument (mkMState (o ++ v) i cs) k <> None.
Proof.
  intros [->|[b [-> Hb]]] Hk; unfold OptionalArgument; rewrite rmatch_Opt.
  - apply or_else_reaches_r. cbn [app List.length] in *.
    now rewrite Nat.add_0_r in Hk.
  - apply or_else_reaches_l. unfold seqs.
    cbn [fold_right groups app clear_caps].
    rewrite rmatch_Seq. rewrite <- !app_assoc.
    change (str "[" ++ b ++ str "]" ++ v) with (one "[" :: b ++ str "]" ++ v).
    drop_clear. cbn [pos].
    rewrite rmatch_Lit, N.eqb_refl. rewrite rmatch_Seq, rmatch_LazyAny.
    apply lazy_run_reaches; [exact Hb|].
    rewrite rmatch_Seq.
    change (str "]" ++ v) with (one "]" :: v).
    rewrite rmatch_Lit, N.eqb_refl. cbn [rmatch pos].
    replace (Nat.eqb (S (S i + List.length b)) i) with false
      by (symmetry; apply Nat.eqb_neq; lia).
    intros E. apply Hk. rewrite <- E. f_equal. f_equal.
    rewrite !length_app. cbn [List.length str List.map list_ascii_of_string].
    lia.
Qed.

(** The argument part accepts every gap of the file commands before an
    unclosed brace. *)
Lemma openArgument_gap (mid arg : jsstring) (i : nat)
    (cs : list (nat * (nat * nat))) (k : Cont) (z : MState) :
  file_gap mid -> all_of not_rbrace arg ->
  k (mkMState [] (i + List.length (mid ++ [lbrace] ++ arg)) cs) = Some z ->
  rmatch openArgument (mkMState (mid ++ [lbrace] ++ arg) i cs) k = Some z.
Proof.
  intros [ws1 [o [ws2 [-> [Hws1 [Ho Hws2]]]]]] Harg Hk.
  destruct (rmatch openArgument
              (mkMState ((ws1 ++ o ++ ws2) ++ [lbrace] ++ arg) i cs) k)
    as [z'|] eqn:E.
  - apply openArgument_inv in E.
    destruct E as [_ [_ [_ [_ [_ E]]]]]. congruence.
  - exfalso. revert E. unfold openArgument.
    change (seqs [Spaces; OptionalArgument; Spaces; Lit "{"; NotRbraces; Eol])
      with (Seq Spaces (Seq OptionalArgument
              (Seq Spaces (seqs [Lit "{"; NotRbraces; Eol])))).
    rewrite <- !app_assoc. rewrite rmatch_Seq, rmatch_Spaces.
    apply greedy_run_reaches; [assumption|].
    rewrite rmatch_Seq. apply OptionalArgument_reaches; [assumption|].
    rewrite rmatch_Seq, rmatch_Spaces.
    apply greedy_run_reaches; [assumption|].
    unfold seqs. cbn [fold_right app]. rewrite rmatch_Seq.
    change lbrace with (one "{"). rewrite rmatch_Lit, N.eqb_refl.
    rewrite rmatch_Seq, rmatch_NotRbraces.
    rewrite <- (app_nil_r arg).
    apply greedy_run_reaches; [assumption|].
    cbn [rmatch rest]. intros E.
    assert (E' : k (mkMState []
                      (i + List.length ((ws1 ++ o ++ ws2) ++ [lbrace] ++ arg))
                      cs) = None).
    { rewrite <- E. f_equal. f_equal. rewrite !length_app.
      cbn [List.length]. lia. }
    congruence.
Qed.

Lemma gap_boundary (mid arg : jsstring) :
  file_gap mid ->
  exists c0 u, mid ++ [lbrace] ++ arg = c0 :: u /\
               (is_space c0 = true \/ c0 = lbrace \/ c0 = 91%N).
Proof.
  intros [ws1 [o [ws2 [-> [Hws1 [Ho Hws2]]]]]].
  destruct Hws1 as [|c ws1 Hc _].
  - destruct Ho as [->|[b [-> _]]].
    + destruct Hws2 as [|c ws2 Hc _].
      * exists lbrace, arg. split; [reflexivity | right; now left].
      * exists c, (ws2 ++ [lbrace] ++ arg). split; [reflexivity | now left].
    + exists 91%N, ((b ++ str "]") ++ ws2 ++ [lbrace] ++ arg).
      split; [|right; now right].
      cbn [app]. rewrite <- !app_assoc. reflexivity.
  - exists c, ((ws1 ++ o ++ ws2) ++ [lbrace] ++ arg).
    split; [reflexivity | now left].
Qed.

(** The capturing group takes exactly the command text also when an
    opening bracket follows it. *)
Lemma fileCommands_bracket (cmd u : jsstring) (i : nat)
    (cs : list (nat * (nat * nat))) (k : Cont) (z : MState) :
  command_text cmd ->
  k (mkMState (91%N :: u) (i + List.length cmd) cs) = Some z ->
  rmatch fileCommands (mkMState (cmd ++ 91%N :: u) i cs) k = Some z.
Proof.
  intros Hcmd Hk.
  unfold fileCommands, seqs. cbn [fold_right]. rx.
  destruct Hcmd as [->|[->|[->|[->|[->|[ws [lang [Hws [Hlang ->]]]]]]]]].
  - change (List.length (str "input")) with 5%nat in Hk.
    rewrite !rmatch_Lits. ev. now rewrite Hk.
  - change (List.length (str "include")) with 7%nat in Hk.
    rewrite !rmatch_Lits. ev. drop_clear. cbn [pos].
    rewrite !rmatch_Lits. ev. now rewrite Hk.
  - change (List.length (str "includeonly")) with 11%nat in Hk.
    rewrite !rmatch_Lits. ev. drop_clear. cbn [pos].
    rewrite !rmatch_Lits. ev. cbn [pos].
    replace (Nat.eqb (i + 7 + 4) (i + 7)) with false
      by (symmetry; apply Nat.eqb_neq; lia).
    replace (i + 7 + 4)%nat with (i + 11)%nat by lia. now rewrite Hk.
  - change (List.length (str "includegraphics")) with 15%nat in Hk.
    rewrite !rmatch_Lits. ev. drop_clear. cbn [pos].
    rewrite !rmatch_Lits. ev. cbn [pos].
    replace (Nat.eqb (i + 7 + 8) (i + 7)) with false
      by (symmetry; apply Nat.eqb_neq; lia).
    replace (i + 7 + 8)%nat with (i + 15)%nat by lia. now rewrite Hk.
  - change (List.length (str "addbibresource")) with 14%nat in Hk.
    rewrite !rmatch_Lits. ev. now rewrite Hk.
  - rewrite <- !app_assoc. rewrite rmatch_Lits. ev.
    apply or_else_some. rewrite rmatch_Spaces.
    apply greedy_run_some; [assumption | reflexivity |].
    rewrite rmatch_Lit. ev. rewrite rmatch_NotRbraces.
    apply greedy_run_some; [assumption | reflexivity |].
    rewrite rmatch_Lit. ev.
    rewrite !length_app in Hk. cbn [List.length] in Hk.
    change (List.length (str "inputminted")) with 11%nat in Hk.
    rewrite <- Hk. f_equal. f_equal. lia.
Qed.

(** On a text whose first command is a file command followed by a gap and
    an unclosed brace, the file pattern captures that command. *)
Lemma fileRegex_first_command (u cmd : jsstring) :
  first_command file_gap u cmd -> command_text cmd ->
  exists m, regex_match u fileRegex = Some m /\ capture m 1 = Some cmd.
Proof.
  intros [pre [mid [arg [-> [Hpre [Hmid Harg]]]]]] Hcmd.
  set (s := [backslash] ++ cmd ++ mid ++ [lbrace] ++ arg).
  set (n0 := List.length pre).
  set (n1 := S (n0 + List.length cmd)).
  set (n2 := (n0 + List.length s)%nat).
  assert (Hrun : rmatch fileRegex (mkMState s n0 []) Some
                 = Some (mkMState [] n2 [(1, (S n0, n1))]%nat)).
  { unfold s, fileRegex, seqs. cbn [fold_right app]. rx. unfold Backslash. rx.
    rewrite N.eqb_refl. fold n1.
    destruct (gap_boundary arg Hmid) as [c0 [t [Ht Hc0]]].
    assert (Hk : rmatch openArgument
                   (mkMState (c0 :: t) n1 [(1, (S n0, n1))]%nat)
                   (fun y => Some y)
                 = Some (mkMState [] n2 [(1, (S n0, n1))]%nat)).
    { rewrite <- Ht. apply openArgument_gap; [assumption | assumption |].
      f_equal. f_equal. unfold n2, n1, s. rewrite ?length_app.
      cbn [List.length app]. rewrite ?length_app. cbn [List.length]. lia. }
    cbn [app] in Ht. rewrite Ht.
    destruct Hc0 as [Hc0|[Hc0|Hc0]].
    - apply fileCommands_command; [assumption | now left |]. rx. exact Hk.
    - apply fileCommands_command; [assumption | now right |]. rx. exact Hk.
    - subst c0. apply fileCommands_bracket; [assumption|]. rx. exact Hk. }
  exists (match_array fileRegex (pre ++ s) n0
            (mkMState [] n2 [(1, (S n0, n1))]%nat)).
  split.
  - unfold regex_match. rewrite search_fileRegex_skip by assumption.
    now apply search_from_hit.
  - rewrite capture_one by (cbv; lia). f_equal. apply substring_command.
Qed.
(** ** The environment pattern *)

Lemma envRegex_inv (s : jsstring) (i : nat) (z : MState) :
  rmatch envRegex (mkMState s i []) Some = Some z ->
  exists cmd ws arg,
    s = [backslash] ++ cmd ++ ws ++ [lbrace] ++ arg /\
    env_command cmd /\ all_space ws /\ all_of not_rbrace arg /\
    z = mkMState [] (i + List.length s)
          [(1, (S i, S i + List.length cmd))]%nat.
Proof.
  unfold envRegex.
  change (seqs [Backslash; Group 1 (Alt (Lits "begin") (Lits "end"));
                Spaces; Lit "{"; NotRbraces; Eol])
    with (Seq Backslash (Seq (Group 1 (Alt (Lits "begin") (Lits "end")))
            (Seq Spaces (seqs [Lit "{"; NotRbraces; Eol])))).
  rewrite rmatch_Seq. intros H.
  apply Backslash_inv in H. destruct H as [t [E H]].
  rewrite rmatch_Seq, rmatch_Group, rmatch_Alt in H.
  assert (Hc : exists cmd v, t = cmd ++ v /\ env_command cmd /\
             rmatch (Seq Spaces (seqs [Lit "{"; NotRbraces; Eol]))
               (mkMState v (S i + List.length cmd)
                  [(1, (S i, S i + List.length cmd))]%nat) Some = Some z).
  { apply or_else_inv in H.
    destruct H as [H|H]; apply Lits_inv in H; destruct H as [v [Et H]].
    - exists (str "begin"), v. split; [assumption|]. split; [now left|].
      exact H.
    - exists (str "end"), v. split; [assumption|]. split; [now right|].
      exact H. }
  clear H. destruct Hc as [cmd [v [Et [Hcmd H]]]].
  rewrite rmatch_Seq in H. apply Spaces_inv in H.
  destruct H as [ws [v' [Ev [Hws H]]]].
  apply open_brace_inv in H. destruct H as [arg [Ev' [Harg H]]].
  injection H as <-.
  exists cmd, ws, arg. split; [|split; [|split; [|split]]]; try assumption.
  - subst s t v v'. reflexivity.
  - f_equal. subst s t v v'. cbn [List.length app]. rewrite ?length_app.
    cbn [List.length]. lia.
Qed.

Lemma envRegex_command (cmd ws arg : jsstring) (i : nat) :
  env_command cmd -> all_space ws -> all_of not_rbrace arg ->
  rmatch envRegex
    (mkMState ([backslash] ++ cmd ++ ws ++ [lbrace] ++ arg) i []) Some
  = Some (mkMState []
            (i + List.length ([backslash] ++ cmd ++ ws ++ [lbrace] ++ arg))
            [(1, (S i, S i + List.length cmd))]%nat).
Proof.
  intros Hcmd Hws Harg.
  assert (Htail : forall n cs,
    rmatch (Seq Spaces (seqs [Lit "{"; NotRbraces; Eol]))
      (mkMState (ws ++ [lbrace] ++ arg) n cs) Some
    = Some (mkMState [] (S (n + List.length ws) + List.length arg) cs)).
  { intros n cs. rewrite rmatch_Seq, rmatch_Spaces.
    apply greedy_run_some; [assumption | reflexivity |].
    unfold seqs. cbn [fold_right app]. rewrite rmatch_Seq.
    change lbrace with (one "{"). rewrite rmatch_Lit, N.eqb_refl.
    rewrite rmatch_Seq, rmatch_NotRbraces. rewrite <- (app_nil_r arg) at 1.
    apply greedy_run_some; [assumption | exact I |]. reflexivity. }
  unfold envRegex.
  change (seqs [Backslash; Group 1 (Alt (Lits "begin") (Lits "end"));
                Spaces; Lit "{"; NotRbraces; Eol])
    with (Seq Backslash (Seq (Group 1 (Alt (Lits "begin") (Lits "end")))
            (Seq Spaces (seqs [Lit "{"; NotRbraces; Eol])))).
  cbn [app]. rewrite rmatch_Seq. unfold Backslash at 1.
  rewrite rmatch_Chr_cons, N.eqb_refl.
  rewrite rmatch_Seq, rmatch_Group, rmatch_Alt, !rmatch_Lits.
  unfold set_cap. cbn [pos rest caps].
  destruct Hcmd as [->| ->].
  - rewrite starts_with_refl.
    replace (skipn (List.length (str "begin"))
               (str "begin" ++ ws ++ lbrace :: arg))
      with (ws ++ [lbrace] ++ arg) by reflexivity.
    rewrite Htail. cbn [or_else]. f_equal. f_equal. rewrite ?length_app.
    cbn [List.length app]. rewrite ?length_app. cbn [List.length]. lia.
  - replace (starts_with (str "begin") (str "end" ++ ws ++ lbrace :: arg))
      with false by reflexivity.
    rewrite starts_with_refl. cbn [or_else].
    replace (skipn (List.length (str "end"))
               (str "end" ++ ws ++ lbrace :: arg))
      with (ws ++ [lbrace] ++ arg) by reflexivity.
    rewrite Htail. f_equal. f_equal. rewrite ?length_app.
    cbn [List.length app]. rewrite ?length_app. cbn [List.length]. lia.
Qed.

(** ** The package pattern *)

Lemma pkgRegex_inv (s : jsstring) (i : nat) (z : MState) :
  rmatch pkgRegex (mkMState s i []) Some = Some z ->
  exists cmd mid arg,
    s = [backslash] ++ cmd ++ mid ++ [lbrace] ++ arg /\
    package_command cmd /\ package_gap mid /\ all_of not_rbrace arg.
Proof.
  unfold pkgRegex.
  change (seqs [Backslash; Alt (Lits "usepackage") (Lits "documentclass");
                Spaces; OptionalArgument; Lit "{"; NotRbraces; Eol])
    with (Seq Backslash (Seq (Alt (Lits "usepackage") (Lits "documentclass"))
            (Seq Spaces (Seq OptionalArgument
               (seqs [Lit "{"; NotRbraces; Eol]))))).
  rewrite rmatch_Seq. intros H.
  apply Backslash_inv in H. destruct H as [t [E H]].
  rewrite rmatch_Seq, rmatch_Alt in H.
  assert (Hc : exists cmd v n, t = cmd ++ v /\ package_command cmd /\
             rmatch (Seq Spaces (Seq OptionalArgument
                       (seqs [Lit "{"; NotRbraces; Eol])))
               (mkMState v n []) Some = Some z).
  { apply or_else_inv in H.
    destruct H as [H|H]; apply Lits_inv in H; destruct H as [v [Et H]].
    - exists (str "usepackage"), v. eexists. split; [assumption|].
      split; [now left | exact H].
    - exists (str "documentclass"), v. eexists. split; [assumption|].
      split; [now right | exact H]. }
  clear H. destruct Hc as [cmd [v [n [Et [Hcmd H]]]]].
  rewrite rmatch_Seq in H. apply Spaces_inv in H.
  destruct H as [ws [v1 [E1 [Hws H]]]].
  rewrite rmatch_Seq in H. apply OptionalArgument_inv in H.
  destruct H as [o [v2 [E2 [Ho H]]]].
  apply open_brace_inv in H. destruct H as [arg [E3 [Harg H]]].
  exists cmd, (ws ++ o), arg. split; [|split; [|split]]; try assumption.
  - subst s t v v1 v2. cbn [app]. now rewrite <- !app_assoc.
  - now exists ws, o.
Qed.

Lemma pkgRegex_reaches (cmd mid arg : jsstring) (i : nat) :
  package_command cmd -> package_gap mid -> all_of not_rbrace arg ->
  rmatch pkgRegex
    (mkMState ([backslash] ++ cmd ++ mid ++ [lbrace] ++ arg) i []) Some
  <> None.
Proof.
  intros Hcmd [ws [o [-> [Hws Ho]]]] Harg.
  assert (Htail : forall n,
    rmatch (Seq Spaces (Seq OptionalArgument
              (seqs [Lit "{"; NotRbraces; Eol])))
      (mkMState ((ws ++ o) ++ [lbrace] ++ arg) n []) Some <> None).
  { intros n. rewrite <- app_assoc. rewrite rmatch_Seq, rmatch_Spaces.
    apply greedy_run_reaches; [assumption|].
    rewrite rmatch_Seq. apply OptionalArgument_reaches; [assumption|].
    unfold seqs. cbn [fold_right app]. rewrite rmatch_Seq.
    change lbrace with (one "{"). rewrite rmatch_Lit, N.eqb_refl.
    rewrite rmatch_Seq, rmatch_NotRbraces. rewrite <- (app_nil_r arg).
    apply greedy_run_reaches; [assumption|]. cbn [rmatch rest]. discriminate. }
  unfold pkgRegex.
  change (seqs [Backslash; Alt (Lits "usepackage") (Lits "documentclass");
                Spaces; OptionalArgument; Lit "{"; NotRbraces; Eol])
    with (Seq Backslash (Seq (Alt (Lits "usepackage") (Lits "documentclass"))
            (Seq Spaces (Seq OptionalArgument
               (seqs [Lit "{"; NotRbraces; Eol]))))).
  cbn [app]. rewrite rmatch_Seq. unfold Backslash at 1.
  rewrite rmatch_Chr_cons, N.eqb_refl. rewrite rmatch_Seq, rmatch_Alt.
  destruct Hcmd as [->| ->].
  - apply or_else_reaches_l. rewrite rmatch_Lits, starts_with_refl.
    replace (skipn (List.length (str "usepackage"))
               (str "usepackage" ++ (ws ++ o) ++ lbrace :: arg))
      with ((ws ++ o) ++ [lbrace] ++ arg) by reflexivity.
    apply Htail.
  - apply or_else_reaches_r. rewrite rmatch_Lits, starts_with_refl.
    replace (skipn (List.length (str "documentclass"))
               (str "documentclass" ++ (ws ++ o) ++ lbrace :: arg))
      with ((ws ++ o) ++ [lbrace] ++ arg) by reflexivity.
    apply Htail.
Qed.

(** ** The reference pattern *)

Lemma refRegex_eq :
  refRegex
  = Seq Backslash
      (Seq (Group 1 (Seq (Opt refPrefixes)
                       (Seq (LitsI "ref") (Seq (Opt (LitI "*")) Empty))))
         (Seq Spaces (Seq (LitI "{") (seqs [NotRbraces; Eol])))).
Proof. reflexivity. Qed.

Lemma refPrefixes_inv (u : jsstring) (i : nat) (cs : list (nat * (nat * nat)))
    (k : Cont) (z : MState) :
  rmatch refPrefixes (mkMState u i cs) k = Some z ->
  exists pfx v, u = pfx ++ v /\
    In (fold_case pfx) (List.map (fun s => fold_case (str s)) ref_prefixes) /\
    k (mkMState v (i + List.length pfx) cs) = Some z.
Proof.
  unfold refPrefixes. intros H.
  repeat (rewrite rmatch_Alt in H; apply or_else_inv in H;
          destruct H as [H|H];
          [apply LitsI_inv in H; destruct H as [w [v [Eu [Ew H]]]];
           exists w, v; split; [assumption|]; split; [|assumption];
           rewrite Ew; cbn [ref_prefixes List.map In]; tauto|]).
  apply LitsI_inv in H. destruct H as [w [v [Eu [Ew H]]]].
  exists w, v. split; [assumption|]. split; [|assumption].
  rewrite Ew. cbn [ref_prefixes List.map In]. tauto.
Qed.

Lemma LitI_inv (a : string) (u : jsstring) (i : nat)
    (cs : list (nat * (nat * nat))) (k : Cont) (z : MState) :
  in_range 97 122 (one a) = false -> in_range 65 90 (one a) = false ->
  rmatch (LitI a) (mkMState u i cs) k = Some z ->
  exists t, u = one a :: t /\ k (mkMState t (S i) cs) = Some z.
Proof.
  intros Ha HA H. apply Chr_inv in H. destruct H as [c [t [E [Hc H]]]].
  apply canonicalize_fixed in Hc; [|assumption..]. subst c. now exists t.
Qed.

(** A match of the reference pattern at an index: a backslash, a
    reference command in any letter case, whitespace and an unclosed
    brace; the one capture is the command as written. *)
Lemma refRegex_inv (s : jsstring) (i : nat) (z : MState) :
  rmatch refRegex (mkMState s i []) Some = Some z ->
  exists cmd ws arg,
    s = [backslash] ++ cmd ++ ws ++ [lbrace] ++ arg /\
    ref_command cmd /\ all_space ws /\ all_of not_rbrace arg /\
    z = mkMState [] (i + List.length s)
          [(1, (S i, S i + List.length cmd))]%nat.
Proof.
  rewrite refRegex_eq, rmatch_Seq. intros H.
  apply Backslash_inv in H. destruct H as [t [E H]].
  rewrite rmatch_Seq, rmatch_Group, rmatch_Seq, rmatch_Opt in H.
  assert (Hp : exists pfx v, t = pfx ++ v /\
             (pfx = [] \/
              In (fold_case pfx)
                 (List.map (fun s => fold_case (str s)) ref_prefixes)) /\
             rmatch (Seq (LitsI "ref") (Seq (Opt (LitI "*")) Empty))
               (mkMState v (S i + List.length pfx) [])
               (fun y => rmatch
                   (Seq Spaces (Seq (LitI "{") (seqs [NotRbraces; Eol])))
                   (set_cap 1 (S i) y) Some) = Some z).
  { apply or_else_inv in H. destruct H as [H|H].
    - change (groups refPrefixes) with (@nil nat) in H.
      cbn [clear_caps] in H. apply refPrefixes_inv in H.
      destruct H as [pfx [v [Et [Hin H]]]]. cbn [pos] in H.
      destruct (Nat.eqb (S i + List.length pfx) (S i)); [discriminate|].
      exists pfx, v. split; [assumption|]. split; [now right | exact H].
    - exists [], t. split; [reflexivity|]. split; [now left|].
      cbn [List.length]. rewrite Nat.add_0_r. exact H. }
  clear H. destruct Hp as [pfx [v [Et [Hpfx H]]]].
  rewrite rmatch_Seq in H. apply LitsI_inv in H.
  destruct H as [base [v1 [Ev [Hbase H]]]].
  rewrite rmatch_Seq, rmatch_Opt in H.
  assert (Hs : exists star v2, v1 = star ++ v2 /\
             (star = [] \/ star = str "*") /\
             rmatch (Seq Spaces (Seq (LitI "{") (seqs [NotRbraces; Eol])))
               (mkMState v2 (S i + List.length (pfx ++ base ++ star))
                  [(1, (S i, S i + List.length (pfx ++ base ++ star)))]%nat)
               Some = Some z).
  { apply or_else_inv in H. destruct H as [H|H].
    - cbn [groups LitI clear_caps] in H. fold (LitI "*") in H.
      apply LitI_inv in H; [|reflexivity..]. destruct H as [v2 [E1 H]].
      cbn [pos] in H.
      match type of H with
      | (if ?b then _ else _) = _ => destruct b; [discriminate|]
      end.
      exists (str "*"), v2. split; [assumption|]. split; [now right|].
      rewrite <- H. cbn [rmatch]. unfold set_cap. cbn [pos rest caps].
      rewrite !length_app.
      replace (S (S i + List.length pfx + List.length base))
        with (S i + (List.length pfx
                     + (List.length base + List.length (str "*"))))%nat
        by (cbn [List.length str List.map list_ascii_of_string]; lia).
      reflexivity.
    - exists [], v1. split; [reflexivity|]. split; [now left|].
      rewrite <- H. cbn [rmatch]. unfold set_cap. cbn [pos rest caps].
      rewrite app_nil_r, !length_app.
      replace (S i + List.length pfx + List.length base)%nat
        with (S i + (List.length pfx + List.length base))%nat by lia.
      reflexivity. }
  clear H. destruct Hs as [star [v2 [Ev1 [Hstar H]]]].
  rewrite rmatch_Seq in H. apply Spaces_inv in H.
  destruct H as [ws [v3 [Ev2 [Hws H]]]].
  rewrite rmatch_Seq in H. apply LitI_inv in H; [|reflexivity..].
  destruct H as [v4 [Ev3 H]].
  unfold seqs in H. cbn [fold_right] in H.
  rewrite rmatch_Seq, rmatch_NotRbraces in H.
  apply greedy_run_inv in H. destruct H as [arg [b [Ev4 [Harg H]]]].
  cbn [rmatch rest] in H. destruct b as [|c b]; [|discriminate].
  injection H as <-. rewrite app_nil_r in Ev4.
  exists (pfx ++ base ++ star), ws, arg.
  split; [|split; [|split; [|split]]]; try assumption.
  - subst s t v v1 v2 v3 v4. cbn [app]. now rewrite <- !app_assoc.
  - now exists pfx, base, star.
  - f_equal. subst s t v v1 v2 v3 v4. cbn [List.length app].
    rewrite ?length_app. cbn [List.length]. rewrite ?length_app. lia.
Qed.

Lemma fold_case_app (a b : jsstring) :
  fold_case (a ++ b) = fold_case a ++ fold_case b.
Proof. apply map_app. Qed.

Lemma fold_case_length (a b : jsstring) :
  fold_case a = fold_case b -> List.length a = List.length b.
Proof.
  intros H. apply (f_equal (@List.length _)) in H.
  unfold fold_case in H. now rewrite !length_map in H.
Qed.

(** The optional prefix takes a prefix of the list when [ref] follows. *)
Lemma refPrefixes_match (pfx base v : jsstring) (i : nat)
    (cs : list (nat * (nat * nat))) (k : Cont) (z : MState) :
  In (fold_case pfx) (List.map (fun s => fold_case (str s)) ref_prefixes) ->
  fold_case base = fold_case (str "ref") ->
  k (mkMState (base ++ v) (i + List.length pfx) cs) = Some z ->
  rmatch refPrefixes (mkMState (pfx ++ base ++ v) i cs) k = Some z.
Proof.
  intros Hin Hbase Hk. unfold refPrefixes.
  assert (Hfold : fold_case (pfx ++ base ++ v)
                  = fold_case pfx ++ fold_case (str "ref") ++ fold_case v).
  { now rewrite !fold_case_app, Hbase. }
  cbn [ref_prefixes List.map In] in Hin.
  destruct Hin as [Hp|[Hp|[Hp|[Hp|[Hp|[Hp|[Hp|[]]]]]]]]; symmetry in Hp;
    rewrite Hp in Hfold;
    repeat (rewrite rmatch_Alt;
            first [ rewrite (@LitsI_match _ k cs pfx (base ++ v) i Hp), Hk;
                    reflexivity
                  | rewrite LitsI_mismatch by (rewrite Hfold; reflexivity);
                    cbn [or_else] ]).
  now rewrite (@LitsI_match _ k cs pfx (base ++ v) i Hp).
Qed.

Lemma refPrefixes_none (base v : jsstring) (i : nat)
    (cs : list (nat * (nat * nat))) (k : Cont) :
  fold_case base = fold_case (str "ref") ->
  rmatch refPrefixes (mkMState (base ++ v) i cs) k = None.
Proof.
  intros Hbase. unfold refPrefixes.
  assert (Hfold : fold_case (base ++ v)
                  = fold_case (str "ref") ++ fold_case v).
  { now rewrite fold_case_app, Hbase. }
  repeat (rewrite rmatch_Alt;
          rewrite LitsI_mismatch by (rewrite Hfold; reflexivity);
          cbn [or_else]).
  apply LitsI_mismatch. rewrite Hfold. reflexivity.
Qed.

Lemma space_not_star (c : char) :
  is_space c = true \/ c = lbrace ->
  N.eqb (canonicalize c) (canonicalize (one "*")) = false.
Proof.
  intros H. destruct (N.eqb (canonicalize c) (canonicalize (one "*"))) eqn:E;
    [|reflexivity].
  apply canonicalize_fixed in E; [|reflexivity..]. subst c.
  destruct H as [H|H]; discriminate H.
Qed.

(** On a backslash, a reference command, whitespace and an unclosed
    brace the reference pattern matches to the end and captures the
    command as written. *)
Lemma refRegex_command (cmd ws arg : jsstring) (i : nat) :
  ref_command cmd -> all_space ws -> all_of not_rbrace arg ->
  rmatch refRegex
    (mkMState ([backslash] ++ cmd ++ ws ++ [lbrace] ++ arg) i []) Some
  = Some (mkMState []
            (i + List.length ([backslash] ++ cmd ++ ws ++ [lbrace] ++ arg))
            [(1, (S i, S i + List.length cmd))]%nat).
Proof.
  intros [pfx [base [star [-> [Hpfx [Hbase Hstar]]]]]] Hws Harg.
  set (cmd := pfx ++ base ++ star).
  set (n1 := (S i + List.length cmd)%nat).
  set (n2 := (i + List.length ([backslash] ++ cmd ++ ws ++ [lbrace] ++ arg))%nat).
  assert (Htail :
    rmatch (Seq Spaces (Seq (LitI "{") (seqs [NotRbraces; Eol])))
      (mkMState (ws ++ [lbrace] ++ arg) n1 [(1, (S i, n1))]%nat) Some
    = Some (mkMState [] n2 [(1, (S i, n1))]%nat)).
  { rewrite rmatch_Seq, rmatch_Spaces.
    apply greedy_run_some; [assumption | reflexivity |].
    rewrite rmatch_Seq. unfold LitI. cbn [app rmatch rest pos caps].
    replace (N.eqb (canonicalize lbrace) (canonicalize (one "{"))) with true
      by reflexivity.
    unfold seqs. cbn [fold_right]. rewrite rmatch_Seq, rmatch_NotRbraces.
    rewrite <- (app_nil_r arg) at 1.
    apply greedy_run_some; [assumption | exact I |].
    cbn [rmatch rest]. f_equal. f_equal. unfold n2, n1.
    cbn [List.length app]. rewrite ?length_app. cbn [List.length]. lia. }
  assert (Hstar' :
    rmatch (Seq (Opt (LitI "*")) Empty)
      (mkMState (star ++ ws ++ [lbrace] ++ arg)
         (S i + List.length pfx + List.length base) [])
      (fun y => rmatch
          (Seq Spaces (Seq (LitI "{") (seqs [NotRbraces; Eol])))
          (set_cap 1 (S i) y) Some)
    = Some (mkMState [] n2 [(1, (S i, n1))]%nat)).
  { rewrite rmatch_Seq, rmatch_Opt.
    cbn [groups LitI clear_caps]. fold (LitI "*").
    destruct Hstar as [Hs|Hs].
    - destruct (boundary_char arg Hws) as [c0 [t [Ht Hc0]]].
      unfold LitI at 1. subst star. cbn [app]. cbn [app] in Ht. rewrite Ht.
      cbn [rmatch rest pos caps]. rewrite (space_not_star Hc0).
      cbn [or_else rmatch].
      rewrite <- Ht. unfold set_cap. cbn [pos rest caps].
      replace (S i + List.length pfx + List.length base)%nat with n1
        by (unfold n1, cmd; subst; rewrite !length_app; cbn [List.length]; lia).
      exact Htail.
    - unfold LitI at 1. subst star. cbn [app str List.map list_ascii_of_string].
      cbn [rmatch rest pos caps].
      replace (N.eqb (canonicalize (N_of_ascii "*"))
                 (canonicalize (one "*"))) with true by reflexivity.
      cbn [pos rmatch].
      replace (Nat.eqb (S (S i + List.length pfx + List.length base))
                 (S i + List.length pfx + List.length base)) with false
        by (symmetry; apply Nat.eqb_neq; lia).
      unfold set_cap. cbn [pos rest caps].
      replace (S (S i + List.length pfx + List.length base))%nat with n1
        by (unfold n1, cmd; rewrite !length_app;
            change (List.length (str "*")) with 1%nat; lia).
      apply or_else_some. exact Htail. }
  assert (Hbase' :
    rmatch (Seq (LitsI "ref") (Seq (Opt (LitI "*")) Empty))
      (mkMState (base ++ star ++ ws ++ [lbrace] ++ arg)
         (S i + List.length pfx) [])
      (fun y => rmatch
          (Seq Spaces (Seq (LitI "{") (seqs [NotRbraces; Eol])))
          (set_cap 1 (S i) y) Some)
    = Some (mkMState [] n2 [(1, (S i, n1))]%nat)).
  { rewrite rmatch_Seq. rewrite LitsI_match by assumption. exact Hstar'. }
  rewrite refRegex_eq. cbn [app]. rewrite rmatch_Seq. unfold Backslash at 1.
  rewrite rmatch_Chr_cons, N.eqb_refl.
  rewrite rmatch_Seq, rmatch_Group, rmatch_Seq, rmatch_Opt.
  change (groups refPrefixes) with (@nil nat). cbn [clear_caps pos].
  unfold cmd. rewrite <- !app_assoc.
  destruct Hpfx as [->|Hin].
  - cbn [app List.length] in *. rewrite Nat.add_0_r in Hbase'.
    rewrite refPrefixes_none by assumption. cbn [or_else]. exact Hbase'.
  - apply or_else_some.
    apply refPrefixes_match; [assumption | assumption |].
    cbn [pos].
    assert (Hlen : List.length pfx <> 0%nat).
    { cbn [ref_prefixes List.map In] in Hin.
      destruct Hin as [Hp|[Hp|[Hp|[Hp|[Hp|[Hp|[Hp|[]]]]]]]];
        apply fold_case_length in Hp; rewrite <- Hp; discriminate. }
    replace (Nat.eqb (S i + List.length pfx) (S i)) with false
      by (symmetry; apply Nat.eqb_neq; lia).
    exact Hbase'.
Qed.
(** ** The directive pattern read backwards *)

Lemma rmatch_Bol (x : MState) (k : Cont) :
  rmatch Bol x k = if Nat.eqb (pos x) 0 then k x else None.
Proof. reflexivity. Qed.

(** A match of the directive pattern starts at index 0 and reads a
    directive comment. *)
Lemma magicFileRegex_inv (s : jsstring) (i : nat) (z : MState) :
  rmatch magicFileRegex (mkMState s i []) Some = Some z ->
  i = 0%nat /\
  exists ws0 ws1 tex ws2 kind ws3 ws4 tail,
    s = ws0 ++ str "%" ++ ws1 ++ str "!" ++ tex ++ ws2 ++ kind ++ ws3
        ++ str "=" ++ ws4 ++ tail /\
    all_space ws0 /\ all_space ws1 /\ all_space ws2 /\ ws2 <> [] /\
    all_space ws3 /\ all_space ws4 /\ tex_of_pattern tex /\
    (kind = str "root" \/ kind = str "bib").
Proof.
  unfold magicFileRegex, seqs. cbn [fold_right].
  rewrite rmatch_Seq, rmatch_Bol. cbn [pos].
  destruct (Nat.eqb i 0) eqn:Hi; [|discriminate].
  apply Nat.eqb_eq in Hi. intros H. split; [assumption|].
  rewrite rmatch_Seq in H. apply Spaces_inv in H.
  destruct H as [ws0 [v0 [E0 [H0 H]]]].
  rewrite rmatch_Seq in H. apply Lit_inv in H. destruct H as [v1 [E1 H]].
  rewrite rmatch_Seq in H. apply Spaces_inv in H.
  destruct H as [ws1 [v2 [E2 [H1 H]]]].
  rewrite rmatch_Seq in H. apply Lit_inv in H. destruct H as [v3 [E3 H]].
  rewrite rmatch_Seq in H. apply Lit_inv in H. destruct H as [v4 [E4 H]].
  rewrite rmatch_Seq in H. apply Chr_inv in H.
  destruct H as [c [v5 [E5 [Hc H]]]].
  rewrite rmatch_Seq in H. apply Lit_inv in H. destruct H as [v6 [E6 H]].
  rewrite rmatch_Seq in H. unfold Spaces1 in H. rewrite rmatch_Seq in H.
  apply Chr_inv in H. destruct H as [c2 [v7 [E7 [Hc2 H]]]].
  apply Spaces_inv in H. destruct H as [ws2 [v8 [E8 [H2 H]]]].
  rewrite rmatch_Seq, rmatch_Group, rmatch_Alt in H.
  assert (Hk : exists kind v9 n cs, v8 = kind ++ v9 /\
             (kind = str "root" \/ kind = str "bib") /\
             rmatch (Seq Spaces (Seq (Lit "=") (Seq Spaces Empty)))
               (mkMState v9 n cs) Some = Some z).
  { apply or_else_inv in H.
    destruct H as [H|H]; apply Lits_inv in H; destruct H as [v9 [E9 H]].
    - exists (str "root"), v9. do 2 eexists. split; [assumption|].
      split; [now left | exact H].
    - exists (str "bib"), v9. do 2 eexists. split; [assumption|].
      split; [now right | exact H]. }
  clear H. destruct Hk as [kind [v9 [n [cs [E9 [Hkind H]]]]]].
  rewrite rmatch_Seq in H. apply Spaces_inv in H.
  destruct H as [ws3 [v10 [E10 [H3 H]]]].
  rewrite rmatch_Seq in H. apply Lit_inv in H. destruct H as [v11 [E11 H]].
  rewrite rmatch_Seq in H. apply Spaces_inv in H.
  destruct H as [ws4 [tail [E12 [H4 H]]]].
  exists ws0, ws1, [one "T"; c; one "X"], (c2 :: ws2), kind, ws3, ws4, tail.
  split; [|split; [|split; [|split; [|split; [|split; [|split; [|split]]]]]]];
    try assumption.
  - subst s v0 v1 v2 v3 v4 v5 v6 v7 v8 v9 v10 v11. cbn [app].
    repeat (rewrite <- ?app_assoc; cbn [app]; f_equal).
  - now constructor.
  - discriminate.
  - apply orb_prop in Hc. destruct Hc as [Hc|Hc]; apply N.eqb_eq in Hc;
      subst c; [now left | now right].
Qed.

(** The pattern is anchored: it is found in a line only at its start. *)
Lemma regex_match_magic_inv (l : jsstring) (m : MatchArray) :
  regex_match l magicFileRegex = Some m ->
  exists kind rest p,
    directive_line tex_of_pattern l kind rest /\
    l = p ++ rest /\ m = mkMatchArray p [Some kind].
Proof.
  intros Hm. pose proof Hm as H. unfold regex_match in H.
  apply search_from_inv in H. destruct H as [a [s' [y [El [Hy _]]]]].
  apply magicFileRegex_inv in Hy. destruct Hy as [Ha Hy].
  cbn [Nat.add] in Ha. destruct a as [|c a]; [|discriminate]. clear Ha.
  cbn [app] in El. subst s'.
  destruct Hy as [ws0 [ws1 [tex [ws2 [kind [ws3 [ws4 [tail
                   [E [H0 [H1 [H2 [Hne [H3 [H4 [Htex Hkind]]]]]]]]]]]]]]]].
  set (ws4' := ws4 ++ take_while is_space tail).
  set (rest' := drop_while is_space tail).
  assert (Hws4 : all_space ws4').
  { apply all_of_app; [assumption | apply take_while_all]. }
  assert (Hrest : stops is_space rest') by apply drop_while_stops.
  assert (El : l = (ws0 ++ str "%" ++ ws1 ++ str "!" ++ tex ++ ws2 ++ kind
                    ++ ws3 ++ str "=" ++ ws4') ++ rest').
  { rewrite E. unfold ws4', rest'. rewrite <- !app_assoc.
    now rewrite take_drop_while. }
  exists kind, rest'. eexists. split; [|split; [exact El|]].
  - exists ws0, ws1, tex, ws2, ws3, ws4'. rewrite El at 1.
    rewrite <- !app_assoc. now repeat split.
  - pose proof (@magicFileRegex_directive ws0 ws1 tex ws2 kind ws3 ws4' rest'
                  H0 H1 H2 Hne H3 Hws4 Htex Hkind Hrest) as Hd.
    cbv zeta in Hd. rewrite <- El in Hd. rewrite Hd in Hm.
    now injection Hm as <-.
Qed.
(** * Further properties of the classifiers *)

(** ** [getBraceContents] *)

Lemma In_slice (l : jsstring) (a b : Z) (c : char) :
  0 <= a <= b -> In c (slice l a b) ->
  exists i, a <= i < b /\ charAt l i = Some c.
Proof.
  intros Hab Hin. unfold slice, rel_index in Hin.
  destruct (Z.ltb_spec a 0); [lia|]. destruct (Z.ltb_spec b 0); [lia|].
  apply In_nth_error in Hin. destruct Hin as [j Hj].
  rewrite nth_error_firstn in Hj.
  destruct (Nat.ltb_spec j (Z.to_nat (Z.min b (len l) - Z.min a (len l))));
    [|discriminate].
  rewrite nth_error_skipn in Hj.
  assert (Hlt : (Z.to_nat (Z.min a (len l)) + j < List.length l)%nat).
  { apply nth_error_Some. congruence. }
  unfold len in *. exists (Z.of_nat (Z.to_nat (Z.min a (Z.of_nat (List.length l))) + j)).
  split; [lia|]. now rewrite charAt_nat.
Qed.

Lemma slice_empty (l : jsstring) (a : Z) : slice l a a = [].
Proof. unfold slice. now rewrite Z.sub_diag. Qed.

Lemma found_contents_row (editor : Editor) (p q : Point) (s e : Z) :
  row p = row q -> found_contents editor p s e = found_contents editor q s e.
Proof. unfold found_contents, inner_range. now intros ->. Qed.

(** X1. Every cursor position inside the group that [getBraceContents]
    found gives the same result: when a call succeeds, a call with the
    cursor at any column of the returned range, both ends included, on the
    same row returns the same value and range. *)
Theorem getBraceContents_same_group (editor : Editor) (point point' : Point)
    (context : Context) (r : BraceContents) :
  getBraceContents editor point context = Some r ->
  row point' = row point ->
  column (range_start (bc_range r)) <= column point'
    <= column (range_end (bc_range r)) ->
  getBraceContents editor point' context = Some r.
Proof.
  intros H Hrow Hcol.
  destruct (getBraceContents_cases editor point context)
    as [[Hnull _]|[s [e [Henc Hsome]]]]; [congruence|].
  rewrite Hsome in H. injection H as Hr. subst r.
  cbn [found_contents inner_range bc_range range_start range_end column]
    in Hcol.
  rewrite (@getBraceContents_enclosed editor point' context s e).
  - f_equal. now apply found_contents_row.
  - destruct Henc as [Hse [Hs [He Hin]]].
    split; [lia|]. split; [assumption|]. split; assumption.
Qed.

Lemma getBraceContents_same_group_witness :
  getBraceContents (buffer_editor [str "\cite{abc}"]) (mkPoint 0 9)
    (line_context (str "\cite{abc}"))
  = Some (mkBraceContents (str "abc") (mkRange (mkPoint 0 6) (mkPoint 0 9))).
Proof.
  apply (@getBraceContents_same_group
           (buffer_editor [str "\cite{abc}"]) (mkPoint 0 7) (mkPoint 0 9)
           (line_context (str "\cite{abc}"))).
  - reflexivity.
  - reflexivity.
  - cbn. lia.
Defined.

(** X2. The range [getBraceContents] returns lies around the cursor and
    inside the line: its start column is at least 1 and at most the cursor
    column, its end column is at least the cursor column and less than the
    length of the line.  The text of the line between the two columns
    holds no brace, and so does the returned value when the editor shows
    that line. *)
Theorem getBraceContents_around_cursor (editor : Editor) (point : Point)
    (context : Context) (r : BraceContents) :
  getBraceContents editor point context = Some r ->
  1 <= column (range_start (bc_range r)) <= column point /\
  column point <= column (range_end (bc_range r)) < len (line context) /\
  brace_free (slice (line context) (column (range_start (bc_range r)))
                (column (range_end (bc_range r)))) /\
  (shows_line editor (row point) (line context) ->
   bc_value r = slice (line context) (column (range_start (bc_range r)))
                  (column (range_end (bc_range r)))).
Proof.
  intros H.
  destruct (getBraceContents_cases editor point context)
    as [[Hnull _]|[s [e [Henc Hsome]]]]; [congruence|].
  rewrite Hsome in H. injection H as Hr. subst r.
  cbn [found_contents inner_range bc_range bc_value range_start range_end
       column].
  destruct Henc as [Hse [Hs [He Hin]]].
  pose proof (charAt_some_bounds _ _ Hs) as Bs.
  pose proof (charAt_some_bounds _ _ He) as Be.
  split; [lia|]. split; [lia|]. split.
  - intros c Hc. apply In_slice in Hc; [|lia].
    destruct Hc as [i [Hi Hci]].
    destruct (Hin i ltac:(lia)) as [Hl Hr]. split; congruence.
  - intros Hshow. apply Hshow; lia.
Qed.

Lemma getBraceContents_around_cursor_witness :
  1 <= 6 <= 7 /\ 7 <= 9 < len (str "\cite{abc}") /\
  brace_free (slice (str "\cite{abc}") 6 9) /\
  (shows_line (buffer_editor [str "\cite{abc}"]) 0 (str "\cite{abc}") ->
   str "abc" = slice (str "\cite{abc}") 6 9).
Proof.
  exact (@getBraceContents_around_cursor
           (buffer_editor [str "\cite{abc}"]) (mkPoint 0 7)
           (line_context (str "\cite{abc}"))
           (mkBraceContents (str "abc")
              (mkRange (mkPoint 0 6) (mkPoint 0 9))) eq_refl).
Defined.

(** X3. An empty group is found, not rejected: with the cursor between a
    [{] and the [}] that directly follows it, [getBraceContents] returns
    the empty range at the cursor column, and the empty string as the
    value when the editor shows the line. *)
Theorem getBraceContents_empty_group (editor : Editor) (point : Point)
    (context : Context) :
  charAt (line context) (column point - 1) = Some lbrace ->
  charAt (line context) (column point) = Some rbrace ->
  let rg := mkRange (mkPoint (row point) (column point))
                    (mkPoint (row point) (column point)) in
  getBraceContents editor point context
  = Some (mkBraceContents (getTextInBufferRange editor rg) rg) /\
  (shows_line editor (row point) (line context) ->
   getBraceContents editor point context = Some (mkBraceContents [] rg)).
Proof.
  intros Hl Hr rg.
  assert (Henc : encloses (line context) (column point)
                   (column point - 1) (column point)).
  { repeat split; try assumption; lia. }
  pose proof (@getBraceContents_enclosed editor point context _ _ Henc) as H.
  unfold found_contents, inner_range in H.
  replace (column point - 1 + 1) with (column point) in H by lia.
  fold rg in H. split; [exact H|].
  intros Hshow. rewrite H. f_equal. f_equal. unfold rg.
  pose proof (charAt_some_bounds _ _ Hr) as B.
  pose proof (charAt_some_bounds _ _ Hl) as B'.
  rewrite Hshow by lia. apply slice_empty.
Qed.

Lemma getBraceContents_empty_group_witness :
  getBraceContents (buffer_editor [str "\input{}"]) (mkPoint 0 7)
    (line_context (str "\input{}"))
  = Some (mkBraceContents []
            (mkRange (mkPoint 0 7) (mkPoint 0 7))).
Proof.
  apply (@getBraceContents_empty_group
           (buffer_editor [str "\input{}"]) (mkPoint 0 7)
           (line_context (str "\input{}")) eq_refl eq_refl).
  apply buffer_editor_shows_line. reflexivity.
Defined.
(** ** [isMagicFilePath] *)

(** X4. [isMagicFilePath] answers on directive comments only: whenever it
    returns a result, the line is a directive comment [% !TeX kind = rest]
    with [TeX] spelt [TeX] or [TEX] and the kind [root] or [bib], [rest]
    being the line from its first character after [=] that is not
    whitespace; the cursor offset is at or after the start of [rest], and
    the result is the kind, the span of [rest] up to the end of the line on
    the row of the cursor, and [rest] itself as the path. *)
Theorem isMagicFilePath_only_directives (editor : Editor) (point : Point)
    (context : Context) (r : FileResult) :
  isMagicFilePath editor point context = Some r ->
  exists kind rest,
    directive_line tex_of_pattern (line context) kind rest /\
    len (line context) - len rest <= index context /\
    r = mkFileResult (Some kind)
          (mkRange (mkPoint (row point) (len (line context) - len rest))
                   (mkPoint (row point) (len (line context))))
          (Some rest).
Proof.
  unfold isMagicFilePath. cbv zeta.
  destruct (regex_match (line context) magicFileRegex) as [m|] eqn:Hm;
    [|discriminate].
  apply regex_match_magic_inv in Hm.
  destruct Hm as [kind [rest [p [Hdir [Hl ->]]]]].
  cbn [whole capture captures nth].
  destruct (Z.ltb_spec (index context) (len p)) as [|Hidx]; [discriminate|].
  intros H. injection H as <-. exists kind, rest.
  assert (Hp : len (line context) - len rest = len p).
  { rewrite Hl, len_app. lia. }
  split; [assumption|]. split; [lia|].
  rewrite Hp. rewrite Range_new_ordered
    by (rewrite Hl, len_app; pose proof (len_nonneg rest); lia).
  f_equal. f_equal. rewrite Hl. apply slice_from_suffix.
Qed.

Lemma isMagicFilePath_only_directives_witness :
  exists kind rest,
    directive_line tex_of_pattern (str "%!TEX  bib=refs.bib ") kind rest /\
    len (str "%!TEX  bib=refs.bib ") - len rest <= 12 /\
    mkFileResult (Some (str "bib"))
      (mkRange (mkPoint 2 11) (mkPoint 2 20)) (Some (str "refs.bib "))
    = mkFileResult (Some kind)
        (mkRange (mkPoint 2 (len (str "%!TEX  bib=refs.bib ") - len rest))
                 (mkPoint 2 (len (str "%!TEX  bib=refs.bib "))))
        (Some rest).
Proof.
  exact (@isMagicFilePath_only_directives (buffer_editor []) (mkPoint 2 12)
           (mkContext (str "%!TEX  bib=refs.bib ") 12 [] no_range 0 0 [])
           (mkFileResult (Some (str "bib"))
              (mkRange (mkPoint 2 11) (mkPoint 2 20))
              (Some (str "refs.bib ")))
           eq_refl).
Defined.

Lemma drop_while_space_percent (ws t : jsstring) :
  all_space ws -> trim_start (ws ++ str "%" ++ t) = str "%" ++ t.
Proof.
  intros Hws. unfold trim_start. rewrite drop_while_all by assumption.
  reflexivity.
Qed.

(** X5. The directive must open the line: when the first character of the
    line that is not whitespace is not [%], or the line holds whitespace
    only, [isMagicFilePath] returns [false], whatever follows on the line
    and wherever the cursor is. *)
Theorem isMagicFilePath_anchored (editor : Editor) (point : Point)
    (context : Context) :
  starts_with (str "%") (trim_start (line context)) = false ->
  isMagicFilePath editor point context = None.
Proof.
  intros Hno.
  destruct (isMagicFilePath editor point context) as [r|] eqn:H;
    [|reflexivity].
  exfalso. apply not_true_iff_false in Hno. apply Hno. unfold isMagicFilePath in H. cbv zeta in H.
  destruct (regex_match (line context) magicFileRegex) as [m|] eqn:Hm;
    [|discriminate].
  apply regex_match_magic_inv in Hm.
  destruct Hm as [kind [rest [p [Hdir _]]]].
  destruct Hdir as [ws0 [ws1 [tex [ws2 [ws3 [ws4 [Hl [H0 _]]]]]]]].
  rewrite Hl, drop_while_space_percent by assumption.
  apply starts_with_refl.
Qed.

Lemma isMagicFilePath_anchored_witness :
  isMagicFilePath (buffer_editor []) (mkPoint 0 30)
    (mkContext (str "\input{a} % !TeX root = main.tex") 30 [] no_range 0 0 [])
  = None.
Proof.
  apply (@isMagicFilePath_anchored (buffer_editor []) (mkPoint 0 30)
           (mkContext (str "\input{a} % !TeX root = main.tex") 30 []
              no_range 0 0 [])).
  reflexivity.
Defined.
(** ** [isFilePath] *)

Lemma isFilePath_command (editor : Editor) (point : Point) (context : Context)
    (r : FileResult) :
  isFilePath editor point context = Return (Some r) ->
  command r = file_command context /\
  (builds_range (command r) = true ->
   column (range_start (fr_range r)) <= index context
     <= column (range_end (fr_range r))).
Proof.
  unfold isFilePath, file_command. cbv zeta.
  destruct (regex_match _ fileRegex) as [m|]; [|discriminate].
  unfold builds_range. generalize (capture m 1). intros c.
  destruct (strict_eq c "input") eqn:E1.
  - intros H. apply trimmed_name_result in H. destruct H as [Hc [_ H]].
    now split.
  - destruct (strict_eq c "include" || strict_eq c "includeonly") eqn:E2.
    + match goal with
      | |- (if ?b then _ else _) = _ -> _ => destruct b
      end; [discriminate|].
      intros H. apply trimmed_name_result in H. destruct H as [Hc [_ H]].
      now split.
    + destruct (strict_eq c "includegraphics");
        intros H; injection H as Hq; subst r; cbn [command fr_range];
        (split; [reflexivity|]); rewrite E1; cbn [orb]; rewrite E2;
        discriminate.
Qed.

(** X8. [isFilePath] answers only in front of a file command: whenever it
    does not return [false], the text before the cursor holds a backslash,
    one of the command texts of the pattern ([input], [include],
    [includeonly], [includegraphics], [addbibresource], or [inputminted]
    with its first brace group), a gap of whitespace with an optional
    bracketed group, and a brace that is not closed before the cursor; and
    the command of every result it returns is that command text. *)
Theorem isFilePath_only_commands (editor : Editor) (point : Point)
    (context : Context) :
  isFilePath editor point context <> Return None ->
  exists cmd,
    command_text cmd /\
    ends_in_command file_gap (before_cursor context) cmd /\
    forall r, isFilePath editor point context = Return (Some r) ->
              command r = Some cmd.
Proof.
  intros Hne.
  destruct (regex_match (before_cursor context) fileRegex) as [m|] eqn:Hm.
  - pose proof Hm as Hinv. apply fileRegex_match_inv in Hinv.
    destruct Hinv as [cmd [Hends [Hcmd Hcap]]].
    exists cmd. split; [assumption|]. split; [assumption|].
    intros r Hr. apply isFilePath_command in Hr. destruct Hr as [Hr _].
    rewrite Hr. unfold file_command. fold (before_cursor context).
    now rewrite Hm.
  - exfalso. apply Hne. now apply isFilePath_no_match.
Qed.

Lemma isFilePath_only_commands_witness :
  exists cmd,
    command_text cmd /\
    ends_in_command file_gap (before_cursor inputminted_context) cmd /\
    forall r, isFilePath (buffer_editor []) (mkPoint 0 21) inputminted_context
              = Return (Some r) ->
              command r = Some cmd.
Proof.
  apply (@isFilePath_only_commands (buffer_editor []) (mkPoint 0 21)
           inputminted_context).
  intros H. vm_compute in H. discriminate H.
Defined.

(** X9. An optional bracketed group between a file command and its brace
    is skipped, with whitespace allowed on both sides of it (the group
    holding no line terminator): when the first backslash before the
    cursor starts a file command followed by such a gap and an unclosed
    brace, the pattern captures that command; for every command other than
    [input], [include] and [includeonly] the result is then the command
    with the range and the value of the context record. *)
Theorem isFilePath_optional_argument :
  (forall context cmd,
     command_text cmd ->
     first_command file_gap (before_cursor context) cmd ->
     file_command context = Some cmd)
  /\ (forall editor point context cmd,
        command_text cmd ->
        cmd <> str "input" -> cmd <> str "include" ->
        cmd <> str "includeonly" ->
        first_command file_gap (before_cursor context) cmd ->
        isFilePath editor point context
        = Return (Some (mkFileResult (Some cmd) (range context)
                          (Some (value context))))).
Proof.
  split.
  - intros context cmd Hcmd Hfirst.
    destruct (fileRegex_first_command Hfirst Hcmd) as [m [Hm Hcap]].
    unfold file_command. fold (before_cursor context). now rewrite Hm.
  - intros editor point context cmd Hcmd H1 H2 H3 Hfirst.
    destruct (fileRegex_first_command Hfirst Hcmd) as [m [Hm Hcap]].
    apply isFilePath_other_branch; try congruence.
    exists m. split; assumption.
Qed.

Lemma isFilePath_optional_argument_witness :
  command_text (str "includegraphics") /\
  first_command file_gap (str "\includegraphics [width=2cm] {fig")
    (str "includegraphics") /\
  isFilePath (buffer_editor []) (mkPoint 0 30)
    (mkContext (str "\includegraphics [width=2cm] {fig}") 33 (str "fig")
       (mkRange (mkPoint 0 30) (mkPoint 0 33)) 30 33 [])
  = Return (Some (mkFileResult (Some (str "includegraphics"))
                    (mkRange (mkPoint 0 30) (mkPoint 0 33))
                    (Some (str "fig")))).
Proof.
  assert (Hcmd : command_text (str "includegraphics")).
  { do 3 right. now left. }
  assert (Hfirst : first_command file_gap
                     (str "\includegraphics [width=2cm] {fig")
                     (str "includegraphics")).
  { exists [], (str " [width=2cm] "), (str "fig").
    split; [reflexivity|]. split; [intros []|]. split.
    - exists (str " "), (str "[width=2cm]"), (str " ").
      split; [reflexivity|]. split; [repeat constructor|].
      split; [|repeat constructor].
      right. exists (str "width=2cm"). split; [reflexivity|].
      repeat constructor.
    - repeat constructor. }
  split; [exact Hcmd|]. split; [exact Hfirst|].
  apply (proj2 isFilePath_optional_argument (buffer_editor []) (mkPoint 0 30)
           (mkContext (str "\includegraphics [width=2cm] {fig}") 33
              (str "fig") (mkRange (mkPoint 0 30) (mkPoint 0 33)) 30 33 [])
           (str "includegraphics") Hcmd);
    [discriminate | discriminate | discriminate | exact Hfirst].
Defined.

(** X10. The options of [\inputminted] are not looked for in front of its
    first brace group: when the only backslash before the cursor is that
    of [\inputminted] and an opening bracket directly follows the name,
    [isFilePath] returns [false], whatever follows the bracket. *)
Theorem isFilePath_inputminted_options (editor : Editor) (point : Point)
    (context : Context) (pre tail : jsstring) :
  before_cursor context = pre ++ str "\inputminted[" ++ tail ->
  ~ In backslash pre -> ~ In backslash tail ->
  isFilePath editor point context = Return None.
Proof.
  intros Hu Hpre Htail. apply isFilePath_no_match.
  fold (before_cursor context). rewrite Hu. unfold regex_match.
  rewrite search_fileRegex_skip by assumption.
  change (str "\inputminted[" ++ tail)
    with (backslash :: str "inputminted[" ++ tail).
  rewrite search_from_skip.
  - change fileRegex
      with (Seq Backslash (seqs [Group 1 fileCommands; openArgument])).
    apply search_no_backslash.
    intros Hin. apply in_app_or in Hin. destruct Hin as [Hin|Hin].
    + revert Hin. unfold backslash. cbn. intuition discriminate.
    + contradiction.
  - generalize (0 + List.length pre)%nat as i. intros i.
    vm_compute. reflexivity.
Qed.

Lemma isFilePath_inputminted_options_witness :
  isFilePath (buffer_editor []) (mkPoint 0 27)
    (mkContext (str "\inputminted[frame=lines]{c}{a.c}") 29 (str "a.c")
       (mkRange (mkPoint 0 29) (mkPoint 0 32)) 29 32 [])
  = Return None.
Proof.
  apply (@isFilePath_inputminted_options (buffer_editor []) (mkPoint 0 27)
           (mkContext (str "\inputminted[frame=lines]{c}{a.c}") 29
              (str "a.c") (mkRange (mkPoint 0 29) (mkPoint 0 32)) 29 32 [])
           [] (str "frame=lines]{c}{")).
  - reflexivity.
  - intros [].
  - cbn. unfold backslash. intuition discriminate.
Defined.

(** X11. For [input], [include] and [includeonly] the cursor offset lies
    inside the range [isFilePath] returns, both ends included. *)
Theorem isFilePath_cursor_in_range (editor : Editor) (point : Point)
    (context : Context) (r : FileResult) :
  isFilePath editor point context = Return (Some r) ->
  builds_range (command r) = true ->
  column (range_start (fr_range r)) <= index context
    <= column (range_end (fr_range r)).
Proof. intros H. now apply isFilePath_command in H. Qed.

Lemma isFilePath_cursor_in_range_witness : 12 <= 12 <= 13.
Proof.
  exact (@isFilePath_cursor_in_range (buffer_editor []) (mkPoint 0 12)
           include_context
           (mkFileResult (Some (str "include"))
              (mkRange (mkPoint 0 12) (mkPoint 0 13)) (Some (str "b")))
           eq_refl eq_refl).
Defined.

(** ** The path of the trimming branches *)

Lemma trim_ends (s : jsstring) :
  stops is_space (trim s) /\ stops is_space (rev (trim s)).
Proof.
  split.
  - pose proof (trim_stops s) as H. destruct (trim s); [exact I | exact H].
  - unfold trim. rewrite rev_involutive. apply drop_while_stops.
Qed.

Lemma trimmed_name_path (point : Point) (idx : Z) (cmd : option jsstring)
    (text : jsstring) (from to : Z) (r : FileResult) :
  trimmed_name point idx cmd text from to = Return (Some r) ->
  path r = Some (trim text) /\ single_line (trim text).
Proof.
  intros H. destruct (single_line_dec (trim text)) as [Hl|Hl].
  - split; [|assumption]. rewrite trimmed_name_spec in H by assumption.
    injection H as H.
    match type of H with
    | (if ?b then _ else _) = _ => destruct b; [discriminate|]
    end.
    injection H as <-. reflexivity.
  - apply (trimmed_name_throws_iff point idx cmd text from to) in Hl.
    congruence.
Qed.

(** X12. The path [isFilePath] returns for [input], [include] and
    [includeonly] is a string that neither starts nor ends with
    whitespace and holds no line terminator. *)
Theorem isFilePath_path_trimmed (editor : Editor) (point : Point)
    (context : Context) (r : FileResult) :
  isFilePath editor point context = Return (Some r) ->
  builds_range (command r) = true ->
  exists p, path r = Some p /\ stops is_space p /\
            stops is_space (rev p) /\ single_line p.
Proof.
  unfold isFilePath. cbv zeta.
  destruct (regex_match _ fileRegex) as [m|]; [|discriminate].
  unfold builds_range. generalize (capture m 1). intros c.
  assert (Htrim : forall text, path r = Some (trim text) /\
                               single_line (trim text) ->
            exists p, path r = Some p /\ stops is_space p /\
                      stops is_space (rev p) /\ single_line p).
  { intros text [Hp Hl]. exists (trim text).
    destruct (trim_ends text). now repeat split. }
  destruct (strict_eq c "input") eqn:E1.
  - intros H _. apply trimmed_name_path in H. now apply Htrim in H.
  - destruct (strict_eq c "include" || strict_eq c "includeonly") eqn:E2.
    + match goal with
      | |- (if ?b then _ else _) = _ -> _ => destruct b
      end; [discriminate|].
      intros H _. apply trimmed_name_path in H. now apply Htrim in H.
    + destruct (strict_eq c "includegraphics");
        intros H; injection H as Hq; subst r; cbn [command];
        rewrite E1; cbn [orb]; rewrite E2; discriminate.
Qed.

Lemma isFilePath_path_trimmed_witness :
  exists p, Some (str "a") = Some p /\ stops is_space p /\
            stops is_space (rev p) /\ single_line p.
Proof.
  exact (@isFilePath_path_trimmed (buffer_editor []) (mkPoint 0 8)
           input_context
           (mkFileResult (Some (str "input"))
              (mkRange (mkPoint 0 8) (mkPoint 0 9)) (Some (str "a")))
           eq_refl eq_refl).
Defined.
(** ** The segment of an [\include] list around any offset *)

Lemma all_not_comma (s : jsstring) : all_of not_comma s -> ~ In comma s.
Proof.
  intros H Hin. unfold all_of in H. rewrite Forall_forall in H.
  apply H in Hin. unfold not_comma in Hin. now rewrite N.eqb_refl in Hin.
Qed.

Lemma stops_not_comma (s : jsstring) :
  stops not_comma s -> s = [] \/ exists q, s = comma :: q.
Proof.
  destruct s as [|c q]; [now left|]. cbn. unfold not_comma. intros H.
  apply negb_false_iff, N.eqb_eq in H. subst c. right. now exists q.
Qed.

(** Every offset into a text lies in exactly one comma-delimited segment
    of it; here is that segment. *)
Lemma segment_exists (v : jsstring) :
  forall k, 0 <= k <= len v -> exists pre seg post, segment_at v k pre seg post.
Proof.
  induction v as [|c t IH]; intros k Hk.
  - exists [], [], []. unfold segment_at. change (len []) with 0 in *.
    repeat split; auto; lia.
  - rewrite len_cons in Hk. destruct (Z.eq_dec k 0) as [->|Hk0].
    + exists [], (take_while not_comma (c :: t)),
             (drop_while not_comma (c :: t)).
      split; [now rewrite app_nil_l, take_drop_while|].
      split; [now left|]. split; [apply stops_not_comma, drop_while_stops|].
      split; [apply all_not_comma, take_while_all|].
      change (len []) with 0. pose proof (len_nonneg (take_while not_comma (c :: t))).
      lia.
    + destruct (IH (k - 1)) as [pre [seg [post [Hv [Hpre [Hpost [Hseg Hin]]]]]]];
        [lia|].
      destruct (N.eqb_spec c comma) as [->|Hc].
      * exists (comma :: pre), seg, post.
        split; [cbn; now rewrite Hv|]. split.
        { right. destruct Hpre as [->|[p ->]].
          - now exists [].
          - now exists (comma :: p). }
        split; [assumption|]. split; [assumption|].
        rewrite len_cons. lia.
      * destruct Hpre as [->|[p ->]].
        { exists [], (c :: seg), post.
          split; [cbn; now rewrite Hv|]. split; [now left|].
          split; [assumption|]. split.
          - intros [H|H]; [congruence | contradiction].
          - change (len []) with 0 in *. rewrite len_cons. lia. }
        { exists (c :: p ++ [comma]), seg, post.
          split; [cbn; now rewrite Hv|]. split.
          - right. now exists (c :: p).
          - split; [assumption|]. split; [assumption|].
            rewrite len_cons. lia. }
Qed.

Lemma In_trim (s : jsstring) (c : char) : In c (trim s) -> In c s.
Proof.
  intros H. rewrite (trim_split s). apply in_or_app. right.
  apply in_or_app. now left.
Qed.

(** The text handed to the name pattern by a trimming branch and the
    range returned for it agree: the path is the text of the line inside
    the range. *)
Lemma trimmed_name_slice (point : Point) (idx : Z) (cmd : option jsstring)
    (before text after : jsstring) (r : FileResult) :
  trimmed_name point idx cmd text (len before) (len before + len text)
  = Return (Some r) ->
  path r = Some (trim text) /\
  trim text = slice (before ++ text ++ after)
                (column (range_start (fr_range r)))
                (column (range_end (fr_range r))).
Proof.
  intros H. pose proof (trimmed_name_path _ _ _ _ _ _ H) as [Hp Hl].
  split; [assumption|].
  rewrite trimmed_name_spec in H by assumption. injection H as H.
  match type of H with
  | (if ?b then _ else _) = _ => destruct b; [discriminate|]
  end.
  injection H as <-. cbn [fr_range range_start range_end column].
  pose proof (trim_split text) as Ht.
  assert (Hlen : len text = len (leading_space text) + len (trim text)
                            + len (trailing_space text)).
  { rewrite Ht at 1. rewrite !len_app. lia. }
  rewrite Ht at 2.
  replace (before ++ (leading_space text ++ trim text ++ trailing_space text)
           ++ after)
    with ((before ++ leading_space text) ++ trim text
          ++ (trailing_space text ++ after))
    by (now rewrite <- !app_assoc).
  replace (len before + len (leading_space text))
    with (len (before ++ leading_space text)) by (now rewrite len_app).
  replace (len before + len text - len (trailing_space text))
    with (len (before ++ leading_space text) + len (trim text))
    by (rewrite len_app; lia).
  now rewrite slice_middle.
Qed.

(** What the [\include] branch works on when the context is consistent:
    the segment of the value around the cursor. *)
Lemma include_section_text (context : Context) (pre seg post : jsstring)
    (before after : jsstring) :
  line context = before ++ value context ++ after ->
  startIndex context = len before ->
  endIndex context = startIndex context + len (value context) ->
  segment_at (value context) (index context - startIndex context)
    pre seg post ->
  (seg = [] -> sectionEnd context - sectionStart context < 1) /\
  (seg <> [] ->
   sectionStart context = len (before ++ pre) /\
   sectionEnd context = len (before ++ pre) + len seg /\
   slice (line context) (sectionStart context) (sectionEnd context) = seg /\
   line context = (before ++ pre) ++ seg ++ (post ++ after)).
Proof.
  intros Hl Hsi Hei Hseg.
  pose proof (@include_section_bounds _ _ _ _ _ _ (index context) Hseg Hei)
    as HB.
  cbv zeta in HB. fold (sectionStart context) in HB.
  fold (sectionEnd context) in HB. destruct HB as [HB1 HB2].
  split; [exact HB2|]. intros Hne. destruct (HB1 Hne) as [Hs He].
  assert (Hline : line context = (before ++ pre) ++ seg ++ (post ++ after)).
  { rewrite Hl. destruct Hseg as [-> _]. now rewrite <- !app_assoc. }
  rewrite Hs, He, len_app, Hsi.
  split; [reflexivity|]. split; [lia|]. split; [|assumption].
  rewrite Hline.
  replace (len before + len pre) with (len (before ++ pre))
    by (now rewrite len_app).
  replace (len (before ++ pre) + len seg)
    with (len (before ++ pre) + len seg) by lia.
  apply slice_middle.
Qed.

Lemma builds_range_cases (cmd : option jsstring) :
  builds_range cmd = true ->
  cmd = Some (str "input") \/ cmd = Some (str "include") \/
  cmd = Some (str "includeonly").
Proof.
  unfold builds_range. intros H.
  apply orb_prop in H. destruct H as [H|H];
    [apply orb_prop in H; destruct H as [H|H]|];
    apply strict_eq_iff in H; tauto.
Qed.

Lemma isFilePath_include_result (editor : Editor) (point : Point)
    (context : Context) (r : FileResult) :
  value_at context ->
  startIndex context <= index context <= endIndex context ->
  file_command context = Some (str "include") \/
  file_command context = Some (str "includeonly") ->
  isFilePath editor point context = Return (Some r) ->
  exists before pre seg post after,
    line context = (before ++ pre) ++ seg ++ (post ++ after) /\
    ~ In comma seg /\
    trimmed_name point (index context) (file_command context) seg
      (len (before ++ pre)) (len (before ++ pre) + len seg)
    = Return (Some r).
Proof.
  intros [before [after [Hl [Hsi Hei]]]] Hidx Hcmd H.
  destruct (@segment_exists (value context)
              (index context - startIndex context))
    as [pre [seg [post Hseg]]]; [lia|].
  destruct (@include_section_text context pre seg post before after
              Hl Hsi Hei Hseg) as [Hnil Hne].
  rewrite (isFilePath_include_branch editor point context Hcmd) in H.
  destruct (Z.ltb_spec (sectionEnd context - sectionStart context) 1)
    as [|Hge]; [discriminate|].
  assert (Hseg' : seg <> []) by (intros E; apply Hnil in E; lia).
  destruct (Hne Hseg') as [Hs [He [Hslice Hline]]].
  rewrite Hslice, Hs, He in H.
  exists before, pre, seg, post, after.
  split; [assumption|]. split; [|assumption]. now destruct Hseg as [_ [_ [_ [Hc _]]]].
Qed.

(** X13. For [input], [include] and [includeonly] the range and the path
    [isFilePath] returns agree: when the value of the context is the text
    of the line between its offsets and the cursor lies between them, the
    path is the text of the line between the start column and the end
    column of the returned range. *)
Theorem isFilePath_range_is_path (editor : Editor) (point : Point)
    (context : Context) (r : FileResult) :
  value_at context ->
  startIndex context <= index context <= endIndex context ->
  isFilePath editor point context = Return (Some r) ->
  builds_range (command r) = true ->
  path r = Some (slice (line context)
                   (column (range_start (fr_range r)))
                   (column (range_end (fr_range r)))).
Proof.
  intros Hval Hidx H Hb.
  pose proof (@isFilePath_command editor point context r H) as [Hc _]. rewrite Hc in Hb.
  apply builds_range_cases in Hb. destruct Hb as [Hcmd|Hcmd].
  - destruct Hval as [before [after [Hl [Hsi Hei]]]].
    rewrite (isFilePath_input_branch editor point context Hcmd) in H.
    rewrite Hei, Hsi in H.
    apply trimmed_name_slice with (after := after) in H.
    destruct H as [Hp Hs]. now rewrite Hp, Hs, Hl.
  - destruct (@isFilePath_include_result editor point context r
                Hval Hidx Hcmd H)
      as [before [pre [seg [post [after [Hl [_ Ht]]]]]]].
    apply trimmed_name_slice with (after := post ++ after) in Ht.
    destruct Ht as [Hp Hs]. now rewrite Hp, Hs, Hl.
Qed.

Lemma isFilePath_range_is_path_witness :
  Some (str "b") = Some (slice (line include_context) 12 13).
Proof.
  assert (Hval : value_at include_context).
  { exists (str "\include{"), (str "}"). now repeat split. }
  assert (Hidx : startIndex include_context <= index include_context
                 <= endIndex include_context) by (cbn; lia).
  exact (@isFilePath_range_is_path (buffer_editor []) (mkPoint 0 12)
           include_context
           (mkFileResult (Some (str "include"))
              (mkRange (mkPoint 0 12) (mkPoint 0 13)) (Some (str "b")))
           Hval Hidx eq_refl eq_refl).
Defined.

(** X14. A path returned for [include] or [includeonly] names one file:
    when the value of the context is the text of the line between its
    offsets and the cursor lies between them, the returned path holds no
    comma. *)
Theorem isFilePath_include_no_comma (editor : Editor) (point : Point)
    (context : Context) (r : FileResult) :
  value_at context ->
  startIndex context <= index context <= endIndex context ->
  file_command context = Some (str "include") \/
  file_command context = Some (str "includeonly") ->
  isFilePath editor point context = Return (Some r) ->
  exists p, path r = Some p /\ ~ In comma p.
Proof.
  intros Hval Hidx Hcmd H.
  destruct (@isFilePath_include_result editor point context r
                Hval Hidx Hcmd H)
    as [before [pre [seg [post [after [Hl [Hc Ht]]]]]]].
  apply trimmed_name_path in Ht. destruct Ht as [Hp _].
  exists (trim seg). split; [assumption|].
  intros Hin. apply Hc. now apply In_trim.
Qed.

Lemma isFilePath_include_no_comma_witness :
  exists p, Some (str "b") = Some p /\ ~ In comma p.
Proof.
  assert (Hval : value_at include_context).
  { exists (str "\include{"), (str "}"). now repeat split. }
  assert (Hidx : startIndex include_context <= index include_context
                 <= endIndex include_context) by (cbn; lia).
  exact (@isFilePath_include_no_comma (buffer_editor []) (mkPoint 0 12)
           include_context
           (mkFileResult (Some (str "include"))
              (mkRange (mkPoint 0 12) (mkPoint 0 13)) (Some (str "b")))
           Hval Hidx (or_introl eq_refl) eq_refl).
Defined.

Lemma take_while_all_of (p : char -> bool) (s : jsstring) :
  all_of p s -> take_while p s = s /\ drop_while p s = [].
Proof.
  induction 1 as [|c s Hc Hs [IH1 IH2]]; [now split|].
  cbn. rewrite Hc. split; [now rewrite IH1 | assumption].
Qed.

Lemma blank_parts (v : jsstring) :
  all_space v ->
  leading_space v = v /\ trim v = [] /\ trailing_space v = [].
Proof.
  intros Hv. destruct (take_while_all_of Hv) as [H1 H2].
  unfold leading_space, trim, trailing_space, trim_start.
  rewrite H1, H2. now repeat split.
Qed.

(** X15. A blank argument of [\input] is not rejected: when the value in
    the braces is empty or whitespace only, [isFilePath] returns a result
    exactly when the cursor is at the end of the value, and that result
    has the empty string as its path and the empty range at the cursor. *)
Theorem isFilePath_blank_input (editor : Editor) (point : Point)
    (context : Context) :
  file_command context = Some (str "input") ->
  all_space (value context) ->
  endIndex context = startIndex context + len (value context) ->
  isFilePath editor point context
  = Return (if index context =? endIndex context
            then Some (mkFileResult (Some (str "input"))
                         (mkRange (mkPoint (row point) (endIndex context))
                                  (mkPoint (row point) (endIndex context)))
                         (Some []))
            else None).
Proof.
  intros Hcmd Hv Hend. rewrite isFilePath_input_branch by assumption.
  destruct (blank_parts Hv) as [H1 [H2 H3]].
  rewrite trimmed_name_spec by (rewrite H2; constructor).
  rewrite H1, H2, H3. change (len []) with 0. rewrite Z.sub_0_r, <- Hend.
  destruct (Z.eqb_spec (index context) (endIndex context)) as [->|Hne].
  - rewrite Z.ltb_irrefl, Z.gtb_ltb, Z.ltb_irrefl. reflexivity.
  - destruct (Z.ltb_spec (index context) (endIndex context));
      [reflexivity|].
    destruct (Z.gtb_spec (index context) (endIndex context));
      [reflexivity | lia].
Qed.

Lemma isFilePath_blank_input_witness :
  isFilePath (buffer_editor []) (mkPoint 0 8)
    (mkContext (str "\input{ }") 8 (str " ")
       (mkRange (mkPoint 0 7) (mkPoint 0 8)) 7 8 [])
  = Return (Some (mkFileResult (Some (str "input"))
                    (mkRange (mkPoint 0 8) (mkPoint 0 8)) (Some []))).
Proof.
  apply (@isFilePath_blank_input (buffer_editor []) (mkPoint 0 8)
           (mkContext (str "\input{ }") 8 (str " ")
              (mkRange (mkPoint 0 7) (mkPoint 0 8)) 7 8 [])).
  - reflexivity.
  - repeat constructor.
  - reflexivity.
Defined.
(** ** Searching for a command pattern *)

(** The first backslash of a text is where a pattern that starts with a
    backslash is tried first. *)
Lemma first_match (r : regex) (pre s : jsstring) (y : MState) :
  ~ In backslash pre ->
  rmatch (Seq Backslash r) (mkMState s (List.length pre) []) Some = Some y ->
  regex_match (pre ++ s) (Seq Backslash r)
  = Some (match_array (Seq Backslash r) (pre ++ s) (List.length pre) y).
Proof.
  intros Hpre Hy. unfold regex_match.
  rewrite search_skip_backslash by assumption. now apply search_from_hit.
Qed.

(** ** [isEnvDelim] *)

Lemma envRegex_match_inv (u : jsstring) (m : MatchArray) :
  regex_match u envRegex = Some m ->
  exists cmd, env_command cmd /\ ends_in_command all_space u cmd /\
              capture m 1 = Some cmd.
Proof.
  unfold regex_match. intros H. apply search_from_inv in H.
  destruct H as [a [s' [y [Eu [Hy Hm]]]]]. cbn [Nat.add] in Hy, Hm.
  apply envRegex_inv in Hy.
  destruct Hy as [cmd [ws [arg [Es [Hcmd [Hws [Harg Ey]]]]]]].
  exists cmd. split; [assumption|]. split.
  - exists a, ws, arg. split; [|now split]. now rewrite Eu, Es.
  - rewrite Hm, Ey. rewrite capture_one by (cbv; lia).
    rewrite Eu, Es. f_equal. apply substring_command.
Qed.

Lemma envRegex_reaches (u cmd : jsstring) :
  env_command cmd -> ends_in_command all_space u cmd ->
  regex_match u envRegex <> None.
Proof.
  intros Hcmd [pre [ws [arg [-> [Hws Harg]]]]]. unfold regex_match.
  apply search_from_reaches. cbn [Nat.add].
  now rewrite envRegex_command.
Qed.

Lemma envRegex_first (u cmd : jsstring) :
  env_command cmd -> open_command u cmd ->
  exists m, regex_match u envRegex = Some m /\ capture m 1 = Some cmd.
Proof.
  intros Hcmd [pre [ws [arg [-> [Hpre [Hws Harg]]]]]].
  pose proof (@envRegex_command cmd ws arg (List.length pre) Hcmd Hws Harg)
    as Hrun.
  eexists. split.
  - change envRegex
      with (Seq Backslash
              (seqs [Group 1 (Alt (Lits "begin") (Lits "end"));
                     Spaces; Lit "{"; NotRbraces; Eol])).
    apply first_match; [assumption | exact Hrun].
  - rewrite capture_one by (cbv; lia). f_equal. apply substring_command.
Qed.

(** X16. [isEnvDelim] answers exactly when the text before the cursor
    holds [\begin] or [\end], optional whitespace and a brace that is not
    closed before the cursor. *)
Theorem isEnvDelim_answers_iff (editor : Editor) (point : Point)
    (context : Context) :
  isEnvDelim editor point context <> None <->
  exists cmd, env_command cmd /\
              ends_in_command all_space (before_cursor context) cmd.
Proof.
  unfold isEnvDelim. cbv zeta. fold (before_cursor context). split.
  - destruct (regex_match (before_cursor context) envRegex) as [m|] eqn:Hm;
      [|congruence].
    intros _. apply envRegex_match_inv in Hm.
    destruct Hm as [cmd [Hcmd [Hends _]]]. now exists cmd.
  - intros [cmd [Hcmd Hends]].
    pose proof (envRegex_reaches Hcmd Hends) as Hne.
    destruct (regex_match (before_cursor context) envRegex);
      [discriminate | congruence].
Qed.

Lemma isEnvDelim_answers_iff_witness :
  isEnvDelim (buffer_editor []) (mkPoint 0 0)
    (mkContext (str "\begin{a}\end {b") 16 [] no_range 0 0 []) <> None.
Proof.
  apply (proj2 (@isEnvDelim_answers_iff (buffer_editor []) (mkPoint 0 0)
                  (mkContext (str "\begin{a}\end {b") 16 [] no_range 0 0 []))).
  exists (str "end"). split; [now right|].
  exists (str "\begin{a}"), (str " "), (str "b").
  split; [reflexivity|]. split; repeat constructor.
Defined.

(** X17. What [isEnvDelim] answers is the word [begin] or the word [end],
    never anything else; and it is the word of the first backslash before
    the cursor when that backslash starts [\begin] or [\end] followed by
    optional whitespace and an unclosed brace (whatever the brace holds,
    a further command included). *)
Theorem isEnvDelim_command :
  (forall editor point context v,
     isEnvDelim editor point context = Some v ->
     v = Some (str "begin") \/ v = Some (str "end"))
  /\ (forall editor point context cmd,
        env_command cmd -> open_command (before_cursor context) cmd ->
        isEnvDelim editor point context = Some (Some cmd)).
Proof.
  split.
  - intros editor point context v. unfold isEnvDelim. cbv zeta.
    destruct (regex_match _ envRegex) as [m|] eqn:Hm; [|discriminate].
    intros H. injection H as <-. apply envRegex_match_inv in Hm.
    destruct Hm as [cmd [[->| ->] [_ Hcap]]]; [now left | now right].
  - intros editor point context cmd Hcmd Hopen.
    destruct (envRegex_first Hcmd Hopen) as [m [Hm Hcap]].
    unfold isEnvDelim. cbv zeta. fold (before_cursor context).
    now rewrite Hm, Hcap.
Qed.

Lemma isEnvDelim_command_witness :
  env_command (str "begin") /\
  open_command (str "a \begin {\end{b") (str "begin") /\
  isEnvDelim (buffer_editor []) (mkPoint 0 0)
    (mkContext (str "a \begin {\end{b}}") 16 [] no_range 0 0 [])
  = Some (Some (str "begin")).
Proof.
  assert (Hcmd : env_command (str "begin")) by now left.
  assert (Hopen : open_command (str "a \begin {\end{b") (str "begin")).
  { exists (str "a "), (str " "), (str "\end{b").
    split; [reflexivity|]. split.
    - cbn. unfold backslash. intuition discriminate.
    - split; repeat constructor. }
  split; [exact Hcmd|]. split; [exact Hopen|].
  exact (proj2 isEnvDelim_command (buffer_editor []) (mkPoint 0 0)
           (mkContext (str "a \begin {\end{b}}") 16 [] no_range 0 0 [])
           (str "begin") Hcmd Hopen).
Defined.

(** ** [isPackageOrClass] *)

Lemma pkgRegex_match_inv (u : jsstring) (m : MatchArray) :
  regex_match u pkgRegex = Some m ->
  exists cmd, package_command cmd /\ ends_in_command package_gap u cmd.
Proof.
  unfold regex_match. intros H. apply search_from_inv in H.
  destruct H as [a [s' [y [Eu [Hy Hm]]]]].
  apply pkgRegex_inv in Hy.
  destruct Hy as [cmd [mid [arg [Es [Hcmd [Hmid Harg]]]]]].
  exists cmd. split; [assumption|].
  exists a, mid, arg. split; [|now split]. now rewrite Eu, Es.
Qed.

(** X18. [isPackageOrClass] is [true] exactly when the text before the
    cursor holds [\usepackage] or [\documentclass], optional whitespace,
    an optional bracketed group (holding no line terminator) directly
    followed by a brace that is not closed before the cursor, or the
    scopes of the context include [support.class.latex]. *)
Theorem isPackageOrClass_iff (editor : Editor) (point : Point)
    (context : Context) :
  isPackageOrClass editor point context = true <->
  (exists cmd, package_command cmd /\
               ends_in_command package_gap (before_cursor context) cmd)
  \/ includes (scopes context) "support.class.latex" = true.
Proof.
  unfold isPackageOrClass. cbv zeta. fold (before_cursor context). split.
  - destruct (regex_match (before_cursor context) pkgRegex) as [m|] eqn:Hm.
    + intros _. left. now apply pkgRegex_match_inv in Hm.
    + intros H. now right.
  - intros [[cmd [Hcmd [pre [mid [arg [Hu [Hmid Harg]]]]]]]|Hs].
    + assert (Hne : regex_match (before_cursor context) pkgRegex <> None).
      { rewrite Hu. unfold regex_match. apply search_from_reaches.
        now apply pkgRegex_reaches. }
      destruct (regex_match (before_cursor context) pkgRegex);
        [reflexivity | congruence].
    + destruct (regex_match (before_cursor context) pkgRegex);
        [reflexivity | assumption].
Qed.

Lemma isPackageOrClass_iff_witness :
  isPackageOrClass (buffer_editor []) (mkPoint 0 0)
    (mkContext (str "\documentclass [a4paper]{art") 28 [] no_range 0 0 [])
  = true.
Proof.
  apply (proj2 (@isPackageOrClass_iff (buffer_editor []) (mkPoint 0 0)
                  (mkContext (str "\documentclass [a4paper]{art") 28 []
                     no_range 0 0 []))).
  left. exists (str "documentclass"). split; [now right|].
  exists [], (str " [a4paper]"), (str "art").
  split; [reflexivity|]. split; [|repeat constructor].
  exists (str " "), (str "[a4paper]"). split; [reflexivity|].
  split; [repeat constructor|]. right. exists (str "a4paper").
  split; [reflexivity | repeat constructor].
Defined.

(** ** [isRef] *)

Lemma refRegex_match_inv (u : jsstring) (m : MatchArray) :
  regex_match u refRegex = Some m ->
  exists cmd, ref_command cmd /\ ends_in_command all_space u cmd /\
              capture m 1 = Some cmd.
Proof.
  unfold regex_match. intros H. apply search_from_inv in H.
  destruct H as [a [s' [y [Eu [Hy Hm]]]]]. cbn [Nat.add] in Hy, Hm.
  apply refRegex_inv in Hy.
  destruct Hy as [cmd [ws [arg [Es [Hcmd [Hws [Harg Ey]]]]]]].
  exists cmd. split; [assumption|]. split.
  - exists a, ws, arg. split; [|now split]. now rewrite Eu, Es.
  - rewrite Hm, Ey. rewrite capture_one by (cbv; lia).
    rewrite Eu, Es. f_equal. apply substring_command.
Qed.

Lemma refRegex_reaches (u cmd : jsstring) :
  ref_command cmd -> ends_in_command all_space u cmd ->
  regex_match u refRegex <> None.
Proof.
  intros Hcmd [pre [ws [arg [-> [Hws Harg]]]]]. unfold regex_match.
  apply search_from_reaches. cbn [Nat.add].
  now rewrite refRegex_command.
Qed.

Lemma refRegex_first (u cmd : jsstring) :
  ref_command cmd -> open_command u cmd ->
  exists m, regex_match u refRegex = Some m /\ capture m 1 = Some cmd.
Proof.
  intros Hcmd [pre [ws [arg [-> [Hpre [Hws Harg]]]]]].
  pose proof (@refRegex_command cmd ws arg (List.length pre) Hcmd Hws Harg)
    as Hrun.
  eexists. split.
  - rewrite refRegex_eq. rewrite refRegex_eq in Hrun.
    apply first_match; [assumption | exact Hrun].
  - rewrite capture_one by (cbv; lia). f_equal. apply substring_command.
Qed.

(** X19. [isRef] answers exactly when the text before the cursor column
    holds a reference command ([ref], [autoref], [nameref], [pageref],
    [eqref], [cpageref], [cref] or [labelcref] in any letter case, with an
    optional star), optional whitespace and a brace that is not closed
    before the cursor, or the scopes of the context include
    [meta.reference.latex]. *)
Theorem isRef_answers_iff (editor : Editor) (point : Point)
    (context : Context) :
  isRef editor point context <> None <->
  (exists cmd, ref_command cmd /\
               ends_in_command all_space (before_column point context) cmd)
  \/ includes (scopes context) "meta.reference.latex" = true.
Proof.
  unfold isRef. cbv zeta. fold (before_column point context). split.
  - destruct (regex_match (before_column point context) refRegex)
      as [m|] eqn:Hm.
    + intros _. left. apply refRegex_match_inv in Hm.
      destruct Hm as [cmd [Hcmd [Hends _]]]. now exists cmd.
    + destruct (includes (scopes context) "meta.reference.latex");
        [now right | congruence].
  - intros [[cmd [Hcmd Hends]]|Hs].
    + pose proof (refRegex_reaches Hcmd Hends) as Hne.
      destruct (regex_match (before_column point context) refRegex);
        [discriminate | congruence].
    + rewrite Hs.
      destruct (regex_match (before_column point context) refRegex);
        discriminate.
Qed.

Lemma isRef_answers_iff_witness :
  isRef (buffer_editor []) (mkPoint 0 0)
    (mkContext (str "\foo{a") 6 [] no_range 0 0
       [str "meta.reference.latex"]) <> None.
Proof.
  apply (proj2 (@isRef_answers_iff (buffer_editor []) (mkPoint 0 0)
                  (mkContext (str "\foo{a") 6 [] no_range 0 0
                     [str "meta.reference.latex"]))).
  right. reflexivity.
Defined.

(** X20. What [isRef] answers: a reference command, or the text
    [UNKNOWN REF COMMAND] when the scopes include [meta.reference.latex].
    When the first backslash before the cursor column starts a reference
    command followed by optional whitespace and an unclosed brace, the
    answer is that command as it is written in the line, letter case and
    star included. *)
Theorem isRef_command :
  (forall editor point context v,
     isRef editor point context = Some v ->
     (exists cmd, ref_command cmd /\ v = Some cmd) \/
     (v = Some (str "UNKNOWN REF COMMAND") /\
      includes (scopes context) "meta.reference.latex" = true))
  /\ (forall editor point context cmd,
        ref_command cmd -> open_command (before_column point context) cmd ->
        isRef editor point context = Some (Some cmd)).
Proof.
  split.
  - intros editor point context v. unfold isRef. cbv zeta.
    destruct (regex_match _ refRegex) as [m|] eqn:Hm.
    + intros H. injection H as <-. left. apply refRegex_match_inv in Hm.
      destruct Hm as [cmd [Hcmd [_ Hcap]]]. now exists cmd.
    + destruct (includes (scopes context) "meta.reference.latex");
        [|discriminate].
      intros H. injection H as <-. now right.
  - intros editor point context cmd Hcmd Hopen.
    destruct (refRegex_first Hcmd Hopen) as [m [Hm Hcap]].
    unfold isRef. cbv zeta. fold (before_column point context).
    now rewrite Hm, Hcap.
Qed.

Lemma isRef_command_witness :
  ref_command (str "labelCref*") /\
  open_command (str "see \labelCref* {eq:") (str "labelCref*") /\
  isRef (buffer_editor []) (mkPoint 0 20)
    (mkContext (str "see \labelCref* {eq:1}") 0 [] no_range 0 0 [])
  = Some (Some (str "labelCref*")).
Proof.
  assert (Hcmd : ref_command (str "labelCref*")).
  { exists (str "labelC"), (str "ref"), (str "*").
    split; [reflexivity|]. split; [right; cbn; tauto|].
    split; [reflexivity | now right]. }
  assert (Hopen : open_command (str "see \labelCref* {eq:")
                    (str "labelCref*")).
  { exists (str "see "), (str " "), (str "eq:").
    split; [reflexivity|]. split.
    - cbn. unfold backslash. intuition discriminate.
    - split; repeat constructor. }
  split; [exact Hcmd|]. split; [exact Hopen|].
  exact (proj2 isRef_command (buffer_editor []) (mkPoint 0 20)
           (mkContext (str "see \labelCref* {eq:1}") 0 [] no_range 0 0 [])
           (str "labelCref*") Hcmd Hopen).
Defined.
(** ** What all command classifiers need *)

Lemma ends_in_command_needs (gap : jsstring -> Prop) (u cmd : jsstring) :
  ends_in_command gap u cmd -> In backslash u /\ unclosed_brace u.
Proof.
  intros [pre [mid [arg [-> [_ Harg]]]]]. split.
  - apply in_or_app. right. now left.
  - exists (pre ++ [backslash] ++ cmd ++ mid), arg.
    split; [now rewrite <- !app_assoc | assumption].
Qed.

(** X22. The four classifiers that look for a command need a backslash
    and an open brace before the cursor: when the text before the cursor
    holds no backslash, or every [{] in it is followed by a [}], then
    [isFilePath] and [isEnvDelim] return [false], and [isPackageOrClass]
    and [isRef] (which reads the text before the cursor column) answer
    from the scopes of the context alone. *)
Theorem command_classifiers_need_open_brace :
  (forall editor point context,
     ~ In backslash (before_cursor context) \/
     ~ unclosed_brace (before_cursor context) ->
     isFilePath editor point context = Return None /\
     isEnvDelim editor point context = None /\
     isPackageOrClass editor point context
     = includes (scopes context) "support.class.latex")
  /\ (forall editor point context,
        ~ In backslash (before_column point context) \/
        ~ unclosed_brace (before_column point context) ->
        isRef editor point context
        = if includes (scopes context) "meta.reference.latex"
          then Some (Some (str "UNKNOWN REF COMMAND")) else None).
Proof.
  split.
  - intros editor point context Hno.
    assert (Hgap : forall gap cmd,
              ~ ends_in_command gap (before_cursor context) cmd).
    { intros gap cmd H. apply ends_in_command_needs in H. tauto. }
    split; [|split].
    + apply isFilePath_no_match. fold (before_cursor context).
      destruct (regex_match (before_cursor context) fileRegex) as [m|] eqn:Hm;
        [|reflexivity].
      apply fileRegex_match_inv in Hm. destruct Hm as [cmd [H _]].
      now apply Hgap in H.
    + unfold isEnvDelim. cbv zeta. fold (before_cursor context).
      destruct (regex_match (before_cursor context) envRegex) as [m|] eqn:Hm;
        [|reflexivity].
      apply envRegex_match_inv in Hm. destruct Hm as [cmd [_ [H _]]].
      now apply Hgap in H.
    + unfold isPackageOrClass. cbv zeta. fold (before_cursor context).
      destruct (regex_match (before_cursor context) pkgRegex) as [m|] eqn:Hm;
        [|reflexivity].
      apply pkgRegex_match_inv in Hm. destruct Hm as [cmd [_ H]].
      now apply Hgap in H.
  - intros editor point context Hno.
    unfold isRef. cbv zeta. fold (before_column point context).
    destruct (regex_match (before_column point context) refRegex)
      as [m|] eqn:Hm; [|reflexivity].
    apply refRegex_match_inv in Hm. destruct Hm as [cmd [_ [H _]]].
    apply ends_in_command_needs in H. tauto.
Qed.

Lemma command_classifiers_need_open_brace_witness :
  isFilePath (buffer_editor []) (mkPoint 0 9)
    (mkContext (str "\input{a} ") 9 (str "a")
       (mkRange (mkPoint 0 7) (mkPoint 0 8)) 7 8 []) = Return None.
Proof.
  apply (proj1 command_classifiers_need_open_brace (buffer_editor [])
           (mkPoint 0 9)
           (mkContext (str "\input{a} ") 9 (str "a")
              (mkRange (mkPoint 0 7) (mkPoint 0 8)) 7 8 [])).
  right. intros [a [u [E Hu]]].
  unfold all_of in Hu. rewrite Forall_forall in Hu.
  assert (Hin : In rbrace u).
  { match type of E with
    | ?l = _ => let v := eval vm_compute in l in change l with v in E
    end.
    unfold lbrace in E.
    do 6 (destruct a as [|? a]; cbn [app] in E;
          [discriminate E | injection E as _ E]).
    destruct a as [|? a]; cbn [app] in E.
    - injection E as <-. right. now left.
    - injection E as _ E.
      do 2 (destruct a as [|? a]; cbn [app] in E;
            [discriminate E | injection E as _ E]).
      destruct a; discriminate E. }
  apply Hu in Hin. discriminate Hin.
Defined.

(** ** [getBraceContents] as the supplier of the context *)

Lemma slice_in_range (l : jsstring) (a b : Z) :
  0 <= a <= b -> b <= len l ->
  l = firstn (Z.to_nat a) l ++ slice l a b ++ skipn (Z.to_nat b) l /\
  len (firstn (Z.to_nat a) l) = a /\ len (slice l a b) = b - a.
Proof.
  intros Hab Hb. unfold slice, rel_index.
  destruct (Z.ltb_spec a 0); [lia|]. destruct (Z.ltb_spec b 0); [lia|].
  rewrite !Z.min_l by lia.
  assert (Hsk : skipn (Z.to_nat b) l
                = skipn (Z.to_nat (b - a)) (skipn (Z.to_nat a) l)).
  { rewrite skipn_skipn. f_equal. lia. }
  rewrite Hsk, firstn_skipn, firstn_skipn. split; [reflexivity|].
  unfold len in *. rewrite !length_firstn, length_skipn. lia.
Qed.

(** X23. The group [getBraceContents] finds is a context [isFilePath] can
    work on: when the value, range and offsets of the context record are
    those of the result of [getBraceContents] on a line the editor shows,
    the value is the text of the line between the two offsets, the cursor
    column lies between them, and every range [isFilePath] returns lies on
    the row of the cursor with its start column at most its end column. *)
Theorem brace_contents_as_context (editor : Editor) (point : Point)
    (context : Context) (r : BraceContents) :
  shows_line editor (row point) (line context) ->
  getBraceContents editor point context = Some r ->
  value context = bc_value r -> range context = bc_range r ->
  startIndex context = column (range_start (bc_range r)) ->
  endIndex context = column (range_end (bc_range r)) ->
  value_at context /\
  startIndex context <= column point <= endIndex context /\
  (forall fr, isFilePath editor point context = Return (Some fr) ->
              span_inv (row point) (fr_range fr)).
Proof.
  intros Hshow H Hv Hr Hs He.
  destruct (getBraceContents_cases editor point context)
    as [[Hnull _]|[s [e [Henc Hsome]]]]; [congruence|].
  rewrite Hsome in H. injection H as Hq. subst r.
  cbn [found_contents inner_range bc_range bc_value range_start range_end
       column] in *.
  destruct Henc as [Hse [Hcs [Hce Hin]]].
  pose proof (charAt_some_bounds _ _ Hcs) as Bs.
  pose proof (charAt_some_bounds _ _ Hce) as Be.
  assert (Hval : value context = slice (line context) (s + 1) e).
  { rewrite Hv. apply Hshow; lia. }
  split; [|split].
  - destruct (@slice_in_range (line context) (s + 1) e) as [El [L1 L2]];
      [lia | lia |].
    exists (firstn (Z.to_nat (s + 1)) (line context)),
           (skipn (Z.to_nat e) (line context)).
    rewrite Hval. split; [exact El|]. rewrite L1, L2. lia.
  - lia.
  - intros fr Hfr. apply isFilePath_range in Hfr.
    destruct (builds_range (command fr)); [assumption|].
    rewrite Hfr, Hr. unfold span_inv, inner_range.
    cbn [range_start range_end row column]. lia.
Qed.

Lemma brace_contents_as_context_witness :
  value_at inputminted_context /\
  startIndex inputminted_context <= 21 <= endIndex inputminted_context /\
  (forall fr,
     isFilePath (buffer_editor [line inputminted_context]) (mkPoint 0 21)
       inputminted_context = Return (Some fr) ->
     span_inv 0 (fr_range fr)).
Proof.
  apply (@brace_contents_as_context
           (buffer_editor [line inputminted_context]) (mkPoint 0 21)
           inputminted_context
           (mkBraceContents (str "a.py")
              (mkRange (mkPoint 0 19) (mkPoint 0 23)))).
  - apply buffer_editor_shows_line. reflexivity.
  - reflexivity.
  - reflexivity.
  - reflexivity.
  - reflexivity.
  - reflexivity.
Defined.
